(** * SpeechLess: the editor and the transcript segmentation

    A shallow embedding of [speechless/editor.py] (class [Editor]:
    [from_json], [export_json], [prepare_destination], [edit]) and of
    [speechless/processing/tokenization.py] ([sentence_segmentation]),
    with the properties of the specification stated over them.

    Python objects are modelled as follows.
    - JSON-like values ([pyval]): [None], [bool], [int] as [Z], [float] as
      the kernel's binary64 [float], [str] as [string] (ASCII), lists, and
      dicts with string keys in insertion order.
    - [Fraction] as [Q].
    - A raised exception as [Err e]; the logger's calls as events. *)

From Stdlib Require Import ZArith QArith Floats String Ascii List.
From Stdlib Require Import Sorting.Sorted Permutation.
From Stdlib Require Import DecimalString DecimalPos DecimalN.
From Equations Require Import Equations.
From stdpp Require Import gmap strings list.

Local Open Scope string_scope.
Local Open Scope Z_scope.

(** ** Python values, exceptions and built-in conversions *)

Module Py.

#[local] Set Warnings "-register-all".

Inductive pyval : Type :=
| PNone
| PBool (b : bool)
| PInt (z : Z)
| PFloat (f : float)
| PStr (s : string)
| PList (l : list pyval)
| PDict (d : list (string * pyval)).

Inductive exn_kind : Set :=
| KValueError | KTypeError | KAttributeError | KIndexError | KKeyError
| KAssertionError | KZeroDivisionError | KOverflowError | KStopIteration
| KNameError.

(** [ValueError msg] is a [raise ValueError(msg)] written in the source;
    [Raised k] is an exception of kind [k] raised by a built-in, an operator
    or an [assert]. *)
Inductive exn : Type :=
| ValueError (msg : string)
| Raised (k : exn_kind).

Inductive result (A : Type) : Type :=
| Ok (a : A)
| Err (e : exn).
Arguments Ok {A} a.
Arguments Err {A} e.

Definition is_ok {A} (r : result A) : bool :=
  match r with Ok _ => true | Err _ => false end.

Definition rbind {A B} (r : result A) (f : A -> result B) : result B :=
  match r with Ok a => f a | Err e => Err e end.

(** [for a in l: s = f a s], where [f] may raise. *)
Fixpoint rfold {A S} (f : A -> S -> result S) (l : list A) (s : S) : result S :=
  match l with
  | [] => Ok s
  | a :: l' => rbind (f a s) (rfold f l')
  end.

Fixpoint rmapM {A B} (f : A -> result B) (l : list A) : result (list B) :=
  match l with
  | [] => Ok []
  | a :: l' => rbind (f a) (fun b => rbind (rmapM f l') (fun bs => Ok (b :: bs)))
  end.

(** The conversions between text and numbers that CPython implements in C
    ([int(str)], [float(str)], [Fraction(str)], and [repr] of a value that
    is not a [str]) are taken as an interface. *)
Class Builtins : Type := {
  int_of_str : string -> option Z;
  float_of_str : string -> option float;
  fraction_of_str : string -> option Q;
  repr : pyval -> string
}.

(** The integer part (towards zero) of a finite float, and its exact value
    as a fraction. *)
Definition trunc_finite (s : bool) (m : positive) (e : Z) : Z :=
  let a := if (0 <=? e) then Z.pos m * 2 ^ e else Z.pos m / 2 ^ (- e) in
  if s then - a else a.

Definition Q_of_finite (s : bool) (m : positive) (e : Z) : Q :=
  let n := if s then Z.neg m else Z.pos m in
  if (0 <=? e) then inject_Z (n * 2 ^ e) else Qmake n (Z.to_pos (2 ^ (- e))).

(** [float(z)] for an [int]: round to nearest even, [OverflowError] when
    the result would not be finite. *)
Definition float_of_Z (z : Z) : result float :=
  let f := SF2Prim (binary_normalize prec emax z 0 false) in
  if PrimFloat.is_infinity f then Err (Raised KOverflowError) else Ok f.

Section Conversions.
Context `{Builtins}.

(** [str(v)] *)
Definition py_str (v : pyval) : string :=
  match v with PStr s => s | _ => repr v end.

(** [int(v)] *)
Definition py_int (v : pyval) : result Z :=
  match v with
  | PInt z => Ok z
  | PBool b => Ok (Z.b2z b)
  | PFloat f =>
      match Prim2SF f with
      | S754_zero _ => Ok 0
      | S754_finite s m e => Ok (trunc_finite s m e)
      | S754_infinity _ => Err (Raised KOverflowError)
      | S754_nan => Err (Raised KValueError)
      end
  | PStr s =>
      match int_of_str s with
      | Some z => Ok z
      | None => Err (Raised KValueError)
      end
  | PNone | PList _ | PDict _ => Err (Raised KTypeError)
  end.

(** [float(v)] *)
Definition py_float (v : pyval) : result float :=
  match v with
  | PFloat f => Ok f
  | PInt z => float_of_Z z
  | PBool b => Ok (if b then 1%float else 0%float)
  | PStr s =>
      match float_of_str s with
      | Some f => Ok f
      | None => Err (Raised KValueError)
      end
  | PNone | PList _ | PDict _ => Err (Raised KTypeError)
  end.

(** [Fraction(v)] *)
Definition py_Fraction (v : pyval) : result Q :=
  match v with
  | PInt z => Ok (inject_Z z)
  | PBool b => Ok (inject_Z (Z.b2z b))
  | PFloat f =>
      match Prim2SF f with
      | S754_zero _ => Ok 0%Q
      | S754_finite s m e => Ok (Q_of_finite s m e)
      | S754_infinity _ => Err (Raised KOverflowError)
      | S754_nan => Err (Raised KValueError)
      end
  | PStr s =>
      match fraction_of_str s with
      | Some q => Ok q
      | None => Err (Raised KValueError)
      end
  | PNone | PList _ | PDict _ => Err (Raised KTypeError)
  end.
End Conversions.

(** [bool(v)]: the truth value of [v]. *)
Definition py_bool (v : pyval) : bool :=
  match v with
  | PNone => false
  | PBool b => b
  | PInt z => negb (z =? 0)
  | PFloat f => negb (PrimFloat.eqb f 0%float)
  | PStr s => negb (String.eqb s "")
  | PList l => match l with [] => false | _ => true end
  | PDict d => match d with [] => false | _ => true end
  end.

(** [iter(v)]: the elements a [for] loop or a comprehension draws from [v]. *)
Definition py_iter (v : pyval) : result (list pyval) :=
  match v with
  | PList l => Ok l
  | PStr s => Ok (map (fun c => PStr (String c EmptyString)) (list_ascii_of_string s))
  | PDict d => Ok (map (fun kv => PStr (fst kv)) d)
  | PNone | PBool _ | PInt _ | PFloat _ => Err (Raised KTypeError)
  end.

(** [v.items()], defined on dicts only. *)
Definition py_items (v : pyval) : result (list (string * pyval)) :=
  match v with
  | PDict d => Ok d
  | _ => Err (Raised KAttributeError)
  end.

(** [l[i]] on a list. *)
Definition py_index {A} (l : list A) (i : nat) : result A :=
  match nth_error l i with
  | Some a => Ok a
  | None => Err (Raised KIndexError)
  end.

(** [s.lower()] and [s.isnumeric()] on ASCII text. *)
Definition lower_ascii (c : ascii) : ascii :=
  let n := nat_of_ascii c in
  if ((65 <=? n) && (n <=? 90))%nat then ascii_of_nat (n + 32) else c.

Fixpoint lower (s : string) : string :=
  match s with
  | EmptyString => EmptyString
  | String c s' => String (lower_ascii c) (lower s')
  end.

Definition is_digit (c : ascii) : bool :=
  let n := nat_of_ascii c in ((48 <=? n) && (n <=? 57))%nat.

Fixpoint all_digits (s : string) : bool :=
  match s with
  | EmptyString => true
  | String c s' => is_digit c && all_digits s'
  end.

Definition isnumeric (s : string) : bool :=
  match s with
  | EmptyString => false
  | _ => all_digits s
  end.

(** [int(s)] for a string of decimal digits, and [str(n)] for a
    non-negative [int]. *)
Definition int_of_digits (s : string) : Z :=
  match NilEmpty.uint_of_string s with
  | Some d => Z.of_N (N.of_uint d)
  | None => 0
  end.

Definition str_of_N (n : N) : string := NilEmpty.string_of_uint (N.to_uint n).

Definition str_of_Z (z : Z) : string :=
  match z with
  | Z.neg p => "-" ++ str_of_N (N.pos p)
  | _ => str_of_N (Z.to_N z)
  end.

End Py.

(** ** Logging and exceptions: a writer over an error monad *)

Module Eff.
Import Py.

(** A computation that emits events of type [E] and then returns or raises. *)
Definition M (E A : Type) : Type := (list E * result A)%type.

Definition ret {E A} (a : A) : M E A := ([], Ok a).
Definition raise {E A} (e : exn) : M E A := ([], Err e).
Definition emit {E} (ev : E) : M E unit := ([ev], Ok tt).
Definition lift {E A} (r : result A) : M E A := ([], r).

Definition bind {E A B} (m : M E A) (f : A -> M E B) : M E B :=
  match m with
  | (l, Ok a) => let '(l', r) := f a in ((l ++ l')%list, r)
  | (l, Err e) => (l, Err e)
  end.

(** [for a in l: s = f a s] *)
Fixpoint foldM {E A S} (f : A -> S -> M E S) (l : list A) (s : S) : M E S :=
  match l with
  | [] => ret s
  | a :: l' => bind (f a s) (foldM f l')
  end.

(** The events of [m] seen through [g]. *)
Definition relabel {E F A} (g : E -> F) (m : M E A) : M F A := (map g (fst m), snd m).

End Eff.

Notation "'do' x <- m ; k" := (Eff.bind m (fun x => k))
  (at level 10, x pattern, m at level 100, k at level 200).
Notation "m ;; k" := (Eff.bind m (fun _ => k))
  (at level 100, k at level 200, right associativity).

(** [[f a for a in l]], where [f] may log or raise. *)
Fixpoint mapM {E A B} (f : A -> Eff.M E B) (l : list A) : Eff.M E (list B) :=
  match l with
  | [] => Eff.ret []
  | a :: l' => do b <- f a; do bs <- mapM f l'; Eff.ret (b :: bs)
  end.

(** ** The editor: [speechless/editor.py] *)

Module Editor.
Import Py Eff.

Definition ID_VIDEO_STREAM : string := "video".
Definition ID_AUDIO_STREAM : string := "audio".
Definition SUPPORTED_STREAM_TYPES : list string := [ID_VIDEO_STREAM; ID_AUDIO_STREAM].

Definition ID_CODEC : string := "codec".
Definition ID_CODEC_OPTIONS : string := "codec-options".
Definition ID_BITRATE : string := "bitrate".
Definition ID_RESOLUTION : string := "resolution".
Definition ID_MAX_FPS : string := "max-fps".
Definition ID_SAMPLE_RATE : string := "sample-rate".
Definition ID_MONO : string := "mono".
Definition ID_TIMELINE_CHANGES : string := "timeline-changes".

(** [x in l] for a list of strings. *)
Definition str_in (x : string) (l : list string) : bool :=
  existsb (String.eqb x) l.

(** A key of [Editor.settings]: a stream type or a stream index. *)
Inductive skey : Set :=
| KStr (s : string)
| KInt (z : Z).

#[global] Instance skey_eq_dec : EqDecision skey.
Proof. solve_decision. Defined.

#[global] Instance skey_countable : Countable skey :=
  inj_countable'
    (fun k => match k with KStr s => inl s | KInt z => inr z end)
    (fun x => match x with inl s => KStr s | inr z => KInt z end)
    (fun k => match k with KStr _ => eq_refl | KInt _ => eq_refl end).

(** The settings of one stream type or stream index, and [Editor.settings]. *)
Abbreviation stream_settings := (gmap string pyval).
Abbreviation settings_map := (gmap skey (gmap string pyval)).

Record editor : Type := { settings : settings_map }.

(** A timeline change [(beg, end, multi)]. *)
Record TimelineChange : Type := { beg : float; end_ : float; multi : float }.

(** What the logger is told. *)
Inductive logmsg : Type :=
| SkippingUnrecognizedIdentifier (identifier : string)
| SkippingUnrecognizedSetting (key : string)
| SkippingNoDecoder (index : nat)
| SkippingNotSupported (index : nat) (type : string)
| LowTimeBaseResolution (index : nat) (max_fps possible_fps : Q)
| StartedEditing (src_path : string)
| EmptyRecording (src_path : string)
| FinishedEditing (src_path dst_path : string).

Inductive log : Type :=
| Info (m : logmsg)
| Warning (m : logmsg).

(** [Editor.__init__] *)
Definition init (video_settings audio_settings : option stream_settings) : editor :=
  {| settings :=
       <[KStr ID_AUDIO_STREAM := default ∅ audio_settings]>
         (<[KStr ID_VIDEO_STREAM := default ∅ video_settings]> ∅) |}.

Definition dq : string := String (ascii_of_nat 34) EmptyString.

Definition must_be_positive (key : string) : string :=
  dq ++ key ++ dq ++ " must be a positive number".

Definition must_consist_of_positive (key : string) : string :=
  dq ++ key ++ dq ++ " must consist of positive numbers".

Section FromJson.
Context `{Builtins}.

(** The body of [for key, value in config.items()] in [from_json]: one
    option of one section of the document. *)
Definition from_json_option (kv : string * pyval) (st : stream_settings)
  : M log stream_settings :=
  let '(key, value) := kv in
  if String.eqb key ID_CODEC then
    ret (<[key := PStr (py_str value)]> st)
  else if String.eqb key ID_CODEC_OPTIONS then
    do items <- lift (py_items value);
    ret (<[key := PDict (map (fun ov => (fst ov, PStr (py_str (snd ov)))) items)]> st)
  else if String.eqb key ID_BITRATE then
    do z <- lift (py_int value);
    if z <=? 0 then raise (ValueError (must_be_positive ID_BITRATE))
    else ret (<[key := PInt z]> st)
  else if String.eqb key ID_RESOLUTION then
    do dims <- lift (rbind (py_iter value) (rmapM py_int));
    do w <- lift (py_index dims 0);
    do h <- lift (py_index dims 1);
    if w * h <=? 0 then raise (ValueError (must_consist_of_positive ID_RESOLUTION))
    else ret (<[key := PList (map PInt dims)]> st)
  else if String.eqb key ID_MAX_FPS then
    do f <- lift (py_float value);
    if PrimFloat.leb f 0%float then raise (ValueError (must_be_positive ID_MAX_FPS))
    else ret (<[key := PFloat f]> st)
  else if String.eqb key ID_SAMPLE_RATE then
    do z <- lift (py_int value);
    if z <=? 0 then raise (ValueError (must_be_positive ID_SAMPLE_RATE))
    else ret (<[key := PInt z]> st)
  else if String.eqb key ID_MONO then
    ret (<[key := PBool (py_bool value)]> st)
  else
    emit (Warning (SkippingUnrecognizedSetting key));; ret st.

(** The body of [for identifier, config in json_settings.items()]. *)
Definition from_json_section (ic : string * pyval) (s : settings_map)
  : M log settings_map :=
  let '(identifier, config) := ic in
  let identifier := lower identifier in
  let fill (k : skey) : M log settings_map :=
    let cur := default ∅ (s !! k) in
    do items <- lift (py_items config);
    do new <- foldM from_json_option items cur;
    ret (<[k := new]> s) in
  if str_in identifier [ID_VIDEO_STREAM; ID_AUDIO_STREAM] then
    fill (KStr identifier)
  else if isnumeric identifier then
    fill (KInt (int_of_digits identifier))
  else if negb (String.eqb identifier ID_TIMELINE_CHANGES) then
    emit (Warning (SkippingUnrecognizedIdentifier identifier));; ret s
  else ret s.

(** [Editor.from_json], on the items of [json_settings] in their order. *)
Definition from_json (json_settings : list (string * pyval)) : M log editor :=
  do s <- foldM from_json_section json_settings (settings (init None None));
  ret {| settings := s |}.

End FromJson.

(** [dict[k] = v] on a dict kept in insertion order. *)
Fixpoint dict_set {K V} `{EqDecision K} (k : K) (v : V) (d : list (K * V)) : list (K * V) :=
  match d with
  | [] => [(k, v)]
  | (k', v') :: d' => if decide (k = k') then (k, v) :: d' else (k', v') :: dict_set k v d'
  end.

Definition dict_get {K V} `{EqDecision K} (k : K) (d : list (K * V)) : option V :=
  snd <$> find (fun kv => bool_decide (fst kv = k)) d.

(** The object [json.load] builds from the pairs of a JSON object. *)
Definition json_object (pairs : list (string * pyval)) : list (string * pyval) :=
  fold_left (fun d kv => dict_set (fst kv) (snd kv) d) pairs [].

(** The key [json.dump] writes for a key of [Editor.settings]. *)
Definition json_key (k : skey) : string :=
  match k with
  | KStr s => s
  | KInt z => str_of_Z z
  end.

(** [Editor.export_json], as the document that [json.load] reads back from
    the file written: [changes] is [None], or the rows [[beg, end, multi]]. *)
Definition export_json (e : editor) (changes : option (list TimelineChange))
  : result (list (string * pyval)) :=
  if bool_decide (is_Some (settings e !! KStr ID_TIMELINE_CHANGES)) then
    Err (Raised KAssertionError)
  else
    let config :=
      map (fun ks : skey * stream_settings => (json_key (fst ks), PDict (map_to_list (snd ks))))
          (map_to_list (settings e)) in
    let rows :=
      match changes with
      | None => []
      | Some cs =>
          [(ID_TIMELINE_CHANGES,
            PList (map (fun r => PList [PFloat (beg r); PFloat (end_ r); PFloat (multi r)]) cs))]
      end in
    Ok (json_object (config ++ rows)%list).

(** *** Containers and streams

    A source container is the list [source.streams]; the [index] of a stream
    is its position in that list.  Contexts and the destination container
    refer to a stream by its index. *)

Record codec_context : Type := { cc_name : string; cc_options : pyval }.

Record src_stream : Type := {
  s_type : string;
  s_codec_context : option codec_context;
  s_bit_rate : pyval;
  s_width : pyval;
  s_height : pyval;
  s_guessed_rate : option Q;
  s_pix_fmt : pyval;
  s_sample_rate : pyval;
  s_channels : pyval
}.

(** What the editor asks of a destination stream; a field it does not
    assign is [PNone] (or [None]). *)
Record dst_stream : Type := {
  d_codec_name : pyval;
  d_options : pyval;
  d_rate : pyval;
  d_codec_time_base : option Q;
  d_time_base : option Q;
  d_pix_fmt : pyval;
  d_bit_rate : pyval;
  d_width : pyval;
  d_height : pyval;
  d_channels : pyval;
  d_thread_type : option string
}.

Inductive EditCtx : Type :=
| VideoEditContext (src_stream dst_stream : nat) (max_fps : Q)
| AudioEditContext (src_stream dst_stream : nat).

Definition ctx_src (c : EditCtx) : nat :=
  match c with VideoEditContext s _ _ | AudioEditContext s _ => s end.

Definition ctx_dst (c : EditCtx) : nat :=
  match c with VideoEditContext _ d _ | AudioEditContext _ d => d end.

(** A packet of a container: the index of its stream, its [dts] (which
    may be [None]), its [time_base] and its payload. *)
Record packet : Type := {
  pk_stream : nat;
  pk_dts : option Z;
  pk_time_base : Q;
  pk_payload : N
}.

(** The classes of [speechless/edit_context.py] are used by the editor
    through their constructors and [seek_beginning], [prepare_for_editing],
    [is_done] and [decode_edit_encode].  Their implementation is an
    interface here: the private state of a context, and what each call
    makes of it. *)
Class EditContexts : Type := {
  ctx_state : Type;
  new_state : EditCtx -> ctx_state;
  seek_beginning : EditCtx -> ctx_state -> ctx_state;
  prepare_for_editing : EditCtx -> ctx_state -> list TimelineChange -> ctx_state * bool;
  is_done : EditCtx -> ctx_state -> bool;
  decode_edit_encode : EditCtx -> ctx_state -> packet -> ctx_state * list packet
}.

(** A context object: the attributes the editor reads and writes, and its
    private state. *)
Record ctx `{EditContexts} : Type := { attrs : EditCtx; priv : ctx_state }.

Definition construct `{EditContexts} (a : EditCtx) : ctx :=
  {| attrs := a; priv := new_state a |}.

(** The state of [prepare_destination]: the streams added to [dst], the
    [ctx_map], the source streams whose [thread_type] was set, and the
    variable [dst_stream]. *)
Record provision `{EditContexts} : Type := {
  p_dst : list dst_stream;
  p_ctx_map : list (nat * ctx);
  p_src_auto : list nat;
  p_dst_stream : option nat
}.

Definition enumerate {A} (l : list A) : list (nat * A) :=
  combine (seq 0 (length l)) l.

(** [settings.get(key, dflt)] *)
Definition get (st : stream_settings) (key : string) (dflt : pyval) : pyval :=
  default dflt (st !! key).

(** [a, b = v] *)
Definition unpack2 (v : pyval) : result (pyval * pyval) :=
  rbind (py_iter v) (fun l =>
    match l with
    | [a; b] => Ok (a, b)
    | _ => Err (Raised KValueError)
    end).

Definition set_thread_type (j : nat) (dst : list dst_stream) : list dst_stream :=
  alter (fun d =>
    {| d_codec_name := d_codec_name d; d_options := d_options d; d_rate := d_rate d;
       d_codec_time_base := d_codec_time_base d; d_time_base := d_time_base d;
       d_pix_fmt := d_pix_fmt d; d_bit_rate := d_bit_rate d; d_width := d_width d;
       d_height := d_height d; d_channels := d_channels d;
       d_thread_type := Some "AUTO" |}) j dst.

Section PrepareDestination.
Context `{Builtins} `{EditContexts}.
Variable self : editor.

(** The first loop of [prepare_destination]: keep or skip one stream. *)
Definition select_stream (st : nat * src_stream) (valid_streams : list (nat * src_stream))
  : M log (list (nat * src_stream)) :=
  let '(index, stream) := st in
  if str_in (s_type stream) SUPPORTED_STREAM_TYPES then
    match s_codec_context stream with
    | Some _ => ret (valid_streams ++ [(index, stream)])%list
    | None => emit (Warning (SkippingNoDecoder index));; ret valid_streams
    end
  else
    emit (Warning (SkippingNotSupported index (s_type stream)));; ret valid_streams.

(** The settings merged for one stream: those of its index over those of
    its type. *)
Definition merged_settings (index : nat) (type : string) : stream_settings :=
  default ∅ (settings self !! KInt (Z.of_nat index))
    ∪ default ∅ (settings self !! KStr type).

(** [Fraction(settings.get(ID_MAX_FPS, src_stream.guessed_rate))] *)
Definition resolve_max_fps (st : stream_settings) (guessed_rate : option Q) : result Q :=
  match st !! ID_MAX_FPS with
  | Some v => py_Fraction v
  | None =>
      match guessed_rate with
      | Some q => Ok q
      | None => Err (Raised KTypeError)
      end
  end.

(** The end of the body of [for src_stream in valid_streams]:
    [src_stream.thread_type = 'AUTO'], then the same for the stream the
    variable [dst_stream] holds. *)
Definition set_thread_types (index : nat) (p : provision) : result provision :=
  match p_dst_stream p with
  | None => Err (Raised KNameError)
  | Some j =>
      Ok {| p_dst := set_thread_type j (p_dst p); p_ctx_map := p_ctx_map p;
            p_src_auto := (p_src_auto p ++ [index])%list; p_dst_stream := Some j |}
  end.

(** The body of [for src_stream in valid_streams]. *)
Definition provision_stream (st : nat * src_stream) (p : provision) : result provision :=
  let '(index, src) := st in
  let settings := merged_settings index (s_type src) in
  let finish := set_thread_types index in
  if String.eqb (s_type src) ID_VIDEO_STREAM then
    match s_codec_context src with
    | None => Err (Raised KAttributeError)
    | Some cc =>
        let codec := get settings ID_CODEC (PStr (cc_name cc)) in
        let codec_options := get settings ID_CODEC_OPTIONS (cc_options cc) in
        let bitrate := get settings ID_BITRATE (s_bit_rate src) in
        let resolution := get settings ID_RESOLUTION (PList [s_width src; s_height src]) in
        rbind (resolve_max_fps settings (s_guessed_rate src)) (fun max_fps =>
        rbind (unpack2 resolution) (fun wh =>
        let j := length (p_dst p) in
        let dst_stream :=
          {| d_codec_name := codec; d_options := codec_options; d_rate := PNone;
             d_codec_time_base := Some (1 # 60000)%Q; d_time_base := Some (1 # 60000)%Q;
             d_pix_fmt := s_pix_fmt src; d_bit_rate := bitrate;
             d_width := fst wh; d_height := snd wh; d_channels := PNone;
             d_thread_type := None |} in
        finish {| p_dst := (p_dst p ++ [dst_stream])%list;
                  p_ctx_map :=
                    dict_set index (construct (VideoEditContext index j max_fps)) (p_ctx_map p);
                  p_src_auto := p_src_auto p; p_dst_stream := Some j |}))
    end
  else if String.eqb (s_type src) ID_AUDIO_STREAM then
    match s_codec_context src with
    | None => Err (Raised KAttributeError)
    | Some cc =>
        let codec := get settings ID_CODEC (PStr (cc_name cc)) in
        let codec_options := get settings ID_CODEC_OPTIONS (cc_options cc) in
        let bitrate := get settings ID_BITRATE (s_bit_rate src) in
        let sample_rate := get settings ID_SAMPLE_RATE (s_sample_rate src) in
        let channels :=
          if py_bool (get settings ID_MONO (PBool false)) then PInt 1 else s_channels src in
        let j := length (p_dst p) in
        let dst_stream :=
          {| d_codec_name := codec; d_options := codec_options; d_rate := sample_rate;
             d_codec_time_base := None; d_time_base := None;
             d_pix_fmt := PNone; d_bit_rate := bitrate;
             d_width := PNone; d_height := PNone; d_channels := channels;
             d_thread_type := None |} in
        finish {| p_dst := (p_dst p ++ [dst_stream])%list;
                  p_ctx_map := dict_set index (construct (AudioEditContext index j)) (p_ctx_map p);
                  p_src_auto := p_src_auto p; p_dst_stream := Some j |}
    end
  else finish p.

(** The body of the loop over the video contexts after
    [dst.start_encoding()]; [time_base j] is the time base of destination
    stream [j] once encoding has started. *)
Definition limit_max_fps (time_base : nat -> Q) (dst_stream : option nat)
  (ic : nat * ctx) : M log (nat * ctx) :=
  match attrs (snd ic) with
  | AudioEditContext _ _ => ret ic
  | VideoEditContext s d max_fps =>
      if Qeq_bool (time_base d) 0 then raise (Raised KZeroDivisionError)
      else
        let possible_fps := (1 / time_base d)%Q in
        if negb (Qle_bool max_fps possible_fps) then
          match dst_stream with
          | None => raise (Raised KNameError)
          | Some j =>
              emit (Warning (LowTimeBaseResolution j max_fps possible_fps));;
              ret (fst ic, {| attrs := VideoEditContext s d possible_fps; priv := priv (snd ic) |})
          end
        else ret ic
  end.

Definition empty_provision : provision :=
  {| p_dst := []; p_ctx_map := []; p_src_auto := []; p_dst_stream := None |}.

(** [Editor.prepare_destination] *)
Definition prepare_destination (source : list src_stream) (time_base : nat -> Q)
  : M log provision :=
  do valid_streams <- foldM select_stream (enumerate source) [];
  do p <- lift (rfold provision_stream valid_streams empty_provision);
  do ctx_map <- mapM (limit_max_fps time_base (p_dst_stream p)) (p_ctx_map p);
  ret {| p_dst := p_dst p; p_ctx_map := ctx_map;
         p_src_auto := p_src_auto p; p_dst_stream := p_dst_stream p |}.

End PrepareDestination.

(** *** [Editor.edit] *)

(** The source container as [edit] uses it: its streams;
    [first_packet i], the packet [next(source.demux(stream))] returns once
    stream [i] was sought to its beginning ([None]: nothing to return);
    [demux first streams], the packets [source.demux(streams)] yields after
    the contexts were probed and stream [first] was sought to its beginning. *)
Record source_container : Type := {
  streams : list src_stream;
  first_packet : nat -> option packet;
  demux : nat -> list nat -> list packet
}.

(** What [edit] does to the containers, the contexts and the logger:
    [DemuxFirst i pkt] is [next(source.demux(stream))] on stream [i] with
    what it returned, [PrepareForEditing i valid] the call of
    [prepare_for_editing] on the context of key [i] with what it returned,
    [Demux pkt] a packet drawn from [source.demux(streams)] by the loop. *)
Inductive event : Type :=
| Log (l : log)
| OpenSource (src_path : string)
| OpenDest (dst_path : string)
| SeekBeginning (index : nat)
| DemuxFirst (index : nat) (first_pkt : option packet)
| PrepareForEditing (index : nat) (valid : bool)
| Demux (src_packet : packet)
| DecodeEditEncode (index : nat) (src_packet : packet)
| Mux (dst_packet : packet)
| Flush (dst_stream : nat)
| CloseDest
| CloseSource.

(** [sorted(items, key=lambda kv: kv[1])]: a stable sort by the second
    component. *)
Fixpoint insert_by_snd {K} (x : K * Q) (l : list (K * Q)) : list (K * Q) :=
  match l with
  | [] => [x]
  | y :: l' => if Qle_bool (snd x) (snd y) then x :: l else y :: insert_by_snd x l'
  end.

Definition sorted_by_snd {K} (l : list (K * Q)) : list (K * Q) :=
  fold_right insert_by_snd [] l.

Section Edit.
Context `{Builtins} `{EditContexts}.
Variable self : editor.

(** The body of the loop that reads the first packet of each context. *)
Definition probe (source : source_container) (ic : nat * ctx)
  (acc : list (nat * ctx) * list (nat * Q)) : M event (list (nat * ctx) * list (nat * Q)) :=
  let '(idx, c) := ic in
  let '(ctx_map, first_pkts) := acc in
  emit (SeekBeginning idx);;
  let c := {| attrs := attrs c; priv := seek_beginning (attrs c) (priv c) |} in
  emit (DemuxFirst (ctx_src (attrs c)) (first_packet source (ctx_src (attrs c))));;
  match first_packet source (ctx_src (attrs c)) with
  | None => raise (Raised KStopIteration)
  | Some first_pkt =>
      match pk_dts first_pkt with
      | None => raise (Raised KTypeError)
      | Some dts =>
          ret (dict_set idx c ctx_map,
               dict_set idx (inject_Z dts * pk_time_base first_pkt)%Q first_pkts)
      end
  end.

(** The body of the loop that prepares the contexts for editing. *)
Definition prime (changes : list TimelineChange) (ic : nat * ctx)
  (acc : list (nat * ctx) * list (nat * nat)) : M event (list (nat * ctx) * list (nat * nat)) :=
  let '(idx, c) := ic in
  let '(ctx_map, valid_streams) := acc in
  let '(st, valid) := prepare_for_editing (attrs c) (priv c) changes in
  emit (PrepareForEditing idx valid);;
  let c := {| attrs := attrs c; priv := st |} in
  ret (dict_set idx c ctx_map,
       if valid then dict_set idx (ctx_src (attrs c)) valid_streams else valid_streams).

Definition all_done (ctx_map : list (nat * ctx)) : bool :=
  forallb (fun ic => is_done (attrs (snd ic)) (priv (snd ic))) ctx_map.

(** [for src_packet in source.demux(...)]: the loop over the packets. *)
Fixpoint edit_loop (packets : list packet) (ctx_map : list (nat * ctx))
  : M event (list (nat * ctx)) :=
  match packets with
  | [] => ret ctx_map
  | src_packet :: rest =>
      emit (Demux src_packet);;
      match dict_get (pk_stream src_packet) ctx_map with
      | None => raise (Raised KKeyError)
      | Some c =>
          if is_done (attrs c) (priv c) then edit_loop rest ctx_map
          else
            emit (DecodeEditEncode (pk_stream src_packet) src_packet);;
            let '(st, dst_packets) := decode_edit_encode (attrs c) (priv c) src_packet in
            foldM (fun dst_packet _ => emit (Mux dst_packet)) dst_packets tt;;
            let ctx_map := dict_set (pk_stream src_packet)
                                    {| attrs := attrs c; priv := st |} ctx_map in
            if all_done ctx_map then ret ctx_map else edit_loop rest ctx_map
      end
  end.

(** The [if len(valid_streams) > 0: ... else: ...] of [edit]. *)
Definition edit_valid_streams (source : source_container) (dest : list dst_stream)
  (ctx_map : list (nat * ctx)) (streams_ordered : list nat)
  (valid_streams : list (nat * nat)) (src_path : string) : M event unit :=
  if (0 <? length valid_streams)%nat then
    do first_ctx <- lift (py_index
      (filter (fun idx => bool_decide (is_Some (dict_get idx valid_streams))) streams_ordered) 0);
    match dict_get first_ctx ctx_map with
    | None => raise (Raised KKeyError)
    | Some c =>
        emit (SeekBeginning first_ctx);;
        let ctx_map :=
          dict_set first_ctx
            {| attrs := attrs c; priv := seek_beginning (attrs c) (priv c) |} ctx_map in
        do _ <- edit_loop (demux source first_ctx (map snd valid_streams)) ctx_map;
        foldM (fun j _ => emit (Flush j)) (seq 0 (length dest)) tt
    end
  else emit (Log (Warning (EmptyRecording src_path))).

(** [Editor.edit]; [time_base] as in [prepare_destination], [resolve] is
    [Path.resolve]. *)
Definition edit (source : source_container) (time_base : nat -> Q)
  (resolve : string -> string)
  (src_path : string) (changes : list TimelineChange) (dst_path : string)
  : M event unit :=
  emit (Log (Info (StartedEditing src_path)));;
  let src_path := resolve src_path in
  let dst_path := resolve dst_path in
  emit (OpenSource src_path);;
  emit (OpenDest dst_path);;
  do p <- relabel Log (prepare_destination self (streams source) time_base);
  let ctx_map := p_ctx_map p in
  do probed <- foldM (probe source) ctx_map (ctx_map, []);
  let '(ctx_map, first_pkts) := probed in
  let streams_ordered := map fst (sorted_by_snd first_pkts) in
  do primed <- foldM (prime changes) ctx_map (ctx_map, []);
  let '(ctx_map, valid_streams) := primed in
  edit_valid_streams source (p_dst p) ctx_map streams_ordered valid_streams src_path;;
  emit (Log (Info (FinishedEditing src_path dst_path)));;
  emit CloseDest;;
  emit CloseSource.

End Edit.

(** Stand-ins for the text conversions, for documents whose numbers are
    written as numbers: no text converts, and [repr] is not consulted. *)
Definition no_text : Builtins :=
  {| int_of_str := fun _ => None;
     float_of_str := fun _ => None;
     fraction_of_str := fun _ => None;
     repr := fun _ => "" |}.

(** Modelled from the spec: the implementation of the stream edit contexts
    ([speechless/edit_context.py]), which is not among the sources.  The
    specification (4.2) has [primeForEditing] return false and leave the
    context inert when nothing is to be edited, and [done] become true in
    [decodeEditEncode], when the stream is exhausted.  Here [active i] says
    whether the context of source stream [i] has something to edit, and
    [frames i] how many packets it edits before it is done; each packet
    edited yields one packet for the destination stream. *)
Definition scripted (active : nat -> bool) (frames : nat -> nat) : EditContexts :=
  {| ctx_state := bool * nat;
     new_state := fun a => (false, frames (ctx_src a));
     seek_beginning := fun _ st => st;
     prepare_for_editing := fun a st _ => (st, active (ctx_src a));
     is_done := fun _ st => fst st;
     decode_edit_encode := fun a st src_packet =>
       match snd st with
       | O => ((true, O), [])
       | S n =>
           ((Nat.eqb n 0, n),
            [{| pk_stream := ctx_dst a; pk_dts := pk_dts src_packet;
                pk_time_base := pk_time_base src_packet;
                pk_payload := pk_payload src_packet |}])
       end |}.

End Editor.

(** ** Sample recordings and settings *)

Module Samples.
Import Py Editor.

Definition video_stream : src_stream :=
  {| s_type := "video";
     s_codec_context := Some {| cc_name := "h264"; cc_options := PDict [] |};
     s_bit_rate := PInt 1000000; s_width := PInt 640; s_height := PInt 480;
     s_guessed_rate := Some (30 # 1)%Q; s_pix_fmt := PStr "yuv420p";
     s_sample_rate := PNone; s_channels := PNone |}.

Definition audio_stream : src_stream :=
  {| s_type := "audio";
     s_codec_context := Some {| cc_name := "aac"; cc_options := PDict [] |};
     s_bit_rate := PInt 128000; s_width := PNone; s_height := PNone;
     s_guessed_rate := None; s_pix_fmt := PNone;
     s_sample_rate := PInt 44100; s_channels := PInt 2 |}.

Definition subtitle_stream : src_stream :=
  {| s_type := "subtitle"; s_codec_context := None;
     s_bit_rate := PNone; s_width := PNone; s_height := PNone;
     s_guessed_rate := None; s_pix_fmt := PNone;
     s_sample_rate := PNone; s_channels := PNone |}.

(** A video, a subtitle and an audio stream, in this order. *)
Definition recording : list src_stream := [video_stream; subtitle_stream; audio_stream].

(** Settings for all video streams, for all audio streams, and for the
    stream of index 2. *)
Definition sample_editor : editor :=
  {| settings :=
       <[KInt 2 := {[ ID_MONO := PBool true ]}]>
         (settings (init (Some {[ ID_MAX_FPS := PFloat 120%float; ID_BITRATE := PInt 500000 ]})
                         (Some {[ ID_BITRATE := PInt 64000; ID_MONO := PBool false ]}))) |}.

(** A settings document: video settings under a capitalised key, settings
    for the stream of index 2, an interval list and a key that is not
    recognised. *)
Definition document : list (string * pyval) :=
  [("Video", PDict [(ID_BITRATE, PInt 500000); (ID_MAX_FPS, PInt 30);
                    (ID_CODEC_OPTIONS, PDict [("crf", PInt 23)])]);
   ("2", PDict [(ID_MONO, PInt 1)]);
   (ID_TIMELINE_CHANGES, PList [PList [PInt 0; PInt 3; PInt 1]]);
   ("chapters", PNone)].

Definition changes : list TimelineChange :=
  [{| beg := 0; end_ := 3; multi := 1 |}; {| beg := 3; end_ := 6; multi := 0 |}].

(** [repr] of the integers the document holds; no text is read as a
    number. *)
Definition sample_builtins : Builtins :=
  {| int_of_str := fun _ => None;
     float_of_str := fun _ => None;
     fraction_of_str := fun _ => None;
     repr := fun v => match v with PInt z => str_of_Z z | _ => "" end |}.

(** Contexts that all have something to edit, three packets each. *)
Definition all_active : EditContexts := scripted (fun _ => true) (fun _ => 3%nat).

(** A destination whose streams get a time base of 1/100. *)
Definition coarse_time_base : nat -> Q := fun _ => (1 # 100)%Q.

(** Contexts of which only that of the video stream (index 0) has something
    to edit, two packets; the context of the audio stream is left inert. *)
Definition video_only : EditContexts := scripted (fun i => Nat.eqb i 0) (fun _ => 2%nat).

(** Contexts that all have something to edit, two packets each. *)
Definition two_packets_each : EditContexts := scripted (fun _ => true) (fun _ => 2%nat).

(** Contexts that have nothing to edit. *)
Definition all_inert : EditContexts := scripted (fun _ => false) (fun _ => 2%nat).

(** Packets with a time base of 1/1000: the audio stream (index 2) starts
    at 0 ms, the video stream (index 0) at 40 ms. *)
Definition pkt (stream : nat) (dts : Z) (payload : N) : packet :=
  {| pk_stream := stream; pk_dts := Some dts; pk_time_base := (1 # 1000)%Q;
     pk_payload := payload |}.

Definition interleaved : list packet :=
  [pkt 2 0 1; pkt 0 40 2; pkt 2 20 3; pkt 0 80 4;
   pkt 2 40 5; pkt 0 120 6; pkt 2 60 7; pkt 0 160 8].

(** The recording as a container: the first packet of a stream is its first
    packet above, and demultiplexing yields the packets of the streams asked
    for. *)
Definition container : source_container :=
  {| streams := recording;
     first_packet := fun i => find (fun p => Nat.eqb (pk_stream p) i) interleaved;
     demux := fun _ l =>
       List.filter (fun p => existsb (Nat.eqb (pk_stream p)) l) interleaved |}.


End Samples.

(** ** The segmentation of a transcript: [speechless/processing/tokenization.py] *)

Module Tokenization.
Import Py.

Definition TOKEN_SEPARATOR : string := " ".
Definition SENTENCE_SEPARATOR : string := ".".
Definition SENTENCE_SEPARATOR_ALTERNATIVES : list string := [","].

(** [len(s)], [s.endswith(suffix)], [s[:-n]] and [s[-n:]] for [n > 0]. *)
Definition len (s : string) : Z := Z.of_nat (String.length s).

Definition endswith (s suffix : string) : bool :=
  let n := String.length s in
  let m := String.length suffix in
  (m <=? n)%nat && String.eqb (substring (n - m) m s) suffix.

Definition drop_last (n : nat) (s : string) : string :=
  substring 0 (String.length s - n) s.

Definition last_chars (n : nat) (s : string) : string :=
  substring (String.length s - n) n s.

(** An [EditToken]; [start_pos], [index] and [label] are [None] until
    assigned. *)
Record EditToken : Type := {
  text : string;
  start_time : float;
  end_time : float;
  start_pos : option Z;
  index : option nat;
  label : option string
}.

Definition set_text (s : string) (t : EditToken) : EditToken :=
  {| text := s; start_time := start_time t; end_time := end_time t;
     start_pos := start_pos t; index := index t; label := label t |}.

Definition set_start_pos (p : Z) (t : EditToken) : EditToken :=
  {| text := text t; start_time := start_time t; end_time := end_time t;
     start_pos := Some p; index := index t; label := label t |}.

Definition set_index (i : nat) (t : EditToken) : EditToken :=
  {| text := text t; start_time := start_time t; end_time := end_time t;
     start_pos := start_pos t; index := Some i; label := label t |}.

(** A sentence of the spaCy document: [start_char] and [end_char]. *)
Record Span : Type := { start_char : Z; end_char : Z }.

(** [transcript[0].start_pos = 0] *)
Definition set_first_start_pos (transcript : list EditToken) : result (list EditToken) :=
  match transcript with
  | [] => Err (Raised KIndexError)
  | token :: rest => Ok (set_start_pos 0 token :: rest)
  end.

(** [for token, next_token in zip(transcript[:-1], transcript[1:])], on
    the transcript [token :: rest]. *)
Fixpoint add_token_separators (token : EditToken) (rest : list EditToken)
  : result (list EditToken) :=
  match rest with
  | [] => Ok [token]
  | next_token :: rest' =>
      let token := set_text (text token ++ TOKEN_SEPARATOR) token in
      match start_pos token with
      | None => Err (Raised KTypeError)
      | Some pos =>
          let next_token := set_start_pos (pos + len (text token)) next_token in
          rbind (add_token_separators next_token rest') (fun l => Ok (token :: l))
      end
  end.

(** [for idx, token in enumerate(transcript): token.index = idx] *)
Definition assign_indices (transcript : list EditToken) : list EditToken :=
  imap set_index transcript.

(** [''.join([token.text for token in transcript])] *)
Definition raw_transcript (transcript : list EditToken) : string :=
  String.concat "" (map text transcript).

(** [token.start_pos < sent.end_char] *)
Definition starts_before (sent : Span) (token : EditToken) : result bool :=
  match start_pos token with
  | Some p => Ok (p <? end_char sent)
  | None => Err (Raised KTypeError)
  end.

(** The [while] loop that gives the sentence [sent] the tokens from
    [token_idx] on that start inside it; returns them and the others. *)
Fixpoint take_tokens (sent : Span) (tokens : list EditToken)
  : result (list EditToken * list EditToken) :=
  match tokens with
  | [] => Ok ([], [])
  | token :: rest =>
      rbind (starts_before sent token) (fun b =>
        if b then rbind (take_tokens sent rest) (fun tr => Ok (token :: fst tr, snd tr))
        else Ok ([], tokens))
  end.

(** [for sent in nlp_sents]: [tokens] are [transcript[token_idx:]]. *)
Fixpoint assign_tokens (nlp_sents : list Span) (tokens : list EditToken)
  (sentences : list (list EditToken)) : result (list (list EditToken)) :=
  match nlp_sents with
  | [] => Ok sentences
  | sent :: nlp_sents' =>
      rbind (take_tokens sent tokens) (fun tr =>
        assign_tokens nlp_sents' (snd tr)
          (match fst tr with
           | [] => sentences
           | _ => sentences ++ [fst tr]
           end)%list)
  end.

(** [(token.start_time - prev_token.end_time) > 3.0] *)
Definition long_pause (prev_token token : EditToken) : bool :=
  PrimFloat.ltb 3%float (PrimFloat.sub (start_time token) (end_time prev_token)).

(** The [prev_token_idx] at which the [for] loop over the pairs of a
    sentence breaks, if it does. *)
Fixpoint first_pause (sent : list EditToken) : option nat :=
  match sent with
  | prev_token :: (token :: _) as rest =>
      if long_pause prev_token token then Some 0%nat else S <$> first_pause rest
  | _ => None
  end.

Lemma first_pause_lt sent k : first_pause sent = Some k -> (S k < length sent)%nat.
Proof.
  revert k. induction sent as [|a [|b s] IH]; intros k Hk; try discriminate.
  change (first_pause (a :: b :: s)) with
    (if long_pause a b then Some 0%nat else S <$> first_pause (b :: s)) in Hk.
  destruct (long_pause a b); [injection Hk as <-; simpl; lia|].
  apply fmap_Some in Hk as (k' & Hk' & ->). apply IH in Hk'. simpl in *. lia.
Qed.

Definition inspect {A} (a : A) : {b | a = b} := exist _ a eq_refl.

Definition work (sentences : list (list EditToken)) : nat :=
  length (concat sentences) + length sentences.

(** [while sent_idx < len(sentences)]: [sentences] are
    [sentences[sent_idx:]]; a sentence cut at a pause leaves its second
    part at [sent_idx + 1], where the loop finds it next. *)
Equations? segment_by_time (sentences : list (list EditToken))
  : list (list EditToken) by wf (work sentences) lt :=
segment_by_time [] := [];
segment_by_time (sent :: rest) with inspect (first_pause sent) := {
  | exist _ (Some prev_token_idx) Hk =>
      let token_idx := S prev_token_idx in
      take token_idx sent :: segment_by_time (drop token_idx sent :: rest)
  | exist _ None Hk => sent :: segment_by_time rest }.
Proof.
  - apply first_pause_lt in Hk. unfold work. cbn [concat length].
    rewrite !length_app, length_drop. lia.
  - unfold work. cbn [concat length]. rewrite length_app. lia.
Qed.

(** The [for alternative in SENTENCE_SEPARATOR_ALTERNATIVES] loop on the
    text of [sent[-1]]. *)
Fixpoint replace_alternative (alternatives : list string) (txt : string) (pos_diff : Z)
  : string * Z :=
  match alternatives with
  | [] => (txt, pos_diff)
  | alternative :: alternatives' =>
      let alternative := alternative ++ TOKEN_SEPARATOR in
      if endswith txt alternative then
        (drop_last (String.length alternative) txt ++ SENTENCE_SEPARATOR,
         pos_diff + (len SENTENCE_SEPARATOR - len alternative))
      else replace_alternative alternatives' txt pos_diff
  end.

(** [token.start_pos += pos_diff] *)
Definition shift_start_pos (pos_diff : Z) (token : EditToken) : result EditToken :=
  match start_pos token with
  | Some p => Ok (set_start_pos (p + pos_diff) token)
  | None => Err (Raised KTypeError)
  end.

(** The body of [for sent, next_sent in zip(sentences[:-1], sentences[1:])]:
    the two sentences and [pos_diff] afterwards. *)
Definition separate_sentences (pos_diff : Z) (sent next_sent : list EditToken)
  : result (list EditToken * list EditToken * Z) :=
  match last sent with
  | None => Err (Raised KIndexError)
  | Some token =>
      if negb (String.eqb (last_chars (String.length SENTENCE_SEPARATOR) (text token))
                          SENTENCE_SEPARATOR) then
        let '(txt, pos_diff) :=
          replace_alternative SENTENCE_SEPARATOR_ALTERNATIVES (text token) pos_diff in
        rbind
          (if endswith txt (SENTENCE_SEPARATOR ++ TOKEN_SEPARATOR) then
             Ok (drop_last (String.length TOKEN_SEPARATOR) txt, pos_diff - len TOKEN_SEPARATOR)
           else if endswith txt TOKEN_SEPARATOR then
             Ok (drop_last (String.length TOKEN_SEPARATOR) txt ++ SENTENCE_SEPARATOR,
                 pos_diff + (len SENTENCE_SEPARATOR - len TOKEN_SEPARATOR))
           else if endswith txt SENTENCE_SEPARATOR then Ok (txt, pos_diff)
           else Err (Raised KAssertionError))
          (fun tp =>
             rbind (rmapM (shift_start_pos (snd tp)) next_sent) (fun next_sent =>
               Ok (removelast sent ++ [set_text (fst tp) token], next_sent, snd tp)%list))
      else Ok (sent, next_sent, pos_diff)
  end.

(** The loop over the pairs of consecutive sentences, on the sentences
    [sent :: rest]. *)
Fixpoint add_sentence_separators (pos_diff : Z) (sent : list EditToken)
  (rest : list (list EditToken)) : result (list (list EditToken)) :=
  match rest with
  | [] => Ok [sent]
  | next_sent :: rest' =>
      rbind (separate_sentences pos_diff sent next_sent) (fun r =>
        let '(sent, next_sent, pos_diff) := r in
        rbind (add_sentence_separators pos_diff next_sent rest') (fun l => Ok (sent :: l)))
  end.

(** [sentence_segmentation]; [spacy_sents raw] are the sentences
    [list(spacy_nlp(raw).sents)] of the document spaCy makes of [raw]. *)
Definition sentence_segmentation (spacy_sents : string -> list Span)
  (transcript : list EditToken) : result (list (list EditToken)) :=
  rbind (set_first_start_pos transcript) (fun transcript =>
  rbind (match transcript with
         | [] => Ok []
         | token :: rest => add_token_separators token rest
         end) (fun transcript =>
  let transcript := assign_indices transcript in
  let nlp_sents := spacy_sents (raw_transcript transcript) in
  rbind (py_index nlp_sents 0) (fun first =>
  if negb (start_char first =? 0) then Err (Raised KAssertionError)
  else
    rbind (assign_tokens nlp_sents transcript []) (fun sentences =>
    match segment_by_time sentences with
    | [] => Ok []
    | sent :: rest => add_sentence_separators 0 sent rest
    end)))).

End Tokenization.

(** A transcript of two tokens, the second of them a sound that the
    normalization of [EditToken] reduces to the empty text, and a
    segmentation that makes one sentence of the whole document. *)
Module Transcripts.
Import Tokenization.

Definition hello : EditToken :=
  {| text := "hello"; start_time := 0; end_time := 1;
     start_pos := None; index := None; label := None |}.

Definition noise : EditToken :=
  {| text := ""; start_time := 1; end_time := 2;
     start_pos := None; index := None; label := None |}.

Definition whole_document (raw : string) : list Span :=
  [ {| start_char := 0; end_char := len raw |} ].

End Transcripts.

(** * Properties *)

Import Py Eff Editor.

(** ** Reasoning about computations that log and raise *)

Lemma bind_Ok {E A B} (m : M E A) (f : A -> M E B) evs b :
  Eff.bind m f = (evs, Ok b) ->
  exists l1 a l2, m = (l1, Ok a) /\ f a = (l2, Ok b) /\ evs = (l1 ++ l2)%list.
Proof.
  destruct m as [l1 [a|e]]; simpl; [|discriminate].
  destruct (f a) as [l2 r] eqn:Hf. intros [= <- ->]. eauto 6.
Qed.

Lemma rbind_Ok {A B} (r : result A) (f : A -> result B) b :
  rbind r f = Ok b -> exists a, r = Ok a /\ f a = Ok b.
Proof. destruct r; simpl; [eauto | discriminate]. Qed.

Lemma lift_Ok {E A} (r : result A) evs a :
  @lift E A r = (evs, Ok a) -> r = Ok a /\ evs = [].
Proof. unfold lift. intros [= <- ->]. auto. Qed.

Lemma ret_Ok {E A} (a b : A) evs : @ret E A a = (evs, Ok b) -> a = b /\ evs = [].
Proof. unfold ret. intros [= <- ->]. auto. Qed.

Lemma elem_of_dict_set {K V} `{EqDecision K} (k k' : K) (v v' : V) d :
  (k', v') ∈ dict_set k v d -> (k', v') = (k, v) \/ (k', v') ∈ d.
Proof.
  induction d as [|[k0 v0] d IH]; simpl.
  - intros ->%list_elem_of_singleton. auto.
  - destruct (decide (k = k0)) as [->|Hne].
    + intros [->|Hin]%elem_of_cons; [auto|]. right. by apply elem_of_cons; right.
    + intros [->|Hin]%elem_of_cons; [right; by left|].
      destruct (IH Hin); [auto|]. right. by apply elem_of_cons; right.
Qed.

Lemma dict_get_cons {K V} `{EqDecision K} (k k0 : K) (v0 : V) d :
  dict_get k ((k0, v0) :: d) = if decide (k0 = k) then Some v0 else dict_get k d.
Proof.
  unfold dict_get. simpl. destruct (decide (k0 = k)) as [->|Hne].
  - by rewrite bool_decide_true.
  - by rewrite bool_decide_false.
Qed.

Lemma dict_get_set {K V} `{EqDecision K} (k k' : K) (v : V) d :
  dict_get k' (dict_set k v d) = if decide (k = k') then Some v else dict_get k' d.
Proof.
  induction d as [|[k0 v0] d IH]; simpl.
  - rewrite dict_get_cons. by destruct (decide (k = k')).
  - destruct (decide (k = k0)) as [->|Hne]; rewrite !dict_get_cons.
    + by destruct (decide (k0 = k')).
    + rewrite IH. destruct (decide (k0 = k')) as [->|?]; [|done].
      by destruct (decide (k = k')).
Qed.

Lemma dict_get_elem_of {K V} `{EqDecision K} (k : K) (v : V) d :
  dict_get k d = Some v -> (k, v) ∈ d.
Proof.
  induction d as [|[k0 v0] d IH]; [done|]. rewrite dict_get_cons.
  destruct (decide (k0 = k)) as [->|Hne].
  - intros [= ->]. by left.
  - intros Hd. right. auto.
Qed.

Lemma dict_get_is_Some {K V} `{EqDecision K} (k : K) (d : list (K * V)) :
  is_Some (dict_get k d) <-> k ∈ map fst d.
Proof.
  induction d as [|[k0 v0] d IH]; simpl.
  - split; [by intros [? ?] | by intros ?%elem_of_nil].
  - rewrite dict_get_cons, elem_of_cons. destruct (decide (k0 = k)) as [->|Hne].
    + split; eauto.
    + rewrite IH. split; [auto | by intros [->|?]].
Qed.

(** ** Precedence of the settings (prepare_destination) *)

(** The precedence as the specification words it: the value of [key] in the
    settings of the stream index when present there, otherwise the value in
    the settings of the stream type when present there. *)
Definition by_precedence (self : editor) (index : nat) (type key : string) : option pyval :=
  match default ∅ (settings self !! KInt (Z.of_nat index)) !! key with
  | Some v => Some v
  | None => default ∅ (settings self !! KStr type) !! key
  end.

(** ... otherwise the value of the source stream. *)
Definition resolved (self : editor) (index : nat) (type key : string)
  (source_value : pyval) : pyval :=
  default source_value (by_precedence self index type key).

(** The maximum frame rate by the same precedence, as a fraction. *)
Definition resolved_max_fps `{Builtins} (self : editor) (index : nat) (src : src_stream)
  : result Q :=
  match by_precedence self index (s_type src) ID_MAX_FPS with
  | Some v => py_Fraction v
  | None =>
      match s_guessed_rate src with
      | Some q => Ok q
      | None => Err (Raised KTypeError)
      end
  end.

(** What [prepare_destination] asked of destination stream [d] and gave
    context [a] for the source stream [src] of index [index], by the
    precedence above; [limit] is what the time base does to [max_fps]. *)
Definition configured_by_precedence `{Builtins} (self : editor) (limit : nat -> Q -> Q)
  (index : nat) (src : src_stream) (d : dst_stream) (a : EditCtx) : Prop :=
  exists cc,
    s_codec_context src = Some cc /\
    ctx_src a = index /\
    d_codec_name d = resolved self index (s_type src) ID_CODEC (PStr (cc_name cc)) /\
    d_options d = resolved self index (s_type src) ID_CODEC_OPTIONS (cc_options cc) /\
    d_bit_rate d = resolved self index (s_type src) ID_BITRATE (s_bit_rate src) /\
    match a with
    | VideoEditContext _ j max_fps =>
        s_type src = ID_VIDEO_STREAM /\
        unpack2 (resolved self index (s_type src) ID_RESOLUTION
                   (PList [s_width src; s_height src])) = Ok (d_width d, d_height d) /\
        exists fps, resolved_max_fps self index src = Ok fps /\ max_fps = limit j fps
    | AudioEditContext _ _ =>
        s_type src = ID_AUDIO_STREAM /\
        d_rate d = resolved self index (s_type src) ID_SAMPLE_RATE (s_sample_rate src) /\
        d_channels d =
          if py_bool (resolved self index (s_type src) ID_MONO (PBool false))
          then PInt 1 else s_channels src
    end.

(** [max_fps] after the loop over the video contexts. *)
Definition limited (time_base : nat -> Q) (j : nat) (max_fps : Q) : Q :=
  if Qle_bool max_fps (1 / time_base j) then max_fps else (1 / time_base j)%Q.

Section Precedence.
Context `{Builtins} `{EditContexts}.
Variable self : editor.

Lemma get_merged index type key dflt :
  get (merged_settings self index type) key dflt = resolved self index type key dflt.
Proof.
  unfold get, merged_settings, resolved, by_precedence.
  rewrite lookup_union.
  destruct (default ∅ (settings self !! KInt (Z.of_nat index)) !! key) as [v|];
    destruct (default ∅ (settings self !! KStr type) !! key) as [w|]; reflexivity.
Qed.

Lemma resolve_max_fps_merged index src :
  resolve_max_fps (merged_settings self index (s_type src)) (s_guessed_rate src)
  = resolved_max_fps self index src.
Proof.
  unfold resolve_max_fps, merged_settings, resolved_max_fps, by_precedence.
  rewrite lookup_union.
  destruct (default ∅ (settings self !! KInt (Z.of_nat index)) !! ID_MAX_FPS) as [v|];
    destruct (default ∅ (settings self !! KStr (s_type src)) !! ID_MAX_FPS) as [w|];
    reflexivity.
Qed.

(** Every entry of the [ctx_map] has its destination stream in [dst],
    configured by precedence from a stream of [l]. *)
Definition provisioned_from (limit : nat -> Q -> Q) (l : list (nat * src_stream))
  (dst : list dst_stream) (ctx_map : list (nat * ctx)) : Prop :=
  forall index c, (index, c) ∈ ctx_map ->
    exists src d, (index, src) ∈ l /\ dst !! ctx_dst (attrs c) = Some d /\
      configured_by_precedence self limit index src d (attrs c).

Lemma configured_thread_type limit index src d a :
  configured_by_precedence self limit index src d a ->
  configured_by_precedence self limit index src
    {| d_codec_name := d_codec_name d; d_options := d_options d; d_rate := d_rate d;
       d_codec_time_base := d_codec_time_base d; d_time_base := d_time_base d;
       d_pix_fmt := d_pix_fmt d; d_bit_rate := d_bit_rate d; d_width := d_width d;
       d_height := d_height d; d_channels := d_channels d;
       d_thread_type := Some "AUTO" |} a.
Proof. intros (cc & ?); exists cc. destruct a; simpl in *; intuition. Qed.

Lemma provisioned_set_thread_type limit l dst ctx_map j :
  provisioned_from limit l dst ctx_map ->
  provisioned_from limit l (set_thread_type j dst) ctx_map.
Proof.
  intros Hp index c Hin. destruct (Hp index c Hin) as (src & d & Hl & Hd & Hc).
  unfold set_thread_type.
  destruct (decide (j = ctx_dst (attrs c))) as [->|Hne].
  - eexists src, _. split; [done|]. split.
    + rewrite list_lookup_alter_eq, Hd. reflexivity.
    + by apply configured_thread_type.
  - exists src, d. rewrite list_lookup_alter_ne by done. auto.
Qed.

Lemma provisioned_app limit l dst ctx_map d :
  provisioned_from limit l dst ctx_map ->
  provisioned_from limit l (dst ++ [d])%list ctx_map.
Proof.
  intros Hp index c Hin. destruct (Hp index c Hin) as (src & d' & Hl & Hd & Hc).
  exists src, d'. split; [done|]. split; [|done].
  apply lookup_app_l_Some. done.
Qed.

Lemma provisioned_mono limit l l' dst ctx_map :
  (forall x, x ∈ l -> x ∈ l') ->
  provisioned_from limit l dst ctx_map -> provisioned_from limit l' dst ctx_map.
Proof.
  intros Hsub Hp index c Hin. destruct (Hp index c Hin) as (src & d & Hl & Hd & Hc).
  exists src, d. auto.
Qed.

(** One pass of the provisioning loop keeps the invariant. *)
Lemma provision_stream_provisioned l index src p p' :
  (index, src) ∈ l ->
  provisioned_from (fun _ q => q) l (p_dst p) (p_ctx_map p) ->
  provision_stream self (index, src) p = Ok p' ->
  provisioned_from (fun _ q => q) l (p_dst p') (p_ctx_map p').
Proof.
  intros Hl Hp. unfold provision_stream.
  assert (Hfinish : forall p0 p1, set_thread_types index p0 = Ok p1 ->
            provisioned_from (fun _ q => q) l (p_dst p0) (p_ctx_map p0) ->
            provisioned_from (fun _ q => q) l (p_dst p1) (p_ctx_map p1)).
  { intros p0 p1. unfold set_thread_types.
    destruct (p_dst_stream p0) as [j|]; [|discriminate].
    intros [= <-]. simpl. apply provisioned_set_thread_type. }
  destruct (String.eqb (s_type src) ID_VIDEO_STREAM) eqn:Hv.
  - apply String.eqb_eq in Hv.
    destruct (s_codec_context src) as [cc|] eqn:Hcc; [|discriminate].
    intros (max_fps & Hfps & Hrest)%rbind_Ok.
    apply rbind_Ok in Hrest as ([w h] & Hwh & Hfin).
    apply Hfinish in Hfin; [done|]. simpl.
    intros index' c' [[= -> ->]|Hin]%elem_of_dict_set.
    + eexists src, _. split; [done|]. split.
      * simpl. apply list_lookup_middle. reflexivity.
      * exists cc. simpl. rewrite !get_merged in *. rewrite resolve_max_fps_merged in Hfps.
        repeat split; try done. eauto.
    + by apply (provisioned_app _ _ _ _ _ Hp).
  - destruct (String.eqb (s_type src) ID_AUDIO_STREAM) eqn:Ha.
    + apply String.eqb_eq in Ha.
      destruct (s_codec_context src) as [cc|] eqn:Hcc; [|discriminate].
      intros Hfin. apply Hfinish in Hfin; [done|]. simpl.
      intros index' c' [[= -> ->]|Hin]%elem_of_dict_set.
      * eexists src, _. split; [done|]. split.
        -- simpl. apply list_lookup_middle. reflexivity.
        -- exists cc. simpl. rewrite !get_merged. repeat split; done.
      * by apply (provisioned_app _ _ _ _ _ Hp).
    + intros Hfin. by apply Hfinish in Hfin.
Qed.

Lemma rfold_provision_provisioned l valid p p' :
  (forall x, x ∈ valid -> x ∈ l) ->
  provisioned_from (fun _ q => q) l (p_dst p) (p_ctx_map p) ->
  rfold (provision_stream self) valid p = Ok p' ->
  provisioned_from (fun _ q => q) l (p_dst p') (p_ctx_map p').
Proof.
  revert p. induction valid as [|[index src] valid IH]; intros p Hsub Hp; simpl.
  - by intros [= <-].
  - intros (p1 & H1 & Hrest)%rbind_Ok.
    eapply IH; [| |exact Hrest].
    + intros x Hx. apply Hsub. by right.
    + eapply provision_stream_provisioned; [|done|done]. apply Hsub. by left.
Qed.

(** The first loop: the eligible streams are kept in order, and one
    warning is logged per stream skipped. *)
Definition eligible (st : nat * src_stream) : bool :=
  str_in (s_type (snd st)) SUPPORTED_STREAM_TYPES
  && bool_decide (is_Some (s_codec_context (snd st))).

Definition skip_warning (st : nat * src_stream) : option log :=
  if str_in (s_type (snd st)) SUPPORTED_STREAM_TYPES then
    match s_codec_context (snd st) with
    | Some _ => None
    | None => Some (Warning (SkippingNoDecoder (fst st)))
    end
  else Some (Warning (SkippingNotSupported (fst st) (s_type (snd st)))).

Lemma select_streams l acc :
  foldM select_stream l acc = (omap skip_warning l, Ok (acc ++ filter eligible l)%list).
Proof.
  revert acc. induction l as [|[index stream] l IH]; intros acc.
  - simpl. by rewrite app_nil_r.
  - cbn [foldM omap list_omap]. unfold select_stream at 1, skip_warning at 1. cbn [fst snd].
    destruct (str_in (s_type stream) SUPPORTED_STREAM_TYPES) eqn:Ht.
    + destruct (s_codec_context stream) as [cc|] eqn:Hcc.
      * rewrite filter_cons_True
          by (unfold eligible; cbn [fst snd]; rewrite Ht, Hcc; rewrite bool_decide_true; eauto).
        simpl. rewrite IH. by rewrite <- app_assoc.
      * rewrite filter_cons_False
          by (unfold eligible; cbn [fst snd]; rewrite Ht, Hcc;
              rewrite bool_decide_false; [auto | by intros [? ?]]).
        simpl. by rewrite IH.
    + rewrite filter_cons_False by (unfold eligible; cbn [fst snd]; rewrite Ht; auto).
      simpl. by rewrite IH.
Qed.

Lemma elem_of_combine_seq {A} (l : list A) n i x :
  (i, x) ∈ combine (seq n (length l)) l <-> (n <= i)%nat /\ l !! (i - n)%nat = Some x.
Proof.
  revert n. induction l as [|a l IH]; intros n; simpl.
  - split; [by intros ?%elem_of_nil | by intros [_ ?]].
  - rewrite elem_of_cons, IH. split.
    + intros [[= -> ->]|[Hle Hx]].
      * split; [lia|]. by rewrite Nat.sub_diag.
      * split; [lia|]. by replace (i - n)%nat with (S (i - S n)) by lia.
    + intros [Hle Hx]. destruct (decide (i = n)) as [->|Hne].
      * left. rewrite Nat.sub_diag in Hx. by injection Hx as ->.
      * right. split; [lia|]. by replace (i - n)%nat with (S (i - S n)) in Hx by lia.
Qed.

Lemma elem_of_enumerate {A} (l : list A) i x :
  (i, x) ∈ enumerate l <-> l !! i = Some x.
Proof.
  unfold enumerate. rewrite elem_of_combine_seq, Nat.sub_0_r.
  split; [by intros [_ ?] | split; [lia | done]].
Qed.

(** The loop over the video contexts: what it makes of one entry of the
    [ctx_map], given the events [evs] logged. *)
Definition limit_rel (time_base : nat -> Q) (evs : list log) (ic ic' : nat * ctx) : Prop :=
  fst ic' = fst ic /\ priv (snd ic') = priv (snd ic) /\
  match attrs (snd ic) with
  | AudioEditContext s d => attrs (snd ic') = AudioEditContext s d
  | VideoEditContext s d fps =>
      attrs (snd ic') = VideoEditContext s d (limited time_base d fps) /\
      ~ (time_base d == 0)%Q /\
      ((1 / time_base d < fps)%Q ->
       exists j, Warning (LowTimeBaseResolution j fps (1 / time_base d)) ∈ evs)
  end.

Lemma limit_rel_mono time_base evs evs' ic ic' :
  (forall x, x ∈ evs -> x ∈ evs') ->
  limit_rel time_base evs ic ic' -> limit_rel time_base evs' ic ic'.
Proof.
  unfold limit_rel. intros Hsub (? & ? & Hm). split; [done|]. split; [done|].
  destruct (attrs (snd ic)); [|done].
  destruct Hm as (? & ? & Hw). split; [done|]. split; [done|].
  intros Hlt. destruct (Hw Hlt) as [j Hj]. eauto.
Qed.

Lemma limit_max_fps_Ok time_base dst_stream ic evs ic' :
  limit_max_fps time_base dst_stream ic = (evs, Ok ic') -> limit_rel time_base evs ic ic'.
Proof.
  unfold limit_max_fps, limit_rel, limited. destruct ic as [idx [a st]]; simpl.
  destruct a as [s d fps|s d]; simpl.
  - destruct (Qeq_bool (time_base d) 0) eqn:Hz; [discriminate|].
    assert (Hnz : ~ (time_base d == 0)%Q).
    { intros Heq%Qeq_bool_iff. congruence. }
    destruct (Qle_bool fps (1 / time_base d)) eqn:Hle; simpl.
    + intros [= <- <-]. simpl. repeat split; try done.
      intros Hlt. apply Qle_bool_iff in Hle. by apply Qlt_not_le in Hlt.
    + destruct dst_stream as [j|]; [|discriminate].
      intros [= <- <-]. simpl. repeat split; try done.
      intros _. exists j. by left.
  - intros [= <- <-]. done.
Qed.

Lemma mapM_limit_max_fps time_base dst_stream ctx_map evs ctx_map' :
  mapM (limit_max_fps time_base dst_stream) ctx_map = (evs, Ok ctx_map') ->
  Forall2 (limit_rel time_base evs) ctx_map ctx_map'.
Proof.
  revert evs ctx_map'. induction ctx_map as [|ic l IH]; intros evs l'; simpl.
  - intros [= <- <-]. constructor.
  - intros (l1 & ic' & l2 & H1 & Hrest & ->)%bind_Ok.
    apply bind_Ok in Hrest as (l3 & l0 & l4 & H2 & [<- ->]%ret_Ok & ->).
    constructor.
    + eapply limit_rel_mono; [|by eapply limit_max_fps_Ok].
      intros x Hx. apply elem_of_app. by left.
    + eapply Forall2_impl; [by apply IH|].
      intros x y. apply limit_rel_mono. intros z Hz.
      rewrite app_nil_r. apply elem_of_app. by right.
Qed.

(** [prepare_destination], stage by stage. *)
Lemma prepare_destination_Ok source time_base evs p :
  prepare_destination self source time_base = (evs, Ok p) ->
  exists p0 evs',
    rfold (provision_stream self) (filter eligible (enumerate source)) empty_provision = Ok p0 /\
    mapM (limit_max_fps time_base (p_dst_stream p0)) (p_ctx_map p0) = (evs', Ok (p_ctx_map p)) /\
    p_dst p = p_dst p0 /\
    evs = (omap skip_warning (enumerate source) ++ evs')%list.
Proof.
  unfold prepare_destination. rewrite select_streams.
  intros (l1 & valid & l2 & [= <- <-] & Hrest & ->)%bind_Ok.
  apply bind_Ok in Hrest as (l3 & p0 & l4 & [Hp0 ->]%lift_Ok & Hrest & ->).
  apply bind_Ok in Hrest as (l5 & cm & l6 & Hcm & [<- ->]%ret_Ok & ->).
  exists p0, l5. simpl. by rewrite app_nil_r.
Qed.

End Precedence.

Section Provisioned.
Context `{Builtins} `{EditContexts}.
Variable self : editor.

(** Every entry of the context map that [prepare_destination] returns
    comes from an eligible source stream, whose destination stream was
    configured by precedence, and went through the loop over the video
    contexts. *)
Lemma prepare_destination_entry source time_base evs p index c :
  prepare_destination self source time_base = (evs, Ok p) ->
  (index, c) ∈ p_ctx_map p ->
  exists src d c0,
    source !! index = Some src /\
    p_dst p !! ctx_dst (attrs c0) = Some d /\
    configured_by_precedence self (fun _ q => q) index src d (attrs c0) /\
    limit_rel time_base evs (index, c0) (index, c).
Proof.
  intros (p0 & evs' & Hp0 & Hcm & Hdst & ->)%prepare_destination_Ok Hin.
  apply mapM_limit_max_fps in Hcm.
  apply list_elem_of_lookup in Hin as [k Hk].
  destruct (Forall2_lookup_r _ _ _ _ _ Hcm Hk) as ([index0 c0] & Hk0 & Hrel).
  assert (index = index0) as <- by (destruct Hrel as [Hf _]; exact Hf).
  assert (Hinv : provisioned_from self (fun _ q => q) (enumerate source)
                   (p_dst p0) (p_ctx_map p0)).
  { eapply rfold_provision_provisioned; [| |exact Hp0].
    - intros x Hx. by apply list_elem_of_filter in Hx as [_ ?].
    - intros ? ? Hempty. by apply elem_of_nil in Hempty. }
  destruct (Hinv index c0) as (src & d & Hsrc & Hd & Hconf).
  { apply list_elem_of_lookup. eauto. }
  apply elem_of_enumerate in Hsrc.
  exists src, d, c0. rewrite Hdst. split; [done|]. split; [done|]. split; [done|].
  eapply limit_rel_mono; [|exact Hrel].
  intros x Hx. apply elem_of_app. by right.
Qed.

End Provisioned.

(** C1.  For every stream provisioned by [prepare_destination] (every entry
    of the context map it returns), the codec, codec options, bitrate,
    resolution, maximum frame rate, sample rate and mono setting the
    destination stream and the context were given are those of the settings
    of the stream index when the key is present there, otherwise those of
    the settings of the stream type when present there, otherwise the
    values of the source stream ([max_fps] being then limited by the time
    base). *)
Theorem prepare_destination_precedence `{Builtins} `{EditContexts}
  (self : editor) (source : list src_stream) (time_base : nat -> Q)
  (evs : list log) (p : provision) (index : nat) (c : ctx) :
  prepare_destination self source time_base = (evs, Ok p) ->
  (index, c) ∈ p_ctx_map p ->
  exists src d,
    source !! index = Some src /\
    p_dst p !! ctx_dst (attrs c) = Some d /\
    configured_by_precedence self (limited time_base) index src d (attrs c).
Proof.
  intros Hp Hin.
  destruct (prepare_destination_entry self _ _ _ _ _ _ Hp Hin)
    as (src & d & c0 & Hsrc & Hd & Hconf & _ & _ & Hattrs).
  simpl in Hattrs. exists src, d. split; [done|].
  destruct Hconf as (cc & Hcc & Hs & Hcodec & Hopt & Hbit & Hm).
  destruct (attrs c0) as [s j fps|s j] eqn:Ha.
  - destruct Hattrs as (Hc & _ & _). rewrite Hc. simpl in *.
    split; [done|]. exists cc. repeat split; try tauto.
    destruct Hm as (_ & _ & fps' & Hfps & ->). eauto.
  - rewrite Hattrs. simpl in *.
    split; [done|]. exists cc. repeat split; tauto.
Qed.

Lemma prepare_destination_precedence_witness :
  exists evs p,
    @prepare_destination no_text Samples.all_active Samples.sample_editor
      Samples.recording Samples.coarse_time_base = (evs, Ok p) /\
    (2%nat, @construct Samples.all_active (AudioEditContext 2 1)) ∈ p_ctx_map p /\
    exists src d,
      Samples.recording !! 2%nat = Some src /\
      p_dst p !! 1%nat = Some d /\
      configured_by_precedence (H:=no_text) Samples.sample_editor
        (limited Samples.coarse_time_base) 2 src d (AudioEditContext 2 1).
Proof.
  eexists _, _. split; [reflexivity|]. split.
  - apply list_elem_of_lookup. exists 1%nat. reflexivity.
  - eapply (prepare_destination_precedence (H:=no_text) (H0:=Samples.all_active)
              Samples.sample_editor Samples.recording Samples.coarse_time_base
              _ _ 2%nat (@construct Samples.all_active (AudioEditContext 2 1))).
    + reflexivity.
    + apply list_elem_of_lookup. exists 1%nat. reflexivity.
Defined.

(** ** The maximum frame rate and the time base (prepare_destination) *)

Lemma limited_le time_base j fps : (limited time_base j fps <= 1 / time_base j)%Q.
Proof.
  unfold limited. destruct (Qle_bool fps (1 / time_base j)) eqn:Hle.
  - by apply Qle_bool_iff.
  - apply Qle_refl.
Qed.

Lemma limited_lt time_base j fps :
  (1 / time_base j < fps)%Q -> limited time_base j fps = (1 / time_base j)%Q.
Proof.
  unfold limited. intros Hlt. destruct (Qle_bool fps (1 / time_base j)) eqn:Hle; [|done].
  apply Qle_bool_iff in Hle. by apply Qlt_not_le in Hlt.
Qed.

Lemma limited_not_lt time_base j fps :
  ~ (1 / time_base j < fps)%Q -> limited time_base j fps = fps.
Proof.
  unfold limited. intros Hnlt. destruct (Qle_bool fps (1 / time_base j)) eqn:Hle; [done|].
  exfalso. apply Hnlt. apply Qnot_le_lt. intros Hle'%Qle_bool_iff. congruence.
Qed.

Section Limit.
Context `{Builtins} `{EditContexts}.
Variable self : editor.

(** Once a stream was provisioned, the variable [dst_stream] is bound. *)
Lemma rfold_provision_dst_stream valid p p' :
  rfold (provision_stream self) valid p = Ok p' ->
  (p_ctx_map p = [] \/ is_Some (p_dst_stream p)) ->
  p_ctx_map p' = [] \/ is_Some (p_dst_stream p').
Proof.
  revert p. induction valid as [|[index src] valid IH]; intros p; simpl.
  - by intros [= <-].
  - intros (p1 & H1 & Hrest)%rbind_Ok _. apply (IH p1 Hrest). right.
    assert (Hfin : forall p0, set_thread_types index p0 = Ok p1 -> is_Some (p_dst_stream p1)).
    { intros p0. unfold set_thread_types. destruct (p_dst_stream p0); [|discriminate].
      intros [= <-]. simpl. eauto. }
    unfold provision_stream in H1.
    destruct (String.eqb (s_type src) ID_VIDEO_STREAM).
    + destruct (s_codec_context src); [|discriminate].
      apply rbind_Ok in H1 as (? & _ & H1). apply rbind_Ok in H1 as (? & _ & H1). eauto.
    + destruct (String.eqb (s_type src) ID_AUDIO_STREAM); [|eauto].
      destruct (s_codec_context src); [|discriminate]. eauto.
Qed.

(** The loop over the video contexts returns when no time base is zero. *)
Lemma mapM_limit_max_fps_returns time_base dst_stream ctx_map :
  (forall j, ~ (time_base j == 0)%Q) ->
  (ctx_map = [] \/ is_Some dst_stream) ->
  exists evs ctx_map', mapM (limit_max_fps time_base dst_stream) ctx_map = (evs, Ok ctx_map').
Proof.
  intros Hnz Hd. assert (Hd' : ctx_map <> [] -> is_Some dst_stream).
  { intros ?. by destruct Hd. }
  clear Hd. induction ctx_map as [|[idx c] l IH]; simpl; [by eexists _, _|].
  destruct Hd' as [j ->]; [done|].
  assert (Hone : exists l1 ic, limit_max_fps time_base (Some j) (idx, c) = (l1, Ok ic)).
  { unfold limit_max_fps. simpl. destruct (attrs c) as [s d fps|s d]; [|by eexists _, _].
    destruct (Qeq_bool (time_base d) 0) eqn:Hz.
    - apply Qeq_bool_iff in Hz. by apply Hnz in Hz.
    - destruct (Qle_bool fps (1 / time_base d)); simpl; by eexists _, _. }
  destruct Hone as (l1 & ic & ->).
  destruct IH as (l2 & l' & ->); [eauto|]. simpl. by eexists _, _.
Qed.

End Limit.

(** C6.  After [prepare_destination] every video context has
    [max_fps <= 1 / time_base] for the time base of its destination stream:
    when the time base is too coarse for the maximum frame rate the settings
    resolve to ([1 / time_base < max_fps]), [max_fps] is set to
    [1 / time_base] and a warning is logged, otherwise [max_fps] is left as
    resolved.  A coarse time base does not make the provisioning fail: if
    it returns for some time bases, it returns for all that are not zero. *)
Theorem max_fps_limited_by_time_base `{Builtins} `{EditContexts}
  (self : editor) (source : list src_stream) (time_base : nat -> Q) :
  (forall time_base0 : nat -> Q,
     is_ok (snd (prepare_destination self source time_base0)) = true ->
     (forall j, ~ (time_base j == 0)%Q) ->
     is_ok (snd (prepare_destination self source time_base)) = true) /\
  (forall evs p index c s j max_fps,
     prepare_destination self source time_base = (evs, Ok p) ->
     (index, c) ∈ p_ctx_map p ->
     attrs c = VideoEditContext s j max_fps ->
     (max_fps <= 1 / time_base j)%Q /\
     exists src fps,
       source !! index = Some src /\
       resolved_max_fps self index src = Ok fps /\
       ((1 / time_base j < fps)%Q ->
        max_fps = (1 / time_base j)%Q /\
        exists k, Warning (LowTimeBaseResolution k fps (1 / time_base j)) ∈ evs) /\
       (~ (1 / time_base j < fps)%Q -> max_fps = fps)).
Proof.
  split.
  - intros time_base0 Hok Hnz.
    destruct (prepare_destination self source time_base0) as [evs0 [p|e]] eqn:Hrun;
      [|discriminate].
    apply prepare_destination_Ok in Hrun as (p0 & evs' & Hp0 & _ & _ & _).
    unfold prepare_destination. rewrite select_streams. simpl. rewrite Hp0. simpl.
    destruct (mapM_limit_max_fps_returns time_base (p_dst_stream p0) (p_ctx_map p0) Hnz)
      as (l & cm & ->).
    { eapply rfold_provision_dst_stream; [exact Hp0|]. by left. }
    reflexivity.
  - intros evs p index c s j max_fps Hrun Hin Hattrs.
    destruct (prepare_destination_entry self _ _ _ _ _ _ Hrun Hin)
      as (src & d & c0 & Hsrc & Hd & Hconf & _ & _ & Hrel).
    simpl in Hrel. destruct Hconf as (cc & _ & _ & _ & _ & _ & Hm).
    destruct (attrs c0) as [s0 j0 fps0|s0 j0]; [|congruence].
    destruct Hrel as (Hc & _ & Hwarn). rewrite Hattrs in Hc. injection Hc as -> -> ->.
    destruct Hm as (_ & _ & fps & Hfps & ->).
    split; [apply limited_le|]. exists src, fps. split; [done|]. split; [done|]. split.
    + intros Hlt. split; [by apply limited_lt | by apply Hwarn].
    + apply limited_not_lt.
Qed.

Lemma max_fps_limited_by_time_base_witness :
  exists evs p c,
    @prepare_destination no_text Samples.all_active Samples.sample_editor
      Samples.recording Samples.coarse_time_base = (evs, Ok p) /\
    (0%nat, c) ∈ p_ctx_map p /\
    attrs c = VideoEditContext 0 0 100 /\
    (100 <= 1 / Samples.coarse_time_base 0)%Q /\
    exists src fps,
      Samples.recording !! 0%nat = Some src /\
      resolved_max_fps (H:=no_text) Samples.sample_editor 0 src = Ok fps /\
      ((1 / Samples.coarse_time_base 0 < fps)%Q ->
       (100 : Q) = (1 / Samples.coarse_time_base 0)%Q /\
       exists k, Warning (LowTimeBaseResolution k fps (1 / Samples.coarse_time_base 0)) ∈ evs) /\
      (~ (1 / Samples.coarse_time_base 0 < fps)%Q -> (100 : Q) = fps).
Proof.
  eexists _, _, _. split; [reflexivity|]. split.
  - apply list_elem_of_lookup. exists 0%nat. reflexivity.
  - split; [reflexivity|].
    eapply (proj2 (max_fps_limited_by_time_base (H:=no_text) (H0:=Samples.all_active)
                     Samples.sample_editor Samples.recording Samples.coarse_time_base)).
    + reflexivity.
    + apply list_elem_of_lookup. exists 0%nat. reflexivity.
    + reflexivity.
Defined.

(** ** Streams that are skipped (prepare_destination) *)

(** The provisioning of the streams kept by the first loop: the second loop
    and the loop over the video contexts. *)
Definition provision_valid `{Builtins} `{EditContexts} (self : editor)
  (valid_streams : list (nat * src_stream)) (time_base : nat -> Q) : M log provision :=
  do p <- lift (rfold (provision_stream self) valid_streams empty_provision);
  do ctx_map <- mapM (limit_max_fps time_base (p_dst_stream p)) (p_ctx_map p);
  ret {| p_dst := p_dst p; p_ctx_map := ctx_map;
         p_src_auto := p_src_auto p; p_dst_stream := p_dst_stream p |}.

Section Skipped.
Context `{Builtins} `{EditContexts}.
Variable self : editor.

Lemma elem_of_omap_skip_warning (l : list (nat * src_stream)) index st :
  (index, st) ∈ l ->
  (str_in (s_type st) SUPPORTED_STREAM_TYPES = false ->
   Warning (SkippingNotSupported index (s_type st)) ∈ omap skip_warning l) /\
  (str_in (s_type st) SUPPORTED_STREAM_TYPES = true -> s_codec_context st = None ->
   Warning (SkippingNoDecoder index) ∈ omap skip_warning l).
Proof.
  intros Hin. split.
  - intros Ht. apply list_elem_of_omap. exists (index, st). split; [done|].
    unfold skip_warning. cbn [fst snd]. by rewrite Ht.
  - intros Ht Hcc. apply list_elem_of_omap. exists (index, st). split; [done|].
    unfold skip_warning. cbn [fst snd]. by rewrite Ht, Hcc.
Qed.

(** The keys of the [ctx_map] after the provisioning loop. *)
Lemma rfold_provision_keys (valid : list (nat * src_stream)) p p' index :
  (forall x, x ∈ valid -> eligible x) ->
  rfold (provision_stream self) valid p = Ok p' ->
  index ∈ map fst (p_ctx_map p') <->
  index ∈ map fst (p_ctx_map p) \/ index ∈ map fst valid.
Proof.
  revert p. induction valid as [|[i src] valid IH]; intros p Hel; simpl.
  - intros [= <-]. split; [auto | by intros [?|?%elem_of_nil]].
  - intros (p1 & H1 & Hrest)%rbind_Ok.
    rewrite (IH p1) by (first [exact Hrest | intros x Hx; apply Hel; by right]).
    assert (Hkeys : index ∈ map fst (p_ctx_map p1) <->
                    index ∈ map fst (p_ctx_map p) \/ index = i).
    { assert (Hfin : forall p0, set_thread_types i p0 = Ok p1 ->
                                p_ctx_map p1 = p_ctx_map p0).
      { intros p0. unfold set_thread_types. destruct (p_dst_stream p0); [|discriminate].
        by intros [= <-]. }
      assert (Hset : forall c, index ∈ map fst (dict_set i c (p_ctx_map p)) <->
                               index ∈ map fst (p_ctx_map p) \/ index = i).
      { intros c. rewrite <- !dict_get_is_Some, dict_get_set.
        destruct (decide (i = index)) as [->|Hne]; [split; eauto|].
        split; [auto | intros [?|?]; [done | congruence]]. }
      assert (Hty : eligible (i, src)) by (apply Hel; by left).
      unfold eligible in Hty. apply andb_True in Hty as [Hty _]. cbn [fst snd] in Hty.
      unfold provision_stream in H1.
      destruct (String.eqb (s_type src) ID_VIDEO_STREAM) eqn:Hv.
      - destruct (s_codec_context src); [|discriminate].
        apply rbind_Ok in H1 as (? & _ & H1). apply rbind_Ok in H1 as (? & _ & H1).
        rewrite (Hfin _ H1). simpl. apply Hset.
      - destruct (String.eqb (s_type src) ID_AUDIO_STREAM) eqn:Ha.
        + destruct (s_codec_context src); [|discriminate].
          rewrite (Hfin _ H1). simpl. apply Hset.
        + exfalso. unfold str_in, SUPPORTED_STREAM_TYPES in Hty. cbn [existsb] in Hty.
          rewrite Hv, Ha in Hty. done. }
    rewrite Hkeys, elem_of_cons. tauto.
Qed.

Lemma limit_rel_keys time_base evs (ctx_map ctx_map' : list (nat * ctx)) :
  Forall2 (limit_rel time_base evs) ctx_map ctx_map' ->
  map fst ctx_map' = map fst ctx_map.
Proof.
  induction 1 as [|ic ic' l l' Hrel _ IH]; [done|].
  simpl. rewrite IH. by destruct Hrel as [-> _].
Qed.

End Skipped.

(** C8.  [prepare_destination] skips every stream whose type is neither
    video nor audio and every stream of a supported type that has no
    decoder: a warning is logged for it, the first loop does not raise, and
    whether [prepare_destination] returns, and what, is decided by the
    provisioning of the other streams alone; when it returns, the streams
    with a context are exactly the eligible ones. *)
Theorem skipped_streams_not_fatal `{Builtins} `{EditContexts}
  (self : editor) (source : list src_stream) (time_base : nat -> Q) :
  let r := prepare_destination self source time_base in
  let kept := provision_valid self (filter eligible (enumerate source)) time_base in
  (forall index st, source !! index = Some st ->
     (str_in (s_type st) SUPPORTED_STREAM_TYPES = false ->
      Warning (SkippingNotSupported index (s_type st)) ∈ fst r) /\
     (str_in (s_type st) SUPPORTED_STREAM_TYPES = true -> s_codec_context st = None ->
      Warning (SkippingNoDecoder index) ∈ fst r)) /\
  r = ((omap skip_warning (enumerate source) ++ fst kept)%list, snd kept) /\
  (forall p, snd r = Ok p ->
     forall index, is_Some (dict_get index (p_ctx_map p)) <->
                   exists st, source !! index = Some st /\ eligible (index, st)).
Proof.
  intros r kept.
  assert (Hr : r = ((omap skip_warning (enumerate source) ++ fst kept)%list, snd kept)).
  { unfold r, kept.
    change (prepare_destination self source time_base)
      with (Eff.bind (foldM select_stream (enumerate source) [])
                     (fun v => provision_valid self v time_base)).
    rewrite select_streams. unfold Eff.bind at 1. cbn [app].
    by destruct (provision_valid _ _ _) as [l res]. }
  split; [|split; [exact Hr|]].
  - intros index st Hst. rewrite Hr. simpl.
    apply elem_of_enumerate in Hst.
    destruct (elem_of_omap_skip_warning _ _ _ Hst) as [Hn Hd].
    split; intros; apply elem_of_app; left; auto.
  - intros p Hp index.
    assert (Hrun : prepare_destination self source time_base = (fst r, Ok p)).
    { fold r. rewrite <- Hp. by destruct r. }
    apply prepare_destination_Ok in Hrun as (p0 & evs' & Hp0 & Hcm & _ & _).
    apply mapM_limit_max_fps, limit_rel_keys in Hcm.
    rewrite dict_get_is_Some, Hcm.
    assert (Hel : forall x, x ∈ filter eligible (enumerate source) -> eligible x).
    { intros x Hx. by apply list_elem_of_filter in Hx as [? _]. }
    rewrite (rfold_provision_keys self _ _ _ index Hel Hp0). simpl. split.
    + intros [?%elem_of_nil|Hin]; [done|].
      apply list_elem_of_fmap in Hin as ([i st] & -> & Hin).
      apply list_elem_of_filter in Hin as [Hst Hin].
      apply elem_of_enumerate in Hin. eauto.
    + intros (st & Hst & Helig). right. apply list_elem_of_fmap.
      exists (index, st). split; [done|]. apply list_elem_of_filter.
      split; [done|]. by apply elem_of_enumerate.
Qed.

Lemma skipped_streams_not_fatal_witness :
  Samples.recording !! 1%nat = Some Samples.subtitle_stream /\
  str_in (s_type Samples.subtitle_stream) SUPPORTED_STREAM_TYPES = false /\
  Warning (SkippingNotSupported 1 "subtitle")
    ∈ fst (@prepare_destination no_text Samples.all_active Samples.sample_editor
             Samples.recording Samples.coarse_time_base).
Proof.
  split; [reflexivity|]. split; [reflexivity|].
  apply (proj1 (skipped_streams_not_fatal (H:=no_text) (H0:=Samples.all_active)
                  Samples.sample_editor Samples.recording Samples.coarse_time_base)
           1%nat Samples.subtitle_stream); reflexivity.
Defined.

(** ** Validation of the numeric options (from_json) *)

(** The options validated one value at a time: a [bitrate] or a
    [sample-rate] that converts to an integer [z <= 0] raises the
    validation error. *)
Lemma from_json_option_not_positive `{Builtins} key value z st :
  key = ID_BITRATE \/ key = ID_SAMPLE_RATE ->
  py_int value = Ok z -> z <= 0 ->
  from_json_option (key, value) st = ([], Err (ValueError (must_be_positive key))).
Proof.
  intros [-> | ->] Hz Hle; unfold from_json_option; simpl; rewrite Hz; simpl;
    by rewrite (proj2 (Z.leb_le z 0) Hle).
Qed.

(** A [max-fps] that converts to a float [f <= 0] raises it as well. *)
Lemma from_json_option_max_fps_not_positive `{Builtins} value f st :
  py_float value = Ok f -> PrimFloat.leb f 0%float = true ->
  from_json_option (ID_MAX_FPS, value) st
  = ([], Err (ValueError (must_be_positive ID_MAX_FPS))).
Proof. intros Hf Hle. unfold from_json_option. simpl. rewrite Hf. simpl. by rewrite Hle. Qed.

(** A [resolution] is validated through the product of its two dimensions. *)
Lemma from_json_option_resolution `{Builtins} w h st :
  from_json_option (ID_RESOLUTION, PList [PInt w; PInt h]) st
  = if w * h <=? 0
    then ([], Err (ValueError (must_consist_of_positive ID_RESOLUTION)))
    else ([], Ok (<[ID_RESOLUTION := PList [PInt w; PInt h]]> st)).
Proof. unfold from_json_option. simpl. by destruct (w * h <=? 0). Qed.

(** C2, at the document [{"video": {"resolution": [-640, -480]}}]:
    [from_json] returns an editor, with this resolution in its video
    settings, although both dimensions are negative. *)
Theorem from_json_negative_resolution `{Builtins} :
  exists e,
    from_json [("video", PDict [(ID_RESOLUTION, PList [PInt (-640); PInt (-480)])])]
    = ([], Ok e) /\
    settings e !! KStr ID_VIDEO_STREAM
    = Some {[ ID_RESOLUTION := PList [PInt (-640); PInt (-480)] ]}.
Proof.
  eexists. split; reflexivity.
Qed.

(** ** Exporting and reloading the settings (export_json, from_json) *)

(** *** Stream indices as keys of the document *)

Lemma string_of_uint_digits d : all_digits (NilEmpty.string_of_uint d) = true.
Proof. induction d; simpl; auto. Qed.

Lemma string_of_uint_empty d : NilEmpty.string_of_uint d = "" -> d = Decimal.Nil.
Proof. by destruct d. Qed.

Lemma str_of_N_digits n : all_digits (str_of_N n) = true.
Proof. apply string_of_uint_digits. Qed.

Lemma str_of_N_nonempty n : str_of_N n <> "".
Proof.
  unfold str_of_N. intros Hd%string_of_uint_empty. destruct n as [|p]; [discriminate|].
  by apply (Unsigned.to_uint_nonnil p).
Qed.

Lemma isnumeric_str_of_N n : isnumeric (str_of_N n) = true.
Proof.
  pose proof (str_of_N_nonempty n) as Hne. pose proof (str_of_N_digits n) as Hd.
  unfold isnumeric. by destruct (str_of_N n).
Qed.

Lemma lower_ascii_digit c : is_digit c = true -> lower_ascii c = c.
Proof.
  unfold is_digit, lower_ascii. intros [H1 H2]%andb_prop.
  apply Nat.leb_le in H2. destruct (65 <=? nat_of_ascii c)%nat eqn:H3; [|done].
  apply Nat.leb_le in H3. lia.
Qed.

Lemma lower_digits s : all_digits s = true -> lower s = s.
Proof.
  induction s as [|c s IH]; [done|]. simpl. intros [Hc Hs]%andb_prop.
  by rewrite lower_ascii_digit, IH.
Qed.

Lemma int_of_digits_str_of_N n : int_of_digits (str_of_N n) = Z.of_N n.
Proof.
  unfold int_of_digits, str_of_N. by rewrite NilEmpty.usu, DecimalN.Unsigned.of_to.
Qed.

Lemma str_of_N_inj n m : str_of_N n = str_of_N m -> n = m.
Proof.
  intros Heq. apply (f_equal int_of_digits) in Heq.
  rewrite !int_of_digits_str_of_N in Heq. lia.
Qed.

Lemma str_of_N_not_word n w :
  all_digits w = false -> str_of_N n <> w.
Proof. intros Hw <-. by rewrite str_of_N_digits in Hw. Qed.

Lemma json_key_index n : json_key (KInt (Z.of_N n)) = str_of_N n.
Proof. by destruct n. Qed.

(** *** Settings as [from_json] leaves them *)

(** An option value that [from_json] reads as itself. *)
Definition reads_as_itself `{Builtins} (key : string) (v : pyval) : Prop :=
  forall st, from_json_option (key, v) st = ([], Ok (<[key := v]> st)).

(** A key of the settings that [from_json] can make. *)
Definition loadable_key (k : skey) : Prop :=
  k = KStr ID_VIDEO_STREAM \/ k = KStr ID_AUDIO_STREAM \/ exists n : N, k = KInt (Z.of_N n).

Definition loadable_options `{Builtins} (st : gmap string pyval) : Prop :=
  forall key v, st !! key = Some v -> reads_as_itself key v.

(** Settings with both stream types, loadable keys and options that read
    as themselves. *)
Definition loadable `{Builtins} (s : gmap skey (gmap string pyval)) : Prop :=
  is_Some (s !! KStr ID_VIDEO_STREAM) /\ is_Some (s !! KStr ID_AUDIO_STREAM) /\
  forall k st, s !! k = Some st -> loadable_key k /\ loadable_options st.

Section Reload.
Context `{Builtins}.

Lemma rmapM_py_int_ints dims : rmapM py_int (map PInt dims) = Ok dims.
Proof. induction dims as [|z l IH]; [done|]. simpl. by rewrite IH. Qed.

Lemma loadable_options_insert st key v :
  loadable_options st -> reads_as_itself key v -> loadable_options (<[key := v]> st).
Proof.
  intros Hst Hv key' v'. rewrite lookup_insert. case_decide as Hk.
  - intros [= <-]. by subst.
  - apply Hst.
Qed.

(** One option read by [from_json] leaves options that read as themselves. *)
Lemma from_json_option_loadable key value st evs st' :
  from_json_option (key, value) st = (evs, Ok st') ->
  loadable_options st -> loadable_options st'.
Proof.
  unfold from_json_option.
  destruct (String.eqb key ID_CODEC) eqn:E1.
  { apply String.eqb_eq in E1 as ->. intros [= _ <-] Hst.
    apply loadable_options_insert; [done|]. intros st0. reflexivity. }
  destruct (String.eqb key ID_CODEC_OPTIONS) eqn:E2.
  { apply String.eqb_eq in E2 as ->.
    intros (l1 & items & l2 & [Hit ->]%lift_Ok & [<- ->]%ret_Ok & ->)%bind_Ok Hst.
    apply loadable_options_insert; [done|]. intros st0.
    unfold from_json_option. simpl. rewrite map_map. reflexivity. }
  destruct (String.eqb key ID_BITRATE) eqn:E3.
  { apply String.eqb_eq in E3 as ->.
    intros (l1 & z & l2 & [Hz ->]%lift_Ok & Hrest & ->)%bind_Ok Hst.
    destruct (z <=? 0) eqn:Hle; [discriminate|]. apply ret_Ok in Hrest as [<- ->].
    apply loadable_options_insert; [done|]. intros st0.
    unfold from_json_option. simpl. by rewrite Hle. }
  destruct (String.eqb key ID_RESOLUTION) eqn:E4.
  { apply String.eqb_eq in E4 as ->.
    intros (l1 & dims & l2 & [Hd ->]%lift_Ok & Hrest & ->)%bind_Ok Hst.
    apply bind_Ok in Hrest as (l3 & w & l4 & [Hw ->]%lift_Ok & Hrest & ->).
    apply bind_Ok in Hrest as (l5 & h & l6 & [Hh ->]%lift_Ok & Hrest & ->).
    destruct (w * h <=? 0) eqn:Hle; [discriminate|]. apply ret_Ok in Hrest as [<- ->].
    apply loadable_options_insert; [done|]. intros st0.
    unfold from_json_option. simpl. rewrite rmapM_py_int_ints. simpl.
    rewrite Hw, Hh. simpl. by rewrite Hle. }
  destruct (String.eqb key ID_MAX_FPS) eqn:E5.
  { apply String.eqb_eq in E5 as ->.
    intros (l1 & f & l2 & [Hf ->]%lift_Ok & Hrest & ->)%bind_Ok Hst.
    destruct (PrimFloat.leb f 0) eqn:Hle; [discriminate|]. apply ret_Ok in Hrest as [<- ->].
    apply loadable_options_insert; [done|]. intros st0.
    unfold from_json_option. simpl. by rewrite Hle. }
  destruct (String.eqb key ID_SAMPLE_RATE) eqn:E6.
  { apply String.eqb_eq in E6 as ->.
    intros (l1 & z & l2 & [Hz ->]%lift_Ok & Hrest & ->)%bind_Ok Hst.
    destruct (z <=? 0) eqn:Hle; [discriminate|]. apply ret_Ok in Hrest as [<- ->].
    apply loadable_options_insert; [done|]. intros st0.
    unfold from_json_option. simpl. by rewrite Hle. }
  destruct (String.eqb key ID_MONO) eqn:E7.
  { apply String.eqb_eq in E7 as ->. intros [= _ <-] Hst.
    apply loadable_options_insert; [done|]. intros st0. reflexivity. }
  intros [= _ <-]. done.
Qed.

Lemma foldM_from_json_option_loadable items st evs st' :
  foldM from_json_option items st = (evs, Ok st') ->
  loadable_options st -> loadable_options st'.
Proof.
  revert st evs. induction items as [|[key value] items IH]; intros st evs; simpl.
  - by intros [= _ <-].
  - intros (l1 & st1 & l2 & H1 & Hrest & ->)%bind_Ok Hst.
    eapply IH; [exact Hrest|]. eapply from_json_option_loadable; [exact H1 | exact Hst].
Qed.

Lemma str_in_types identifier :
  str_in identifier [ID_VIDEO_STREAM; ID_AUDIO_STREAM] = true ->
  identifier = ID_VIDEO_STREAM \/ identifier = ID_AUDIO_STREAM.
Proof.
  unfold str_in. cbn [existsb].
  destruct (String.eqb identifier ID_VIDEO_STREAM) eqn:Hv;
    [apply String.eqb_eq in Hv; auto|].
  destruct (String.eqb identifier ID_AUDIO_STREAM) eqn:Ha;
    [apply String.eqb_eq in Ha; auto|done].
Qed.

Lemma int_of_digits_loadable identifier : loadable_key (KInt (int_of_digits identifier)).
Proof.
  right; right. unfold int_of_digits.
  destruct (NilEmpty.uint_of_string identifier) as [d|]; [by eexists|by exists 0%N].
Qed.

(** One section read by [from_json] leaves loadable settings. *)
Lemma from_json_section_loadable identifier config s evs s' :
  from_json_section (identifier, config) s = (evs, Ok s') ->
  loadable s -> loadable s'.
Proof.
  unfold from_json_section.
  assert (Hfill : forall k evs0,
    loadable_key k ->
    (do items <- lift (py_items config);
     do new <- foldM from_json_option items (default ∅ (s !! k));
     ret (<[k := new]> s)) = (evs0, Ok s') ->
    loadable s -> loadable s').
  { intros k evs0 Hk (l1 & items & l2 & _ & Hrest & _)%bind_Ok (Hv & Ha & Hs).
    apply bind_Ok in Hrest as (l3 & new & l4 & Hnew & [<- _]%ret_Ok & _).
    apply foldM_from_json_option_loadable in Hnew.
    - split; [|split].
      + rewrite lookup_insert. case_decide; eauto.
      + rewrite lookup_insert. case_decide; eauto.
      + intros k' st'. rewrite lookup_insert. case_decide as Hkk.
        * intros [= <-]. by subst.
        * apply Hs.
    - destruct (s !! k) as [st|] eqn:Hst; simpl; [by apply (Hs k st)|].
      intros key v. by rewrite lookup_empty. }
  destruct (str_in (lower identifier) [ID_VIDEO_STREAM; ID_AUDIO_STREAM]) eqn:Ht.
  { apply Hfill. destruct (str_in_types _ Ht) as [-> | ->]; [by left | by right; left]. }
  destruct (isnumeric (lower identifier)).
  { apply Hfill. apply int_of_digits_loadable. }
  destruct (negb (String.eqb (lower identifier) ID_TIMELINE_CHANGES)).
  - by intros [= _ <-].
  - by intros [= _ <-].
Qed.

Lemma foldM_from_json_section_loadable doc s evs s' :
  foldM from_json_section doc s = (evs, Ok s') -> loadable s -> loadable s'.
Proof.
  revert s evs. induction doc as [|[identifier config] doc IH]; intros s evs; simpl.
  - by intros [= _ <-].
  - intros (l1 & s1 & l2 & H1 & Hrest & ->)%bind_Ok Hs.
    eapply IH; [exact Hrest|]. eapply from_json_section_loadable; [exact H1 | exact Hs].
Qed.

Lemma init_loadable : loadable (settings (init None None)).
Proof.
  split; [|split].
  - simpl. rewrite lookup_insert_ne by done. rewrite lookup_insert_eq. eauto.
  - simpl. rewrite lookup_insert_eq. eauto.
  - intros k st. simpl. rewrite !lookup_insert.
    repeat case_decide; subst; try (by rewrite lookup_empty).
    + intros [= <-]. split; [by right; left|]. intros ? ?. by rewrite lookup_empty.
    + intros [= <-]. split; [by left|]. intros ? ?. by rewrite lookup_empty.
Qed.

(** The settings of an editor that [from_json] returns are loadable. *)
Lemma from_json_loadable doc evs e :
  from_json doc = (evs, Ok e) -> loadable (settings e).
Proof.
  unfold from_json. intros (l1 & s & l2 & Hs & [<- _]%ret_Ok & _)%bind_Ok. simpl.
  eapply foldM_from_json_section_loadable; [exact Hs | apply init_loadable].
Qed.

End Reload.

(** *** Reloading an exported document *)

Lemma foldM_app {E A S} (f : A -> S -> M E S) l1 l2 s :
  foldM f (l1 ++ l2)%list s = Eff.bind (foldM f l1 s) (foldM f l2).
Proof.
  revert s. induction l1 as [|a l1 IH]; intros s; simpl.
  - by destruct (foldM f l2 s) as [l r].
  - destruct (f a s) as [l [s1|e]]; simpl; [|done].
    rewrite IH. destruct (foldM f l1 s1) as [l' [s2|e]]; simpl; [|done].
    destruct (foldM f l2 s2) as [l'' r]. by rewrite app_assoc.
Qed.

Lemma fold_left_insert {K V} `{Countable K} (l : list (K * V)) (m : gmap K V) :
  NoDup (map fst l) ->
  fold_left (fun acc kv => <[fst kv := snd kv]> acc) l m = list_to_map l ∪ m.
Proof.
  revert m. induction l as [|[k v] l IH]; intros m Hnd.
  - simpl. by rewrite (left_id_L ∅ (∪)).
  - cbn [map fst] in Hnd. apply NoDup_cons in Hnd as [Hk Hnd].
    cbn [fold_left list_to_map foldr fst snd]. rewrite IH by done.
    rewrite <- insert_union_l. symmetry. apply insert_union_r.
    by apply not_elem_of_list_to_map_1.
Qed.

Lemma dict_set_fresh {K V} `{EqDecision K} (k : K) (v : V) d :
  k ∉ map fst d -> dict_set k v d = (d ++ [(k, v)])%list.
Proof.
  induction d as [|[k0 v0] d IH]; simpl; [done|].
  intros [Hne Hd]%not_elem_of_cons. destruct (decide (k = k0)); [done|]. by rewrite IH.
Qed.

(** A JSON object without repeated keys is read as it was written. *)
Lemma json_object_NoDup pairs : NoDup (map fst pairs) -> json_object pairs = pairs.
Proof.
  unfold json_object.
  assert (Hgen : forall acc, NoDup (map fst (acc ++ pairs)%list) ->
            fold_left (fun d kv => dict_set (fst kv) (snd kv) d) pairs acc
            = (acc ++ pairs)%list).
  { induction pairs as [|[k v] l IH]; intros acc Hnd; simpl.
    - by rewrite app_nil_r.
    - rewrite dict_set_fresh.
      + rewrite IH; rewrite <- app_assoc; done.
      + rewrite map_app in Hnd. apply NoDup_app in Hnd as (_ & Hd & _).
        intros Hin. apply (Hd k Hin). by left. }
  intros Hnd. by apply (Hgen []).
Qed.

Section Reloading.
Context `{Builtins}.

Lemma foldM_options_reload (l : list (string * pyval)) cur :
  (forall key v, (key, v) ∈ l -> reads_as_itself key v) ->
  foldM from_json_option l cur
  = ([], Ok (fold_left (fun acc kv => <[fst kv := snd kv]> acc) l cur)).
Proof.
  revert cur. induction l as [|[key v] l IH]; intros cur Hl; [done|].
  cbn [foldM fold_left fst snd].
  assert (Hkv : reads_as_itself key v) by (apply Hl; by left).
  rewrite (Hkv cur). cbn [Eff.bind]. rewrite IH; [done|].
  intros key' v' Hin. apply Hl. by right.
Qed.

Lemma options_reload (st : gmap string pyval) :
  loadable_options st ->
  foldM from_json_option (map_to_list st) ∅ = ([], Ok st).
Proof.
  intros Hst. rewrite foldM_options_reload.
  - rewrite fold_left_insert by apply NoDup_fst_map_to_list.
    by rewrite list_to_map_to_list, (right_id_L ∅ (∪)).
  - intros key v Hin. apply Hst. by apply elem_of_map_to_list.
Qed.

(** The section written for the settings [st] of key [k]. *)
Definition section_of (ks : skey * gmap string pyval) : string * pyval :=
  (json_key (fst ks), PDict (map_to_list (snd ks))).

Lemma fill_reload (k : skey) (st : gmap string pyval) (s : gmap skey (gmap string pyval)) :
  loadable_options st -> default ∅ (s !! k) = ∅ ->
  (do items <- lift (py_items (PDict (map_to_list st)));
   do new <- foldM from_json_option items (default ∅ (s !! k));
   ret (<[k := new]> s)) = ([], Ok (<[k := st]> s)).
Proof.
  intros Hst ->. unfold lift, py_items. cbn [Eff.bind].
  rewrite options_reload by done. reflexivity.
Qed.

Lemma section_reload k st (s : gmap skey (gmap string pyval)) :
  loadable_key k -> loadable_options st -> default ∅ (s !! k) = ∅ ->
  from_json_section (section_of (k, st)) s = ([], Ok (<[k := st]> s)).
Proof.
  intros Hk Hst Hcur. unfold section_of, from_json_section. cbn [fst snd].
  destruct Hk as [-> | [-> | [n ->]]].
  - change (lower (json_key (KStr ID_VIDEO_STREAM))) with ID_VIDEO_STREAM.
    change (str_in ID_VIDEO_STREAM [ID_VIDEO_STREAM; ID_AUDIO_STREAM]) with true.
    cbv iota. by apply fill_reload.
  - change (lower (json_key (KStr ID_AUDIO_STREAM))) with ID_AUDIO_STREAM.
    change (str_in ID_AUDIO_STREAM [ID_VIDEO_STREAM; ID_AUDIO_STREAM]) with true.
    cbv iota. by apply fill_reload.
  - rewrite json_key_index, (lower_digits _ (str_of_N_digits n)).
    replace (str_in (str_of_N n) [ID_VIDEO_STREAM; ID_AUDIO_STREAM]) with false.
    + rewrite isnumeric_str_of_N, int_of_digits_str_of_N. by apply fill_reload.
    + symmetry. unfold str_in. cbn [existsb].
      rewrite (proj2 (String.eqb_neq _ _) (str_of_N_not_word n ID_VIDEO_STREAM eq_refl)).
      by rewrite (proj2 (String.eqb_neq _ _) (str_of_N_not_word n ID_AUDIO_STREAM eq_refl)).
Qed.

Lemma sections_reload (kl : list (skey * gmap string pyval))
  (s : gmap skey (gmap string pyval)) :
  NoDup (map fst kl) ->
  (forall k st, (k, st) ∈ kl ->
     loadable_key k /\ loadable_options st /\ default ∅ (s !! k) = ∅) ->
  foldM from_json_section (map section_of kl) s = ([], Ok (list_to_map kl ∪ s)).
Proof.
  revert s. induction kl as [|[k st] kl IH]; intros s Hnd Hkl.
  - simpl. by rewrite (left_id_L ∅ (∪)).
  - cbn [map fst] in Hnd. apply NoDup_cons in Hnd as [Hk Hnd].
    destruct (Hkl k st) as (Hlk & Hlst & Hcur); [by left|].
    cbn [map foldM]. rewrite section_reload by done. cbn [Eff.bind].
    rewrite IH; [|done|].
    + cbn [app list_to_map foldr fst snd]. do 2 f_equal.
      rewrite <- insert_union_l. symmetry. apply insert_union_r.
      by apply not_elem_of_list_to_map_1.
    + intros k' st' Hin. destruct (Hkl k' st') as (? & ? & Hc); [by right|].
      split; [done|]. split; [done|]. rewrite lookup_insert_ne; [done|].
      intros ->. apply Hk. apply list_elem_of_fmap. by exists (k', st').
Qed.

End Reloading.

Lemma json_key_inj k k' :
  loadable_key k -> loadable_key k' -> json_key k = json_key k' -> k = k'.
Proof.
  intros [-> | [-> | [n ->]]] [-> | [-> | [m ->]]]; rewrite ?json_key_index;
    try done; intros Heq.
  - symmetry in Heq. by apply str_of_N_not_word in Heq.
  - symmetry in Heq. by apply str_of_N_not_word in Heq.
  - by apply str_of_N_not_word in Heq.
  - by apply str_of_N_not_word in Heq.
  - by apply str_of_N_inj in Heq as ->.
Qed.

Lemma json_key_not_timeline_changes k :
  loadable_key k -> json_key k <> ID_TIMELINE_CHANGES.
Proof.
  intros [-> | [-> | [n ->]]]; rewrite ?json_key_index; try done.
  by apply str_of_N_not_word.
Qed.

Lemma union_init (s : gmap skey (gmap string pyval)) :
  is_Some (s !! KStr ID_VIDEO_STREAM) -> is_Some (s !! KStr ID_AUDIO_STREAM) ->
  s ∪ settings (init None None) = s.
Proof.
  intros [v Hv] [a Ha]. apply map_eq. intros k.
  destruct (s !! k) as [st|] eqn:Hk.
  - by apply lookup_union_Some_l.
  - rewrite lookup_union_r by done. simpl.
    rewrite !lookup_insert. repeat case_decide; subst; try congruence.
    by rewrite lookup_empty.
Qed.

(** C3, as amended.  For every editor that [from_json] returns, exporting
    its settings with or without an interval list and reloading the
    document gives an editor with the same settings for every stream type
    and stream index (and logs nothing). *)
Theorem export_json_from_json `{Builtins}
  (doc : list (string * pyval)) (evs : list log) (e : editor)
  (changes : option (list TimelineChange)) :
  from_json doc = (evs, Ok e) ->
  exists doc', export_json e changes = Ok doc' /\ from_json doc' = ([], Ok e).
Proof.
  intros He. pose proof (from_json_loadable _ _ _ He) as (Hv & Ha & Hs).
  unfold export_json.
  rewrite bool_decide_false.
  2:{ intros [st Hst]. destruct (Hs _ _ Hst) as [[Hk | [Hk | [n Hk]]] _]; discriminate. }
  eexists. split; [reflexivity|].
  set (rows := match changes with None => [] | Some cs => _ end).
  change (map _ (map_to_list (settings e))) with (map section_of (map_to_list (settings e))).
  assert (Hkeys : forall k st, (k, st) ∈ map_to_list (settings e) ->
            loadable_key k /\ loadable_options st).
  { intros k st Hin%elem_of_map_to_list. by apply (Hs k st). }
  assert (Hrows : forall x, x ∈ map fst rows -> x = ID_TIMELINE_CHANGES).
  { intros x. unfold rows. destruct changes; simpl.
    - by intros ->%list_elem_of_singleton.
    - by intros ?%elem_of_nil. }
  rewrite json_object_NoDup.
  2:{ rewrite map_app. apply NoDup_app. split; [|split].
      - replace (map fst (map section_of (map_to_list (settings e))))
          with (json_key <$> (map_to_list (settings e)).*1)
          by (rewrite <- list_fmap_compose; symmetry; apply map_map).
        apply NoDup_fmap_2_strong; [|apply NoDup_fst_map_to_list].
        intros k k' [[k0 st] [-> Hin]]%list_elem_of_fmap
                    [[k1 st'] [-> Hin']]%list_elem_of_fmap.
        apply json_key_inj; [by apply (Hkeys _ _ Hin) | by apply (Hkeys _ _ Hin')].
      - intros x Hx Hx'. apply Hrows in Hx' as ->.
        apply list_elem_of_fmap in Hx as (y & Heq & Hy).
        apply list_elem_of_fmap in Hy as ([k st] & -> & Hin).
        simpl in Heq. symmetry in Heq. revert Heq.
        apply json_key_not_timeline_changes. by apply (Hkeys _ _ Hin).
      - unfold rows. destruct changes; simpl; [apply NoDup_singleton | apply NoDup_nil_2]. }
  unfold from_json. rewrite foldM_app.
  rewrite sections_reload.
  - rewrite list_to_map_to_list, union_init by done. cbn [Eff.bind].
    assert (Hr : foldM from_json_section rows (settings e) = ([], Ok (settings e))).
    { unfold rows. by destruct changes. }
    rewrite Hr. simpl. by destruct e.
  - apply NoDup_fst_map_to_list.
  - intros k st Hin. destruct (Hkeys _ _ Hin) as [Hk Hst]. split; [done|]. split; [done|].
    simpl. rewrite !lookup_insert. repeat case_decide; subst; try done.
Qed.

Lemma export_json_from_json_witness :
  exists evs e doc',
    @from_json Samples.sample_builtins Samples.document = (evs, Ok e) /\
    export_json e (Some Samples.changes) = Ok doc' /\
    @from_json Samples.sample_builtins doc' = ([], Ok e).
Proof.
  destruct (@from_json Samples.sample_builtins Samples.document) as [evs [e|err]] eqn:Hrun;
    [|discriminate].
  destruct (export_json_from_json (H:=Samples.sample_builtins)
              Samples.document evs e (Some Samples.changes) Hrun) as (doc' & Hx & Hr).
  exists evs, e, doc'. auto.
Defined.

(** C3, as stated, fails for an editor made with a bitrate of -5 in its
    video settings: the document exported is refused on reloading. *)
Lemma export_json_from_json_counterexample :
  exists doc',
    export_json (init (Some {[ ID_BITRATE := PInt (-5) ]}) None) None = Ok doc' /\
    forall B : Builtins,
      @from_json B doc' = ([], Err (ValueError (must_be_positive ID_BITRATE))).
Proof.
  eexists. split; [reflexivity|]. intros B. vm_compute. reflexivity.
Qed.

(** ** The loop over the packets (edit) *)

Section Loop.
Context `{EditContexts}.

(** A context after it was given [src_packet]. *)
Definition routed (c : ctx) (src_packet : packet) : ctx :=
  {| attrs := attrs c;
     priv := fst (decode_edit_encode (attrs c) (priv c) src_packet) |}.





Lemma foldM_mux (dst_packets : list packet) :
  foldM (fun dst_packet (_ : unit) => emit (Mux dst_packet)) dst_packets tt
  = (map Mux dst_packets, Ok tt).
Proof.
  induction dst_packets as [|d l IH]; [done|]. simpl. by rewrite IH.
Qed.

(** One turn of the loop. *)
Lemma edit_loop_cons src_packet rest ctx_map :
  edit_loop (src_packet :: rest) ctx_map =
  match dict_get (pk_stream src_packet) ctx_map with
  | None => ([Demux src_packet], Err (Raised KKeyError))
  | Some c =>
      if is_done (attrs c) (priv c) then
        (Demux src_packet :: fst (edit_loop rest ctx_map), snd (edit_loop rest ctx_map))
      else
        let ctx_map' := dict_set (pk_stream src_packet) (routed c src_packet) ctx_map in
        let turn := Demux src_packet :: DecodeEditEncode (pk_stream src_packet) src_packet
                    :: map Mux (snd (decode_edit_encode (attrs c) (priv c) src_packet)) in
        if all_done ctx_map' then (turn, Ok ctx_map')
        else ((turn ++ fst (edit_loop rest ctx_map'))%list, snd (edit_loop rest ctx_map'))
  end.
Proof.
  cbn [edit_loop]. destruct (dict_get (pk_stream src_packet) ctx_map) as [c|]; [|done].
  destruct (is_done (attrs c) (priv c)).
  - unfold emit. cbn [Eff.bind]. by destruct (edit_loop rest ctx_map).
  - unfold routed.
    destruct (decode_edit_encode (attrs c) (priv c) src_packet) as [st outs].
    rewrite foldM_mux. unfold emit. cbn [Eff.bind fst snd app].
    destruct (all_done _).
    + unfold ret. cbv iota beta. by rewrite app_nil_r.
    + by destruct (edit_loop rest _).
Qed.













End Loop.



Definition is_loop_event (ev : event) : bool :=
  match ev with
  | Demux _ | DecodeEditEncode _ _ | Mux _ => true
  | _ => false
  end.


(** ** The stream sought before the loop (edit) *)

(** *** The order of the first timestamps *)

Lemma insert_by_snd_elem_of {K} (x y : K * Q) l :
  y ∈ insert_by_snd x l <-> y = x \/ y ∈ l.
Proof.
  induction l as [|z l IH]; simpl.
  - rewrite list_elem_of_singleton. split; [auto | by intros [?|?%elem_of_nil]].
  - destruct (Qle_bool (snd x) (snd z)).
    + by rewrite elem_of_cons.
    + rewrite !elem_of_cons, IH. tauto.
Qed.

Lemma sorted_by_snd_elem_of {K} (y : K * Q) l : y ∈ sorted_by_snd l <-> y ∈ l.
Proof.
  induction l as [|x l IH]; [done|]. unfold sorted_by_snd in *. simpl.
  rewrite insert_by_snd_elem_of, IH, elem_of_cons. tauto.
Qed.

Definition snd_le {K} (x y : K * Q) : Prop := (snd x <= snd y)%Q.

Lemma insert_by_snd_sorted {K} (x : K * Q) l :
  StronglySorted snd_le l -> StronglySorted snd_le (insert_by_snd x l).
Proof.
  induction 1 as [|z l Hl IH Hz]; simpl.
  - repeat constructor.
  - destruct (Qle_bool (snd x) (snd z)) eqn:Hle.
    + apply Qle_bool_iff in Hle. constructor; [by constructor|].
      constructor; [done|]. eapply Forall_impl; [exact Hz|].
      intros y Hy. unfold snd_le in *. by eapply Qle_trans.
    + constructor; [done|]. apply List.Forall_forall. intros y Hy.
      apply (proj2 (list_elem_of_In _ _)), insert_by_snd_elem_of in Hy as [->|Hy].
      * unfold snd_le. apply Qlt_le_weak, Qnot_le_lt.
        intros Hle'%Qle_bool_iff. congruence.
      * rewrite List.Forall_forall in Hz. apply Hz. by apply list_elem_of_In.
Qed.

Lemma sorted_by_snd_sorted {K} (l : list (K * Q)) : StronglySorted snd_le (sorted_by_snd l).
Proof.
  induction l as [|x l IH]; [constructor|]. by apply insert_by_snd_sorted.
Qed.

(** The first element of a sorted list that passes a test is least among
    those that pass it. *)
Lemma first_of_sorted {K} (P : K -> bool) (l : list (K * Q)) i :
  StronglySorted snd_le l ->
  py_index (filter (fun k => P k) (map fst l)) 0 = Ok i ->
  P i = true /\
  exists ti, (i, ti) ∈ l /\ forall j tj, (j, tj) ∈ l -> P j = true -> (ti <= tj)%Q.
Proof.
  induction 1 as [|[k t] l Hl IH Hk]; [done|]. cbn [map fst].
  destruct (P k) eqn:HP.
  - rewrite filter_cons_True by (cbv beta; rewrite HP; exact I).
    intros [= <-]. split; [done|]. exists t. split; [by left|].
    intros j tj [[= -> ->]|Hin]%elem_of_cons _; [apply Qle_refl|].
    rewrite List.Forall_forall in Hk. apply (Hk (j, tj)). by apply list_elem_of_In.
  - rewrite filter_cons_False by (cbv beta; rewrite HP; intros []).
    intros Hi. destruct (IH Hi) as (HPi & ti & Hin & Hmin). split; [done|].
    exists ti. split; [by right|].
    intros j tj [[= -> ->]|Hin']%elem_of_cons HPj; [congruence|]. by apply (Hmin j).
Qed.

(** *** The loops that read the first packets and prepare the contexts *)

(** The timestamp of the first packet of stream [i]. *)
Definition first_timestamp (source : source_container) (i : nat) : option Q :=
  match first_packet source i with
  | Some first_pkt =>
      match pk_dts first_pkt with
      | Some dts => Some (inject_Z dts * pk_time_base first_pkt)%Q
      | None => None
      end
  | None => None
  end.

Definition is_probe (ev : event) : bool :=
  match ev with SeekBeginning _ | DemuxFirst _ _ => true | _ => false end.

Definition is_prepare (ev : event) : bool :=
  match ev with PrepareForEditing _ _ => true | _ => false end.

Lemma dict_get_set_is_Some {K V} `{EqDecision K} (k j : K) (v : V) d :
  is_Some (dict_get j (dict_set k v d)) <-> j = k \/ is_Some (dict_get j d).
Proof.
  rewrite dict_get_set. destruct (decide (k = j)) as [->|Hne].
  - split; eauto.
  - split; [auto | intros [->|?]; [done|auto]].
Qed.

Section Phases.
Context `{EditContexts}.

Lemma probe_events source l acc evs r :
  foldM (probe source) l acc = (evs, r) -> Forall (fun ev => is_probe ev = true) evs.
Proof.
  revert acc evs r. induction l as [|[idx c] l IH]; intros [cm fp] evs r; simpl.
  - intros [= <- _]. constructor.
  - destruct (first_packet source (ctx_src (attrs c))) as [first_pkt|];
      [|intros [= <- _]; by repeat constructor].
    destruct (pk_dts first_pkt) as [dts|]; [|intros [= <- _]; by repeat constructor].
    simpl. destruct (foldM _ l _) as [evs' r'] eqn:Hrest. intros [= <- _].
    repeat constructor. by eapply IH.
Qed.

Lemma probe_result source l cm0 fp0 evs cm1 fp1 :
  foldM (probe source) l (cm0, fp0) = (evs, Ok (cm1, fp1)) ->
  (forall j tj, (j, tj) ∈ fp1 ->
     (j, tj) ∈ fp0 \/
     exists c, (j, c) ∈ l /\ first_timestamp source (ctx_src (attrs c)) = Some tj) /\
  (forall j, is_Some (dict_get j fp1) <-> is_Some (dict_get j fp0) \/ j ∈ map fst l) /\
  (forall j, is_Some (dict_get j cm1) <-> is_Some (dict_get j cm0) \/ j ∈ map fst l) /\
  (forall j c1, (j, c1) ∈ cm1 ->
     exists c0, ((j, c0) ∈ cm0 \/ (j, c0) ∈ l) /\ attrs c1 = attrs c0).
Proof.
  revert cm0 fp0 evs. induction l as [|[idx c] l IH]; intros cm0 fp0 evs; simpl.
  - intros [= _ <- <-]. repeat split; try tauto; eauto.
    + intros [?|?%elem_of_nil]; done.
    + intros [?|?%elem_of_nil]; done.
  - unfold first_timestamp in *.
    destruct (first_packet source (ctx_src (attrs c))) as [first_pkt|] eqn:Hfp;
      [|discriminate].
    destruct (pk_dts first_pkt) as [dts|] eqn:Hdts; [|discriminate].
    simpl. destruct (foldM _ l _) as [evs' r'] eqn:Hrest. intros [= _ ->].
    apply IH in Hrest as (Hts & Hfpk & Hcmk & Hattrs).
    split; [|split; [|split]].
    + intros j tj Hin. destruct (Hts j tj Hin) as [Hin'|(c' & Hc' & Hc'ts)].
      * apply elem_of_dict_set in Hin' as [[= -> ->]|?]; [|by left].
        right. exists c. split; [by left|]. by rewrite Hfp, Hdts.
      * right. exists c'. split; [by right|done].
    + intros j. rewrite Hfpk, dict_get_set_is_Some, elem_of_cons. simpl. tauto.
    + intros j. rewrite Hcmk, dict_get_set_is_Some, elem_of_cons. simpl. tauto.
    + intros j c1 Hin. destruct (Hattrs j c1 Hin) as (c0 & [Hc0|Hc0] & Ha).
      * apply elem_of_dict_set in Hc0 as [[= -> ->]|?].
        -- exists c. split; [right; by left|done].
        -- exists c0. split; [by left|done].
      * exists c0. split; [right; by right|done].
Qed.

Lemma prime_result changes l cm0 (v0 : list (nat * nat)) :
  exists evs cm2 valid,
    foldM (prime changes) l (cm0, v0) = (evs, Ok (cm2, valid)) /\
    Forall (fun ev => is_prepare ev = true) evs /\
    (forall j, is_Some (dict_get j valid) <->
               is_Some (dict_get j v0) \/ PrepareForEditing j true ∈ evs) /\
    (forall j b, PrepareForEditing j b ∈ evs -> j ∈ map fst l) /\
    (forall j, is_Some (dict_get j cm2) <-> is_Some (dict_get j cm0) \/ j ∈ map fst l).
Proof.
  revert cm0 v0. induction l as [|[idx c] l IH]; intros cm0 v0; simpl.
  - eexists [], cm0, v0. split; [done|]. split; [constructor|].
    split; [|split].
    + intros j. split; [auto | by intros [?|?%elem_of_nil]].
    + by intros j b ?%elem_of_nil.
    + intros j. split; [auto | by intros [?|?%elem_of_nil]].
  - destruct (prepare_for_editing (attrs c) (priv c) changes) as [st valid] eqn:Hp.
    simpl.
    destruct (IH (dict_set idx {| attrs := attrs c; priv := st |} cm0)
                 (if valid then dict_set idx (ctx_src (attrs c)) v0 else v0))
      as (evs & cm2 & valid' & -> & Hev & Hvalid & Hkeys & Hcm).
    eexists _, cm2, valid'. split; [reflexivity|]. split; [by constructor|].
    split; [|split].
    + intros j. rewrite Hvalid, elem_of_cons. destruct valid.
      * rewrite dict_get_set_is_Some. split.
        -- intros [[->|?]|?]; auto.
        -- intros [?|[[= ->]|?]]; auto.
      * split; [intros [?|?]; auto | intros [?|[[=]|?]]; auto].
    + intros j b [[= -> _]|Hin]%elem_of_cons; [by left|]. right. by eapply Hkeys.
    + intros j. rewrite Hcm, dict_get_set_is_Some, elem_of_cons. simpl. tauto.
Qed.

End Phases.

(** *** The phases of [edit] *)

(** The events after the last one that passes [f]. *)
Fixpoint after_last (f : event -> bool) (evs : list event) : list event :=
  match evs with
  | [] => []
  | ev :: evs' =>
      if existsb f evs' then after_last f evs'
      else if f ev then evs' else ev :: evs'
  end.

Lemma after_last_app f evs1 ev evs2 :
  f ev = true -> existsb f evs2 = false -> after_last f (evs1 ++ ev :: evs2) = evs2.
Proof.
  intros Hev Hno. induction evs1 as [|x evs1 IH]; simpl.
  - by rewrite Hno, Hev.
  - rewrite existsb_app. simpl. rewrite Hev, orb_true_r. exact IH.
Qed.

Definition is_setup (ev : event) : bool :=
  match ev with Log _ | OpenSource _ | OpenDest _ | CloseDest | CloseSource => true
           | _ => false end.

Definition is_flush (ev : event) : bool :=
  match ev with Flush _ => true | _ => false end.

Section EditPhases.
Context `{Builtins} `{EditContexts}.
Variable self : editor.

Lemma edit_loop_events packets ctx_map :
  Forall (fun ev => is_loop_event ev = true) (fst (edit_loop packets ctx_map)).
Proof.
  revert ctx_map. induction packets as [|p rest IH]; intros ctx_map; [constructor|].
  rewrite edit_loop_cons.
  destruct (dict_get (pk_stream p) ctx_map) as [c|]; [|by repeat constructor].
  destruct (is_done (attrs c) (priv c)); [by constructor|].
  assert (Hmux : forall l : list packet, Forall (fun ev => is_loop_event ev = true) (map Mux l)).
  { intros l. induction l; by constructor. }
  cbv zeta. destruct (all_done (dict_set _ _ _)); cbn [fst app].
  - by repeat constructor.
  - repeat constructor. apply Forall_app. split; [apply Hmux | apply IH].
Qed.

Lemma foldM_flush (l : list nat) :
  foldM (fun j (_ : unit) => emit (Flush j)) l tt = (map Flush l, Ok tt).
Proof. induction l as [|j l IH]; [done|]. simpl. by rewrite IH. Qed.

(** The branch of [edit] taken when some stream is valid: one
    [seek_beginning], then the loop and the flush. *)
Lemma edit_valid_streams_some source dest ctx_map streams_ordered valid_streams src_path
  first_ctx :
  valid_streams <> [] ->
  py_index (filter (fun idx => bool_decide (is_Some (dict_get idx valid_streams)))
                   streams_ordered) 0 = Ok first_ctx ->
  is_Some (dict_get first_ctx ctx_map) ->
  exists rest,
    fst (edit_valid_streams source dest ctx_map streams_ordered valid_streams src_path)
    = SeekBeginning first_ctx :: rest /\
    Forall (fun ev => is_loop_event ev || is_flush ev = true) rest.
Proof.
  intros Hne Hfirst [c Hc]. unfold edit_valid_streams.
  destruct valid_streams as [|v valid_streams]; [done|]. cbn [length Nat.ltb Nat.leb].
  rewrite Hfirst. cbn [lift Eff.bind app]. rewrite Hc.
  set (loop := edit_loop _ _). pose proof (edit_loop_events _ _ : Forall _ (fst loop)) as Hl.
  destruct loop as [evs [cm|e]]; cbn [emit Eff.bind app fst] in *.
  - rewrite foldM_flush. cbn [fst app]. eexists. split; [reflexivity|].
    apply Forall_app. split.
    + eapply Forall_impl; [exact Hl|]. intros ev ->. done.
    + clear. induction (seq _ _); by constructor.
  - eexists. split; [reflexivity|].
    eapply Forall_impl; [exact Hl|]. intros ev ->. done.
Qed.

(** The events of this [if] in either branch. *)
Lemma edit_valid_streams_events source dest ctx_map streams_ordered valid_streams src_path :
  Forall (fun ev => is_loop_event ev || is_flush ev || is_setup ev || is_probe ev = true)
    (fst (edit_valid_streams source dest ctx_map streams_ordered valid_streams src_path)).
Proof.
  unfold edit_valid_streams. destruct (0 <? length valid_streams)%nat; [|by repeat constructor].
  destruct (py_index _ 0) as [first_ctx|e]; cbn [lift Eff.bind fst]; [|constructor].
  destruct (dict_get first_ctx ctx_map) as [c|]; [|constructor].
  set (loop := edit_loop _ _). pose proof (edit_loop_events _ _ : Forall _ (fst loop)) as Hl.
  destruct loop as [evs [cm|e]]; cbn [emit Eff.bind app fst] in *.
  - rewrite foldM_flush. cbn [fst app]. constructor; [done|].
    apply Forall_app. split.
    + eapply Forall_impl; [exact Hl|]. intros ev ->. done.
    + clear. induction (seq _ _); by constructor.
  - constructor; [done|]. eapply Forall_impl; [exact Hl|]. intros ev ->. done.
Qed.

(** The branch taken when no stream is valid. *)
Lemma edit_valid_streams_none source dest ctx_map streams_ordered src_path :
  edit_valid_streams source dest ctx_map streams_ordered [] src_path
  = ([Log (Warning (EmptyRecording src_path))], Ok tt).
Proof. reflexivity. Qed.

End EditPhases.

Section EditRun.
Context `{Builtins} `{EditContexts}.
Variable self : editor.

(** [edit], phase by phase. *)
Lemma edit_run source time_base resolve src_path changes dst_path :
  let setup := [Log (Info (StartedEditing src_path)); OpenSource (resolve src_path);
                OpenDest (resolve dst_path)] in
  let closing := [Log (Info (FinishedEditing (resolve src_path) (resolve dst_path)));
                  CloseDest; CloseSource] in
  let pd := prepare_destination self (streams source) time_base in
  edit self source time_base resolve src_path changes dst_path =
  match snd pd with
  | Err e => ((setup ++ map Log (fst pd))%list, Err e)
  | Ok p =>
      let pr := foldM (probe source) (p_ctx_map p) (p_ctx_map p, []) in
      match snd pr with
      | Err e => ((setup ++ map Log (fst pd) ++ fst pr)%list, Err e)
      | Ok (cm1, first_pkts) =>
          let pm := foldM (prime changes) cm1 (cm1, []) in
          match snd pm with
          | Err e => ((setup ++ map Log (fst pd) ++ fst pr ++ fst pm)%list, Err e)
          | Ok (cm2, valid_streams) =>
              let ev := edit_valid_streams source (p_dst p) cm2
                          (map fst (sorted_by_snd first_pkts)) valid_streams
                          (resolve src_path) in
              match snd ev with
              | Err e =>
                  ((setup ++ map Log (fst pd) ++ fst pr ++ fst pm ++ fst ev)%list, Err e)
              | Ok _ =>
                  ((setup ++ map Log (fst pd) ++ fst pr ++ fst pm ++ fst ev ++ closing)%list,
                   Ok tt)
              end
          end
      end
  end.
Proof.
  intros setup closing pd. unfold edit. fold pd.
  destruct pd as [lp [p|e]]; cbn [relabel emit Eff.bind fst snd app]; [|done].
  destruct (foldM (probe source) _ _) as [le [[cm1 first_pkts]|e]];
    cbn [Eff.bind fst snd app]; [|done].
  destruct (foldM (prime changes) _ _) as [lm [[cm2 valid_streams]|e]];
    cbn [Eff.bind fst snd app]; [|done].
  destruct (edit_valid_streams _ _ _ _ _ _) as [lv [[]|e]];
    cbn [Eff.bind fst snd app]; [|done].
  reflexivity.
Qed.

(** The contexts [prepare_destination] returns have the source stream of
    their key. *)
Lemma prepare_destination_ctx_src source time_base evs p index c :
  prepare_destination self source time_base = (evs, Ok p) ->
  (index, c) ∈ p_ctx_map p -> ctx_src (attrs c) = index.
Proof.
  intros Hp Hin.
  destruct (prepare_destination_entry self _ _ _ _ _ _ Hp Hin)
    as (src & d & c0 & _ & _ & (cc & _ & Hsrc & _) & _ & _ & Hattrs).
  simpl in Hattrs. destruct (attrs c0) as [s j fps|s j].
  - destruct Hattrs as (-> & _). done.
  - by rewrite Hattrs.
Qed.

End EditRun.

Lemma existsb_Forall_false {A} (f g : A -> bool) (l : list A) :
  Forall (fun x => g x = true) l -> (forall x, g x = true -> f x = false) ->
  existsb f l = false.
Proof.
  intros Hl Hfg. induction Hl as [|x l Hx _ IH]; [done|]. simpl. by rewrite (Hfg x Hx), IH.
Qed.

Lemma existsb_false_elem_of {A} (f : A -> bool) (l : list A) x :
  existsb f l = false -> x ∈ l -> f x = false.
Proof.
  intros Hl Hx. destruct (f x) eqn:Hf; [|done].
  rewrite <- Hl. symmetry. apply existsb_exists. exists x. split; [|done].
  by apply list_elem_of_In.
Qed.

Lemma Forall_map_Log (l : list log) (g : event -> bool) :
  (forall m, g (Log m) = true) -> Forall (fun ev => g ev = true) (map Log l).
Proof. intros Hg. induction l; constructor; auto. Qed.

Lemma py_index_filter_first {A} (P : A -> bool) (l : list A) x :
  x ∈ l -> P x = true -> exists y, py_index (filter (fun a => P a) l) 0 = Ok y.
Proof.
  intros Hx HP. assert (Hin : x ∈ filter (fun a => P a) l).
  { apply list_elem_of_filter. split; [by rewrite HP | done]. }
  destruct (filter (fun a => P a) l) as [|y l']; [by apply elem_of_nil in Hin|].
  by exists y.
Qed.

Section Seek.
Context `{Builtins} `{EditContexts}.
Variable self : editor.

(** When some context has something to edit, what follows the preparation
    of the contexts starts with the one [seek_beginning] to the valid
    stream whose first timestamp is least. *)
Lemma edit_after_priming source time_base resolve src_path changes dst_path evs r j0 :
  edit self source time_base resolve src_path changes dst_path = (evs, r) ->
  PrepareForEditing j0 true ∈ evs ->
  exists i ti rest,
    after_last is_prepare evs = SeekBeginning i :: rest /\
    Forall (fun ev => is_loop_event ev || is_flush ev || is_setup ev = true) rest /\
    PrepareForEditing i true ∈ evs /\
    first_timestamp source i = Some ti /\
    forall j, PrepareForEditing j true ∈ evs ->
              exists tj, first_timestamp source j = Some tj /\ (ti <= tj)%Q.
Proof.
  rewrite edit_run. cbv zeta.
  set (setup := [_; _; _]).
  assert (Hsetup : Forall (fun ev => is_setup ev = true) setup) by (by repeat constructor).
  destruct (prepare_destination self (streams source) time_base) as [lp [p|e]] eqn:Hpd;
    cbn [fst snd].
  2:{ intros [= <- _] Hin. exfalso.
      assert (Hno : existsb is_prepare (setup ++ map Log lp) = false).
      { apply (existsb_Forall_false _ is_setup); [|by intros []].
        apply Forall_app. split; [done|]. by apply Forall_map_Log. }
      by apply (existsb_false_elem_of _ _ _ Hno) in Hin. }
  assert (Hlogs : Forall (fun ev => is_setup ev = true) (map Log lp))
    by (by apply Forall_map_Log).
  destruct (foldM (probe source) _ _) as [le rp] eqn:Hprobe. cbn [fst snd].
  pose proof (probe_events _ _ _ _ _ Hprobe) as Hle.
  destruct rp as [[cm1 first_pkts]|e].
  2:{ intros [= <- _] Hin. exfalso.
      assert (Hno : existsb is_prepare (setup ++ map Log lp ++ le) = false).
      { rewrite !existsb_app.
        rewrite (existsb_Forall_false _ is_setup setup), (existsb_Forall_false _ is_setup (map Log lp)),
          (existsb_Forall_false _ is_probe le); try done; by intros []. }
      by apply (existsb_false_elem_of _ _ _ Hno) in Hin. }
  apply probe_result in Hprobe as (Hts & Hfpk & Hcm1 & Hattrs).
  destruct (prime_result changes cm1 cm1 []) as (lm & cm2 & valid & -> & Hlm & Hvalid & Hmk & Hcm2).
  cbn [fst snd].
  set (ev := edit_valid_streams _ _ _ _ _ _).
  set (closing := [_; _; _]).
  set (tail := match snd ev with Ok _ => closing | Err _ => [] end).
  assert (Htail : Forall (fun ev => is_setup ev = true) tail).
  { unfold tail. destruct (snd ev); [by repeat constructor | constructor]. }
  intros Hrun Hin.
  assert (Hevs : evs = (setup ++ map Log lp ++ le ++ lm ++ fst ev ++ tail)%list).
  { unfold tail. destruct (snd ev); injection Hrun as <- _; [done|].
    by rewrite app_nil_r. }
  clear Hrun.
  pose proof (edit_valid_streams_events source (p_dst p) cm2
                (map fst (sorted_by_snd first_pkts)) valid (resolve src_path)) as Hev.
  fold ev in Hev.
  assert (Hnoprep : existsb is_prepare (fst ev ++ tail) = false).
  { rewrite existsb_app.
    rewrite (existsb_Forall_false _ _ _ Hev) by (by intros []).
    rewrite (existsb_Forall_false _ _ _ Htail) by (by intros []). done. }
  assert (Hprep : forall j b, PrepareForEditing j b ∈ evs -> PrepareForEditing j b ∈ lm).
  { intros j b. rewrite Hevs.
    intros [Hi|[Hi|[Hi|[Hi|Hi]%elem_of_app]%elem_of_app]%elem_of_app]%elem_of_app;
      [| | |done|]; exfalso.
    - rewrite List.Forall_forall in Hsetup. by apply list_elem_of_In, Hsetup in Hi.
    - rewrite List.Forall_forall in Hlogs. by apply list_elem_of_In, Hlogs in Hi.
    - rewrite List.Forall_forall in Hle. by apply list_elem_of_In, Hle in Hi.
    - by apply (existsb_false_elem_of _ _ _ Hnoprep) in Hi. }
  assert (Hlm_evs : forall j b, PrepareForEditing j b ∈ lm -> PrepareForEditing j b ∈ evs).
  { intros j b Hi. rewrite Hevs. rewrite !elem_of_app. auto. }
  set (P := fun idx : nat => bool_decide (is_Some (dict_get idx valid))).
  assert (HP : forall j, P j = true <-> PrepareForEditing j true ∈ lm).
  { intros j. unfold P. rewrite bool_decide_eq_true, Hvalid. split; [|auto].
    intros [[? Hd]|?]; [discriminate|done]. }
  assert (Hstamp : forall j, PrepareForEditing j true ∈ lm ->
            exists tj, (j, tj) ∈ first_pkts).
  { intros j Hj. apply Hmk in Hj. apply dict_get_is_Some, Hcm1 in Hj.
    assert (Hj' : is_Some (dict_get j first_pkts)).
    { apply Hfpk. right. destruct Hj as [Hj|Hj]; [by apply dict_get_is_Some|done]. }
    destruct Hj' as [tj Htj]. exists tj. by apply dict_get_elem_of. }
  assert (Hsrc : forall j tj, (j, tj) ∈ first_pkts -> first_timestamp source j = Some tj).
  { intros j tj Hj. destruct (Hts j tj Hj) as [?%elem_of_nil|(c & Hc & Hct)]; [done|].
    by rewrite (prepare_destination_ctx_src self _ _ _ _ _ _ Hpd Hc) in Hct. }
  apply Hprep in Hin.
  destruct (Hstamp j0 Hin) as [t0 Ht0].
  destruct (py_index_filter_first P (map fst (sorted_by_snd first_pkts)) j0) as [i Hi].
  { apply list_elem_of_fmap. exists (j0, t0). split; [done|]. by apply sorted_by_snd_elem_of. }
  { by apply HP. }
  destruct (first_of_sorted P _ i (sorted_by_snd_sorted first_pkts) Hi)
    as (HPi & ti & Hti & Hmin).
  apply (proj1 (sorted_by_snd_elem_of _ _)) in Hti. apply HP in HPi.
  destruct (edit_valid_streams_some source (p_dst p) cm2
              (map fst (sorted_by_snd first_pkts)) valid (resolve src_path) i)
    as (rest & Hrest & Hloop).
  { intros ->. apply HP in Hin. unfold P in Hin. apply bool_decide_eq_true in Hin.
    by destruct Hin. }
  { exact Hi. }
  { apply Hcm2. right. by eapply Hmk. }
  fold ev in Hrest.
  exists i, ti, (rest ++ tail)%list. split; [|split; [|split; [|split]]].
  - destruct (exists_last (l:=lm)) as (lm' & x & Hlm').
    { intros ->. by apply elem_of_nil in Hin. }
    rewrite Hevs, Hlm', Hrest in *.
    replace (setup ++ map Log lp ++ le ++ (lm' ++ [x]) ++ (SeekBeginning i :: rest) ++ tail)%list
      with ((setup ++ map Log lp ++ le ++ lm') ++ x :: (SeekBeginning i :: rest) ++ tail)%list
      by (rewrite <- !app_assoc; reflexivity).
    apply after_last_app; [|done].
    apply Forall_app in Hlm as [_ Hx]. by inversion Hx.
  - apply Forall_app. split.
    + eapply Forall_impl; [exact Hloop|]. intros e He. by rewrite He.
    + eapply Forall_impl; [exact Htail|]. intros e ->. by rewrite orb_true_r.
  - by apply Hlm_evs.
  - by apply Hsrc.
  - intros j Hj%Hprep. destruct (Hstamp j Hj) as [tj Htj]. exists tj.
    split; [by apply Hsrc|]. apply (Hmin j); [by apply sorted_by_snd_elem_of | by apply HP].
Qed.

(** A list of pairs in which no key is bound is empty. *)
Lemma dict_no_key {V} (d : list (nat * V)) :
  (forall j, ~ is_Some (dict_get j d)) -> d = [].
Proof.
  destruct d as [|[k v] d]; [done|]. intros Hno. exfalso. apply (Hno k).
  rewrite dict_get_cons. destruct (decide (k = k)); [eauto|done].
Qed.

(** When no context has something to edit, [edit] goes from the
    preparation of the contexts to the warning and the closing. *)
Lemma edit_nothing_valid source time_base resolve src_path changes dst_path evs r
  lp p le probed :
  prepare_destination self (streams source) time_base = (lp, Ok p) ->
  foldM (probe source) (p_ctx_map p) (p_ctx_map p, []) = (le, Ok probed) ->
  edit self source time_base resolve src_path changes dst_path = (evs, r) ->
  (forall i, PrepareForEditing i true ∉ evs) ->
  r = Ok tt /\
  exists lm,
    Forall (fun ev => exists i, ev = PrepareForEditing i false) lm /\
    evs = ([Log (Info (StartedEditing src_path)); OpenSource (resolve src_path);
            OpenDest (resolve dst_path)]
           ++ map Log lp ++ le ++ lm
           ++ [Log (Warning (EmptyRecording (resolve src_path)));
               Log (Info (FinishedEditing (resolve src_path) (resolve dst_path)));
               CloseDest; CloseSource])%list.
Proof.
  intros Hpd Hprobe. rewrite edit_run. cbv zeta. rewrite Hpd. cbn [fst snd].
  rewrite Hprobe. cbn [fst snd]. destruct probed as [cm1 first_pkts].
  destruct (prime_result changes cm1 cm1 []) as (lm & cm2 & valid & -> & Hlm & Hvalid & _ & _).
  cbn [fst snd]. intros Hrun Hnone.
  assert (Hlm_evs : forall ev, ev ∈ lm -> ev ∈ evs).
  { intros ev Hev. destruct (snd (edit_valid_streams _ _ _ _ _ _)); injection Hrun as <- _;
      cbn [app]; do 3 (apply elem_of_cons; right); rewrite !elem_of_app; auto. }
  assert (valid = []) as ->.
  { apply dict_no_key. intros j [[? Hd]|Hj]%Hvalid; [discriminate|].
    by apply (Hnone j), Hlm_evs. }
  rewrite edit_valid_streams_none in Hrun. cbn [fst snd] in Hrun. injection Hrun as <- <-.
  split; [done|]. exists lm. split; [|done].
  apply Forall_forall. intros ev Hev. pose proof (Hlm_evs ev Hev) as Hev'.
  rewrite List.Forall_forall in Hlm. apply list_elem_of_In, Hlm in Hev.
  destruct ev as [| | | | |i b| | | | | |]; try discriminate.
  destruct b; [by apply Hnone in Hev'|eauto].
Qed.

End Seek.

(** C5, as amended.  When some context has something to edit, the events
    of [edit] after the contexts were prepared start with a
    [seek_beginning], the only one, and it is issued to the stream whose
    first packet has the least timestamp among the valid streams, those
    whose [prepare_for_editing] returned true. *)
Theorem edit_seeks_earliest_valid `{Builtins} `{EditContexts}
  (self : editor) (source : source_container) (time_base : nat -> Q)
  (resolve : string -> string) (src_path : string) (changes : list TimelineChange)
  (dst_path : string) (evs : list event) (r : result unit) (j0 : nat) :
  edit self source time_base resolve src_path changes dst_path = (evs, r) ->
  PrepareForEditing j0 true ∈ evs ->
  exists i ti rest,
    after_last is_prepare evs = SeekBeginning i :: rest /\
    (forall i', SeekBeginning i' ∉ rest) /\
    PrepareForEditing i true ∈ evs /\
    first_timestamp source i = Some ti /\
    forall j, PrepareForEditing j true ∈ evs ->
              exists tj, first_timestamp source j = Some tj /\ (ti <= tj)%Q.
Proof.
  intros Hrun Hj0.
  destruct (edit_after_priming self _ _ _ _ _ _ _ _ _ Hrun Hj0)
    as (i & ti & rest & Hafter & Hrest & Hi & Hti & Hmin).
  exists i, ti, rest. split; [done|]. split; [|done].
  intros i' Hin. rewrite List.Forall_forall in Hrest.
  by apply list_elem_of_In, Hrest in Hin.
Qed.

Lemma edit_seeks_earliest_valid_witness :
  let run := @edit Samples.sample_builtins Samples.two_packets_each Samples.sample_editor
               Samples.container Samples.coarse_time_base (fun path => path)
               "in.mp4" Samples.changes "out.mp4" in
  PrepareForEditing 0 true ∈ fst run /\
  exists i ti rest,
    after_last is_prepare (fst run) = SeekBeginning i :: rest /\
    (forall i', SeekBeginning i' ∉ rest) /\
    PrepareForEditing i true ∈ fst run /\
    first_timestamp Samples.container i = Some ti /\
    forall j, PrepareForEditing j true ∈ fst run ->
              exists tj, first_timestamp Samples.container j = Some tj /\ (ti <= tj)%Q.
Proof.
  intros run.
  assert (Hin : PrepareForEditing 0 true ∈ fst run).
  { apply list_elem_of_lookup. exists 9%nat. reflexivity. }
  split; [exact Hin|].
  apply (edit_seeks_earliest_valid (H:=Samples.sample_builtins)
           (H0:=Samples.two_packets_each) Samples.sample_editor Samples.container
           Samples.coarse_time_base (fun path => path) "in.mp4" Samples.changes "out.mp4"
           (fst run) (snd run) 0%nat); [|exact Hin].
  unfold run. by destruct (edit _ _ _ _ _ _ _).
Defined.

(** C5, as stated, fails when the stream whose first packet is earliest has
    nothing to edit: the audio stream (index 2) starts at 0, before the
    video stream (index 0), both are provisioned, and with only the video
    context valid the seek goes to the video stream. *)
Lemma edit_seek_counterexample :
  let evs := fst (@edit Samples.sample_builtins Samples.video_only Samples.sample_editor
                    Samples.container Samples.coarse_time_base (fun path => path)
                    "in.mp4" Samples.changes "out.mp4") in
  (exists rest, after_last is_prepare evs = SeekBeginning 0 :: rest) /\
  DemuxFirst 2 (Some (Samples.pkt 2 0 1)) ∈ evs /\
  exists t0 t2,
    first_timestamp Samples.container 0 = Some t0 /\
    first_timestamp Samples.container 2 = Some t2 /\
    (t2 < t0)%Q.
Proof.
  split; [eexists; reflexivity|]. split.
  - apply list_elem_of_lookup. exists 8%nat. reflexivity.
  - eexists _, _. split; [reflexivity|]. split; [reflexivity|]. reflexivity.
Qed.

(** C7.  When [edit] has come to prepare the contexts (the provisioning and
    the reading of the first packets have returned) and no context's
    [prepare_for_editing] returns true, [edit] returns normally, and its
    events are: the opening, those of the provisioning, those of the reading
    of the first packet of each stream, the preparation of the contexts, and
    then only the warning, the closing message, the closing of the
    destination and of the source.  No packet is demultiplexed by the loop,
    and nothing is decoded, multiplexed or flushed at all. *)
Theorem edit_without_valid_stream `{Builtins} `{EditContexts}
  (self : editor) (source : source_container) (time_base : nat -> Q)
  (resolve : string -> string) (src_path : string) (changes : list TimelineChange)
  (dst_path : string) (evs : list event) (r : result unit)
  (lp : list log) (p : provision) (le : list event)
  (probed : list (nat * ctx) * list (nat * Q)) :
  prepare_destination self (streams source) time_base = (lp, Ok p) ->
  foldM (probe source) (p_ctx_map p) (p_ctx_map p, []) = (le, Ok probed) ->
  edit self source time_base resolve src_path changes dst_path = (evs, r) ->
  (forall i, PrepareForEditing i true ∉ evs) ->
  r = Ok tt /\
  (exists lm,
     Forall (fun ev => exists i, ev = PrepareForEditing i false) lm /\
     evs = ([Log (Info (StartedEditing src_path)); OpenSource (resolve src_path);
             OpenDest (resolve dst_path)]
            ++ map Log lp ++ le ++ lm
            ++ [Log (Warning (EmptyRecording (resolve src_path)));
                Log (Info (FinishedEditing (resolve src_path) (resolve dst_path)));
                CloseDest; CloseSource])%list) /\
  (forall ev, ev ∈ evs -> is_loop_event ev = false /\ is_flush ev = false).
Proof.
  intros Hpd Hprobe Hrun Hnone.
  destruct (edit_nothing_valid self _ _ _ _ _ _ _ _ _ _ _ _ Hpd Hprobe Hrun Hnone)
    as (Hr & lm & Hlm & Hevs).
  split; [done|]. split; [eauto|].
  pose proof (probe_events _ _ _ _ _ Hprobe) as Hle.
  intros ev. rewrite Hevs, !elem_of_app.
  intros [Hev|[Hev|[Hev|[Hev|Hev]]]].
  - repeat (apply elem_of_cons in Hev as [->|Hev]; [done|]). by apply elem_of_nil in Hev.
  - apply list_elem_of_fmap in Hev as (m & -> & _). done.
  - rewrite List.Forall_forall in Hle. apply list_elem_of_In, Hle in Hev. by destruct ev.
  - rewrite List.Forall_forall in Hlm. apply list_elem_of_In, Hlm in Hev as [i ->]. done.
  - repeat (apply elem_of_cons in Hev as [->|Hev]; [done|]). by apply elem_of_nil in Hev.
Qed.

Definition is_valid_prepare (ev : event) : bool :=
  match ev with PrepareForEditing _ true => true | _ => false end.

Lemma no_valid_prepare (evs : list event) :
  existsb is_valid_prepare evs = false -> forall i, PrepareForEditing i true ∉ evs.
Proof. intros Hno i Hin. by apply (existsb_false_elem_of _ _ _ Hno) in Hin. Qed.

Lemma edit_without_valid_stream_witness :
  let run := @edit Samples.sample_builtins Samples.all_inert Samples.sample_editor
               Samples.container Samples.coarse_time_base (fun path => path)
               "in.mp4" Samples.changes "out.mp4" in
  (forall i, PrepareForEditing i true ∉ fst run) /\
  snd run = Ok tt /\
  (forall ev, ev ∈ fst run -> is_loop_event ev = false /\ is_flush ev = false).
Proof.
  intros run.
  assert (Hnone : forall i, PrepareForEditing i true ∉ fst run)
    by (apply no_valid_prepare; reflexivity).
  split; [exact Hnone|].
  pose (pd := @prepare_destination Samples.sample_builtins Samples.all_inert
                Samples.sample_editor (streams Samples.container) Samples.coarse_time_base).
  pose (p := match snd pd with Ok p => p | Err _ => empty_provision end).
  pose (pr := @foldM _ _ _ (@probe Samples.all_inert Samples.container)
                (p_ctx_map p) (p_ctx_map p, [])).
  pose (probed := match snd pr with Ok x => x | Err _ => ([], []) end).
  destruct (edit_without_valid_stream (H:=Samples.sample_builtins) (H0:=Samples.all_inert)
              Samples.sample_editor Samples.container Samples.coarse_time_base
              (fun path => path) "in.mp4" Samples.changes "out.mp4"
              (fst run) (snd run) (fst pd) p (fst pr) probed)
    as (Hr & _ & Hev); [reflexivity | reflexivity | | exact Hnone | ].
  - unfold run. by destruct (edit _ _ _ _ _ _ _).
  - split; [exact Hr | exact Hev].
Defined.

(** ** The segmentation of a transcript (sentence_segmentation) *)

Import Tokenization.

(** C10.  [sentence_segmentation] reads [transcript[0]] before anything
    else: on the empty transcript it raises [IndexError], whatever spaCy
    would return, and returns no segmentation, not even the empty one; on a
    transcript that is not empty this first access returns, giving the first
    token the position 0. *)
Theorem sentence_segmentation_first_access :
  (forall spacy_sents,
     sentence_segmentation spacy_sents [] = Err (Raised KIndexError)) /\
  (forall transcript,
     set_first_start_pos transcript = Err (Raised KIndexError) <-> transcript = []) /\
  (forall transcript, transcript <> [] ->
     exists token rest,
       transcript = token :: rest /\
       set_first_start_pos transcript = Ok (set_start_pos 0 token :: rest)).
Proof.
  split; [done|]. split.
  - intros [|token rest]; split; done.
  - intros [|token rest] Hne; [done|]. by exists token, rest.
Qed.

Lemma sentence_segmentation_first_access_witness :
  exists token rest,
    [ {| text := "hello"; start_time := 0; end_time := 1;
         start_pos := None; index := None; label := None |} ] = token :: rest /\
    set_first_start_pos
      [ {| text := "hello"; start_time := 0; end_time := 1;
           start_pos := None; index := None; label := None |} ]
    = Ok (set_start_pos 0 token :: rest).
Proof.
  apply (proj2 (proj2 sentence_segmentation_first_access)). discriminate.
Defined.

(** *** Positions of the tokens in the raw transcript *)

Lemma length_append (a b : string) :
  String.length (a ++ b) = (String.length a + String.length b)%nat.
Proof.
  induction a as [|c a IH]; [done|].
  change (S (String.length (a ++ b)) = S (String.length a + String.length b)).
  by rewrite IH.
Qed.

Lemma append_empty_r (a : string) : (a ++ "")%string = a.
Proof.
  induction a as [|c a IH]; [done|].
  change (String c (a ++ "") = String c a). by rewrite IH.
Qed.

Lemma append_assoc (a b c : string) : ((a ++ b) ++ c = a ++ (b ++ c))%string.
Proof.
  induction a as [|x a IH]; [done|].
  change (String x ((a ++ b) ++ c) = String x (a ++ (b ++ c))). by rewrite IH.
Qed.

Lemma concat_empty_cons (s : string) (l : list string) :
  String.concat "" (s :: l) = (s ++ String.concat "" l)%string.
Proof. destruct l; cbn [String.concat]; [by rewrite append_empty_r | done]. Qed.

Lemma concat_empty_app (l1 l2 : list string) :
  String.concat "" (l1 ++ l2) = (String.concat "" l1 ++ String.concat "" l2)%string.
Proof.
  induction l1 as [|s l1 IH]; [done|].
  change ((s :: l1) ++ l2)%list with (s :: (l1 ++ l2))%list.
  by rewrite !concat_empty_cons, IH, append_assoc.
Qed.

Lemma len_append (a b : string) : len (a ++ b) = len a + len b.
Proof. unfold len. rewrite length_append. lia. Qed.

(** After the separators were added, the last token has the text it had
    and starts where the texts of the tokens before it end. *)
Lemma add_token_separators_last token rest pos txt :
  start_pos token = Some pos ->
  text <$> last (token :: rest) = Some txt ->
  exists front last1,
    add_token_separators token rest = Ok (front ++ [last1])%list /\
    length front = length rest /\
    text last1 = txt /\
    start_pos last1 = Some (pos + len (String.concat "" (map text front))).
Proof.
  revert token pos. induction rest as [|next_token rest IH]; intros token pos Hpos Hlast.
  - injection Hlast as <-. exists [], token. cbn. by rewrite Z.add_0_r.
  - cbn [add_token_separators]. cbn [set_text start_pos]. rewrite Hpos.
    set (token1 := set_text _ token).
    set (next1 := set_start_pos _ next_token).
    destruct (IH next1 (pos + len (text token1))) as (front & last1 & -> & Hlen & Htext & Hp).
    { done. }
    { rewrite last_cons_cons in Hlast. destruct rest; [done|].
      by rewrite last_cons_cons in *. }
    exists (token1 :: front), last1. cbn [rbind]. split; [done|]. split; [simpl; lia|].
    split; [done|].
    rewrite Hp. f_equal. cbn [map]. rewrite concat_empty_cons, len_append. lia.
Qed.

Lemma imap_proj {B} (p : EditToken -> B) (f : nat -> EditToken -> EditToken) l :
  (forall i token, p (f i token) = p token) -> p <$> imap f l = p <$> l.
Proof.
  revert f. induction l as [|token l IH]; intros f Hf; [done|].
  cbn [imap fmap list_fmap]. rewrite Hf. f_equal. apply IH. intros i x. apply Hf.
Qed.

Lemma index_imap_set_index n l :
  index <$> imap (fun i => set_index (n + i)) l = Some <$> seq n (length l).
Proof.
  revert n. induction l as [|token l IH]; intros n; [done|].
  cbn [imap fmap list_fmap length seq]. rewrite Nat.add_0_r. f_equal.
  rewrite <- IH. f_equal. apply imap_ext. intros i x _. cbn. f_equal. lia.
Qed.

Lemma index_assign_indices transcript :
  index <$> assign_indices transcript = Some <$> seq 0 (length transcript).
Proof. apply (index_imap_set_index 0). Qed.

Lemma raw_transcript_assign_indices transcript :
  raw_transcript (assign_indices transcript) = raw_transcript transcript.
Proof. unfold raw_transcript, assign_indices. f_equal. by apply (imap_proj text). Qed.

Lemma start_pos_assign_indices transcript :
  start_pos <$> assign_indices transcript = start_pos <$> transcript.
Proof. by apply (imap_proj start_pos). Qed.

(** *** Tokens that a sentence of spaCy takes *)

(** A token that starts before the end of one of the sentences. *)
Definition starts_within (nlp_sents : list Span) (token : EditToken) : Prop :=
  exists p sent, start_pos token = Some p /\ sent ∈ nlp_sents /\ p < end_char sent.

Lemma take_tokens_Ok sent tokens taken others :
  take_tokens sent tokens = Ok (taken, others) ->
  tokens = (taken ++ others)%list /\ Forall (starts_within [sent]) taken.
Proof.
  revert taken others. induction tokens as [|token rest IH]; intros taken others.
  - intros [= <- <-]. by split.
  - cbn [take_tokens]. intros (b & Hb & H)%rbind_Ok.
    unfold starts_before in Hb. destruct (start_pos token) as [p|] eqn:Hp; [|discriminate].
    injection Hb as <-. destruct (p <? end_char sent) eqn:Hlt.
    + apply rbind_Ok in H as ([taken' others'] & Htake & [= <- <-]).
      destruct (IH _ _ Htake) as [-> Hall]. split; [done|].
      constructor; [|done]. exists p, sent. split; [done|]. split; [by left | lia].
    + injection H as <- <-. by split.
Qed.

Lemma assign_tokens_Ok nlp_sents tokens sentences assigned :
  assign_tokens nlp_sents tokens sentences = Ok assigned ->
  exists taken others,
    concat assigned = (concat sentences ++ taken)%list /\
    tokens = (taken ++ others)%list /\
    Forall (starts_within nlp_sents) taken.
Proof.
  revert tokens sentences. induction nlp_sents as [|sent nlp_sents IH]; intros tokens sentences.
  - intros [= <-]. exists [], tokens. by rewrite app_nil_r.
  - cbn [assign_tokens]. intros ([taken others] & Htake & H)%rbind_Ok.
    apply take_tokens_Ok in Htake as [-> Htaken]. cbn [fst snd] in H.
    apply IH in H as (taken' & others' & Hres & -> & Htaken').
    exists (taken ++ taken')%list, others'. split; [|split].
    + rewrite Hres. destruct taken; [done|]. by rewrite concat_app, <- app_assoc; cbn; rewrite app_nil_r.
    + by rewrite app_assoc.
    + apply Forall_app. split.
      * eapply Forall_impl; [exact Htaken|]. intros t (p & s & ? & ->%list_elem_of_singleton & ?).
        exists p, sent. split; [done|]. split; [by left|done].
      * eapply Forall_impl; [exact Htaken'|]. intros t (p & s & ? & ? & ?).
        exists p, s. split; [done|]. split; [by right|done].
Qed.

(** *** The later steps keep the tokens *)

Lemma segment_by_time_concat sentences :
  concat (segment_by_time sentences) = concat sentences.
Proof.
  funelim (segment_by_time sentences); [done| |].
  - cbn [concat]. rewrite H. cbn [concat]. by rewrite app_assoc, take_drop.
  - cbn [concat]. by rewrite H.
Qed.

Lemma rmapM_shift_start_pos_index pos_diff sent shifted :
  rmapM (shift_start_pos pos_diff) sent = Ok shifted -> index <$> shifted = index <$> sent.
Proof.
  revert shifted. induction sent as [|token sent IH]; intros shifted.
  - by intros [= <-].
  - cbn [rmapM]. intros (token' & Htoken & (shifted' & Hrest & [= <-])%rbind_Ok)%rbind_Ok.
    unfold shift_start_pos in Htoken. destruct (start_pos token); [|discriminate].
    injection Htoken as <-. cbn. f_equal. by apply IH.
Qed.

Lemma separate_sentences_index pos_diff sent next_sent sent' next_sent' pos_diff' :
  separate_sentences pos_diff sent next_sent = Ok (sent', next_sent', pos_diff') ->
  index <$> sent' = index <$> sent /\ index <$> next_sent' = index <$> next_sent.
Proof.
  unfold separate_sentences. destruct (last sent) as [token|] eqn:Hlast; [|discriminate].
  destruct (negb _); [|by intros [= <- <- <-]].
  destruct (replace_alternative _ _ _) as [txt pd].
  intros ([txt' pd'] & _ & (shifted & Hshift & [= <- <- <-])%rbind_Ok)%rbind_Ok.
  split; [|by eapply rmapM_shift_start_pos_index].
  apply last_Some in Hlast as [sent0 ->]. rewrite removelast_last.
  by rewrite !fmap_app.
Qed.

Lemma add_sentence_separators_index pos_diff sent rest sentences :
  add_sentence_separators pos_diff sent rest = Ok sentences ->
  index <$> concat sentences = index <$> concat (sent :: rest).
Proof.
  revert pos_diff sent sentences.
  induction rest as [|next_sent rest IH]; intros pos_diff sent sentences.
  - by intros [= <-].
  - cbn [add_sentence_separators].
    intros ([[sent' next_sent'] pos_diff'] & Hsep & (l & Hrest & [= <-])%rbind_Ok)%rbind_Ok.
    apply separate_sentences_index in Hsep as [Hsent Hnext]. apply IH in Hrest.
    cbn [concat] in *. rewrite !fmap_app in *. rewrite Hsent, Hrest, Hnext. done.
Qed.

Lemma set_first_start_pos_last front last0 transcript :
  set_first_start_pos (front ++ [last0]) = Ok transcript ->
  exists token rest,
    transcript = token :: rest /\ start_pos token = Some 0 /\
    text <$> last (token :: rest) = Some (text last0) /\ length rest = length front.
Proof.
  destruct front as [|token front]; intros [= <-].
  - by exists (set_start_pos 0 last0), [].
  - exists (set_start_pos 0 token), (front ++ [last0])%list. split; [done|]. split; [done|].
    split; [|by rewrite length_app; simpl; lia].
    rewrite last_cons. by rewrite last_snoc.
Qed.

Lemma prefix_of_indices (taken others : list EditToken) n :
  index <$> (taken ++ others)%list = Some <$> seq 0 n ->
  index <$> taken = Some <$> seq 0 (length taken).
Proof.
  intros H. assert (n = (length taken + length others)%nat) as ->.
  { apply (f_equal length) in H. rewrite !length_fmap, length_app, length_seq in H. lia. }
  rewrite fmap_app, seq_app, fmap_app in H.
  apply app_inj_1 in H as [H _]; [done|]. by rewrite !length_fmap, length_seq.
Qed.

(** C9, sentence_segmentation: a transcript whose last token has an empty
    text (the normalization of [EditToken] leaves one for a token such as
    ["[noise]"]) is not partitioned.  When the sentences of spaCy end inside
    the document they were made of, the last token starts at the end of the
    raw transcript, so that no sentence takes it: the tokens returned are,
    in their order, the first [n] tokens of the transcript for some [n] that
    is at most the number of tokens before the last one, and the last token
    is in none of the returned sentences. *)
Theorem sentence_segmentation_drops_empty_last_token
  (spacy_sents : string -> list Span) (front : list EditToken) (last0 : EditToken)
  (sentences : list (list EditToken)) :
  text last0 = "" ->
  (forall raw sent, sent ∈ spacy_sents raw -> end_char sent <= len raw) ->
  sentence_segmentation spacy_sents (front ++ [last0]) = Ok sentences ->
  exists n, (n <= length front)%nat /\
    index <$> concat sentences = Some <$> seq 0 n /\
    forall token, token ∈ concat sentences -> index token <> Some (length front).
Proof.
  intros Htext Hspans. unfold sentence_segmentation.
  intros (tr1 & (token & rest & -> & Hpos & Hlast & Hlen)%set_first_start_pos_last & H)%rbind_Ok.
  apply rbind_Ok in H as (tr2 & Hsep & H).
  destruct (add_token_separators_last _ _ _ _ Hpos Hlast)
    as (front1 & last1 & Hsep' & Hlen1 & Htext1 & Hpos1).
  rewrite Hsep' in Hsep. injection Hsep as <-. cbv zeta in H.
  rewrite raw_transcript_assign_indices in H.
  set (nlp_sents := spacy_sents _) in H.
  apply rbind_Ok in H as (first & _ & H).
  destruct (negb _); [discriminate|].
  apply rbind_Ok in H as (sentences1 & (taken & others & Hcat & Htokens & Htaken)%assign_tokens_Ok & H).
  cbn [concat app] in Hcat.
  assert (index <$> concat sentences = index <$> taken) as Hindex.
  { rewrite <- Hcat, <- (segment_by_time_concat sentences1).
    destruct (segment_by_time sentences1) as [|sent sents].
    - by injection H as <-.
    - by apply add_sentence_separators_index in H. }
  assert (len (raw_transcript (front1 ++ [last1])) = len (String.concat "" (map text front1)))
    as Hraw.
  { unfold raw_transcript. rewrite map_app, concat_empty_app. cbn [map String.concat].
    by rewrite Htext1, Htext, append_empty_r. }
  assert (length taken <= length front1)%nat as Hle.
  { destruct (decide (length taken <= length front1)%nat) as [|Hgt]; [done|]. exfalso.
    pose proof (f_equal length Htokens) as Hl.
    unfold assign_indices in Hl. rewrite length_imap, !length_app in Hl. cbn [length] in Hl.
    pose proof (start_pos_assign_indices (front1 ++ [last1])) as Hsp.
    rewrite Htokens in Hsp.
    assert ((start_pos <$> (taken ++ others)%list) !! length front1 = Some (Some (0 + len (String.concat "" (map text front1))))) as Hlook.
    { rewrite Hsp, fmap_app, lookup_app_r by (rewrite length_fmap; lia).
      rewrite length_fmap, Nat.sub_diag. cbn. by rewrite Hpos1. }
    rewrite list_lookup_fmap, lookup_app_l in Hlook by lia.
    apply fmap_Some in Hlook as (t & Ht & Hp).
    eapply Forall_lookup_1 in Htaken as (p & sent & Hp' & Hin & Hlt); [|exact Ht].
    apply Hspans in Hin. rewrite Hraw in Hin. rewrite Hp' in Hp. injection Hp as Hp. lia. }
  pose proof (index_assign_indices (front1 ++ [last1])) as Hidx. rewrite Htokens in Hidx.
  apply prefix_of_indices in Hidx.
  exists (length taken). split; [lia|]. split; [by rewrite Hindex|].
  intros t Ht Hi. apply (list_elem_of_fmap_2 index) in Ht. rewrite Hindex, Hidx, Hi in Ht.
  apply list_elem_of_fmap in Ht as (i & [= <-] & Hin). apply elem_of_seq in Hin. lia.
Qed.

Lemma sentence_segmentation_drops_empty_last_token_witness :
  sentence_segmentation Transcripts.whole_document [Transcripts.hello; Transcripts.noise]
  = Ok [[ {| text := "hello "; start_time := 0; end_time := 1;
             start_pos := Some 0; index := Some 0%nat; label := None |} ]] /\
  exists n, (n <= 1)%nat /\
    index <$> concat [[ {| text := "hello "; start_time := 0; end_time := 1;
                           start_pos := Some 0; index := Some 0%nat; label := None |} ]]
    = Some <$> seq 0 n /\
    forall token,
      token ∈ concat [[ {| text := "hello "; start_time := 0; end_time := 1;
                           start_pos := Some 0; index := Some 0%nat; label := None |} ]] ->
      index token <> Some 1%nat.
Proof.
  split; [vm_compute; reflexivity|].
  apply (sentence_segmentation_drops_empty_last_token
           Transcripts.whole_document [Transcripts.hello] Transcripts.noise).
  - reflexivity.
  - intros raw sent ->%list_elem_of_singleton. cbn. lia.
  - vm_compute. reflexivity.
Defined.

(** * Further properties of the editor and of the segmentation *)

(** ** Loading a settings document (from_json) *)

(** An identifier under which [from_json] reads a section: a stream type
    or a stream index, in any case of the letters. *)
Definition recognized (identifier : string) : bool :=
  str_in (lower identifier) [ID_VIDEO_STREAM; ID_AUDIO_STREAM]
  || isnumeric (lower identifier).

(** Text of ASCII characters, on which [lower] and [isnumeric] are
    [str.lower] and [str.isnumeric]. *)
Definition is_ascii (s : string) : bool :=
  forallb (fun c => (nat_of_ascii c <? 128)%nat) (list_ascii_of_string s).

(** The keys of the options that [from_json] reads. *)
Definition option_ids : list string :=
  [ID_CODEC; ID_CODEC_OPTIONS; ID_BITRATE; ID_RESOLUTION; ID_MAX_FPS; ID_SAMPLE_RATE; ID_MONO].

(** What [from_json] requires of the value of an option. *)
Definition accepted_option `{Builtins} (key : string) (value : pyval) : Prop :=
  (key = ID_BITRATE \/ key = ID_SAMPLE_RATE -> exists z, py_int value = Ok z /\ 0 < z) /\
  (key = ID_MAX_FPS -> exists f, py_float value = Ok f /\ PrimFloat.leb f 0 = false) /\
  (key = ID_RESOLUTION ->
   exists dims w h,
     rbind (py_iter value) (rmapM py_int) = Ok dims /\
     py_index dims 0 = Ok w /\ py_index dims 1 = Ok h /\ 0 < w * h) /\
  (key = ID_CODEC_OPTIONS -> exists items, value = PDict items).

Lemma foldM_Ok_elem {E A S} (f : A -> S -> M E S) l s evs s' x :
  foldM f l s = (evs, Ok s') -> x ∈ l ->
  exists s0 evs0 s1, f x s0 = (evs0, Ok s1).
Proof.
  revert s evs. induction l as [|a l IH]; intros s evs Hrun Hx.
  - by apply elem_of_nil in Hx.
  - cbn [foldM] in Hrun. apply bind_Ok in Hrun as (l1 & s1 & l2 & H1 & Hrest & ->).
    apply elem_of_cons in Hx as [->|Hx]; [eauto|]. by eapply IH.
Qed.

Lemma from_json_option_accepted `{Builtins} key value st evs st' :
  from_json_option (key, value) st = (evs, Ok st') -> accepted_option key value.
Proof.
  unfold from_json_option, accepted_option.
  destruct (String.eqb key ID_CODEC) eqn:E1.
  { apply String.eqb_eq in E1 as ->. intros _.
    repeat split; try (intros [?|?]); intros; discriminate. }
  destruct (String.eqb key ID_CODEC_OPTIONS) eqn:E2.
  { apply String.eqb_eq in E2 as ->.
    intros (l1 & items & l2 & [Hit ->]%lift_Ok & _)%bind_Ok.
    repeat split; try (intros [?|?]; discriminate); try (intros; discriminate).
    intros _. destruct value; try discriminate. eauto. }
  destruct (String.eqb key ID_BITRATE) eqn:E3.
  { apply String.eqb_eq in E3 as ->.
    intros (l1 & z & l2 & [Hz ->]%lift_Ok & Hrest & ->)%bind_Ok.
    destruct (z <=? 0) eqn:Hle; [discriminate|]. apply Z.leb_gt in Hle.
    repeat split; try (intros; discriminate). eauto. }
  destruct (String.eqb key ID_RESOLUTION) eqn:E4.
  { apply String.eqb_eq in E4 as ->.
    intros (l1 & dims & l2 & [Hd ->]%lift_Ok & Hrest & ->)%bind_Ok.
    apply bind_Ok in Hrest as (l3 & w & l4 & [Hw ->]%lift_Ok & Hrest & ->).
    apply bind_Ok in Hrest as (l5 & h & l6 & [Hh ->]%lift_Ok & Hrest & ->).
    destruct (w * h <=? 0) eqn:Hle; [discriminate|]. apply Z.leb_gt in Hle.
    repeat split; try (intros [?|?]; discriminate); try (intros; discriminate).
    intros _. eauto 8. }
  destruct (String.eqb key ID_MAX_FPS) eqn:E5.
  { apply String.eqb_eq in E5 as ->.
    intros (l1 & f & l2 & [Hf ->]%lift_Ok & Hrest & ->)%bind_Ok.
    destruct (PrimFloat.leb f 0) eqn:Hle; [discriminate|].
    repeat split; try (intros [?|?]; discriminate); try (intros; discriminate).
    intros _. eauto. }
  destruct (String.eqb key ID_SAMPLE_RATE) eqn:E6.
  { apply String.eqb_eq in E6 as ->.
    intros (l1 & z & l2 & [Hz ->]%lift_Ok & Hrest & ->)%bind_Ok.
    destruct (z <=? 0) eqn:Hle; [discriminate|]. apply Z.leb_gt in Hle.
    repeat split; try (intros; discriminate). eauto. }
  apply String.eqb_neq in E2, E3, E4, E5, E6.
  intros _. repeat split; try (intros [?|?]); intros; congruence.
Qed.

Lemma from_json_section_accepted `{Builtins} identifier config s evs s' :
  from_json_section (identifier, config) s = (evs, Ok s') ->
  recognized identifier = true ->
  exists items, config = PDict items /\
    forall key value, (key, value) ∈ items -> accepted_option key value.
Proof.
  unfold from_json_section, recognized.
  assert (Hfill : forall k evs0,
    (do items <- lift (py_items config);
     do new <- foldM from_json_option items (default ∅ (s !! k));
     ret (<[k := new]> s)) = (evs0, Ok s') ->
    exists items, config = PDict items /\
      forall key value, (key, value) ∈ items -> accepted_option key value).
  { intros k evs0 (l1 & items & l2 & [Hit _]%lift_Ok & Hrest & _)%bind_Ok.
    apply bind_Ok in Hrest as (l3 & new & l4 & Hnew & _).
    destruct config; try discriminate. injection Hit as ->.
    exists items. split; [done|]. intros key value Hin.
    destruct (foldM_Ok_elem _ _ _ _ _ _ Hnew Hin) as (s0 & evs1 & s1 & Hopt).
    by eapply from_json_option_accepted. }
  destruct (str_in (lower identifier) [ID_VIDEO_STREAM; ID_AUDIO_STREAM]).
  { intros Hrun _. by eapply Hfill. }
  destruct (isnumeric (lower identifier)); [|done].
  intros Hrun _. by eapply Hfill.
Qed.

(** X1.  [from_json] returns an editor only for a document in which every
    section under a stream type or a stream index is a dict whose numeric
    options are accepted: each [bitrate] and [sample-rate] converts to an
    integer greater than 0, each [max-fps] to a float that is not [<= 0],
    each [resolution] to integers of which the first two have a product
    greater than 0, and each [codec-options] is a dict. *)
Theorem from_json_returns_accepted `{Builtins}
  (doc : list (string * pyval)) (evs : list log) (e : editor)
  (identifier : string) (config : pyval) :
  from_json doc = (evs, Ok e) ->
  (identifier, config) ∈ doc ->
  recognized identifier = true ->
  exists items, config = PDict items /\
    forall key value, (key, value) ∈ items -> accepted_option key value.
Proof.
  unfold from_json. intros (l1 & s & l2 & Hs & _)%bind_Ok Hin Hrec.
  destruct (foldM_Ok_elem _ _ _ _ _ _ Hs Hin) as (s0 & evs0 & s1 & Hsec).
  by eapply from_json_section_accepted.
Qed.

Lemma from_json_returns_accepted_witness :
  exists evs e,
    @from_json Samples.sample_builtins Samples.document = (evs, Ok e) /\
    exists items,
      PDict [(ID_BITRATE, PInt 500000); (ID_MAX_FPS, PInt 30);
             (ID_CODEC_OPTIONS, PDict [("crf", PInt 23)])] = PDict items /\
      forall key value, (key, value) ∈ items ->
        accepted_option (H:=Samples.sample_builtins) key value.
Proof.
  eexists _, _. split; [reflexivity|].
  eapply (from_json_returns_accepted (H:=Samples.sample_builtins) Samples.document _ _ "Video").
  - reflexivity.
  - by left.
  - reflexivity.
Defined.

(** *** Sections and options that are not recognized *)

Lemma snd_bind {E A B} (m : M E A) (f : A -> M E B) :
  snd (Eff.bind m f) = match snd m with Ok a => snd (f a) | Err e => Err e end.
Proof. destruct m as [l [a|e]]; simpl; [|done]. by destruct (f a). Qed.

Lemma fst_bind {E A B} (m : M E A) (f : A -> M E B) :
  fst (Eff.bind m f)
  = match snd m with Ok a => (fst m ++ fst (f a))%list | Err e => fst m end.
Proof. destruct m as [l [a|e]]; simpl; [|done]. by destruct (f a). Qed.

Lemma from_json_section_unrecognized `{Builtins} identifier config s :
  recognized identifier = false ->
  from_json_section (identifier, config) s
  = (if String.eqb (lower identifier) ID_TIMELINE_CHANGES then []
     else [Warning (SkippingUnrecognizedIdentifier (lower identifier))], Ok s).
Proof.
  unfold recognized, from_json_section. intros [-> ->]%orb_false_elim.
  by destruct (String.eqb (lower identifier) ID_TIMELINE_CHANGES).
Qed.

(** X2.  [from_json] skips a section whose identifier, of ASCII characters,
    is neither a stream type nor a stream index, whatever the section holds:
    the document loads as it does without the section.  The section of the
    interval list ([timeline-changes]) is skipped silently; any other is
    reported by a warning that names the identifier in lower case, when the
    sections before it, under ASCII identifiers too, have loaded. *)
Theorem from_json_skips_unrecognized `{Builtins}
  (doc1 doc2 : list (string * pyval)) (identifier : string) (config : pyval) :
  is_ascii identifier = true ->
  recognized identifier = false ->
  snd (from_json (doc1 ++ (identifier, config) :: doc2)) = snd (from_json (doc1 ++ doc2)) /\
  (lower identifier = ID_TIMELINE_CHANGES ->
   from_json (doc1 ++ (identifier, config) :: doc2) = from_json (doc1 ++ doc2)) /\
  (lower identifier <> ID_TIMELINE_CHANGES ->
   Forall (fun section => is_ascii (fst section) = true) doc1 ->
   is_ok (snd (from_json doc1)) = true ->
   Warning (SkippingUnrecognizedIdentifier (lower identifier))
     ∈ fst (from_json (doc1 ++ (identifier, config) :: doc2))).
Proof.
  intros _ Hrec. unfold from_json. rewrite !foldM_app.
  destruct (foldM from_json_section doc1 _) as [l1 [s1|e1]]; cbn [Eff.bind foldM];
    [|by repeat split].
  rewrite (from_json_section_unrecognized _ _ s1 Hrec). cbn [Eff.bind].
  destruct (foldM from_json_section doc2 s1) as [l2 [s2|e2]]; cbn [Eff.bind ret fst snd app].
  - split; [done|]. split.
    + intros ->. by rewrite String.eqb_refl.
    + intros Hne%String.eqb_neq _ _. rewrite Hne. set_solver.
  - split; [done|]. split.
    + intros ->. by rewrite String.eqb_refl.
    + intros Hne%String.eqb_neq _ _. rewrite Hne. set_solver.
Qed.

Lemma from_json_skips_unrecognized_witness :
  let doc1 := [("2", PDict [(ID_MONO, PInt 1)])] in
  is_ascii "Chapters" = true /\
  recognized "Chapters" = false /\
  snd (@from_json Samples.sample_builtins (doc1 ++ ("Chapters", PNone) :: []))
  = snd (@from_json Samples.sample_builtins (doc1 ++ [])) /\
  Warning (SkippingUnrecognizedIdentifier "chapters")
    ∈ fst (@from_json Samples.sample_builtins (doc1 ++ ("Chapters", PNone) :: [])).
Proof.
  intros doc1. split; [reflexivity|]. split; [reflexivity|].
  destruct (from_json_skips_unrecognized (H:=Samples.sample_builtins)
              doc1 [] "Chapters" PNone eq_refl eq_refl) as (Hsnd & _ & Hwarn).
  split; [exact Hsnd|]. apply Hwarn.
  - discriminate.
  - by repeat constructor.
  - reflexivity.
Defined.

Lemma from_json_option_unrecognized `{Builtins} key value st :
  key ∉ option_ids ->
  from_json_option (key, value) st = ([Warning (SkippingUnrecognizedSetting key)], Ok st).
Proof.
  intros Hkey. unfold from_json_option.
  assert (Hne : forall x, x ∈ option_ids -> String.eqb key x = false).
  { intros x Hx. apply String.eqb_neq. by intros ->. }
  rewrite !Hne by (unfold option_ids; set_solver).
  reflexivity.
Qed.

Lemma foldM_option_unrecognized `{Builtins} items1 key value items2 st :
  key ∉ option_ids ->
  snd (foldM from_json_option (items1 ++ (key, value) :: items2) st)
  = snd (foldM from_json_option (items1 ++ items2) st) /\
  (is_ok (snd (foldM from_json_option items1 st)) = true ->
   Warning (SkippingUnrecognizedSetting key)
     ∈ fst (foldM from_json_option (items1 ++ (key, value) :: items2) st)).
Proof.
  intros Hkey. rewrite !foldM_app.
  destruct (foldM from_json_option items1 st) as [l1 [st1|e1]]; cbn [Eff.bind foldM]; [|done].
  rewrite (from_json_option_unrecognized _ _ _ Hkey). cbn [Eff.bind].
  destruct (foldM from_json_option items2 st1) as [l2 [st2|e2]]; cbn [fst snd app];
    (split; [done|]); intros _; set_solver.
Qed.

(** X3.  [from_json] ignores an option whose key is not, letter for letter,
    one of the seven option keys: its value is not read and the document
    loads as it does without the option, a warning being logged. *)
Theorem from_json_skips_unrecognized_option `{Builtins}
  (doc1 doc2 : list (string * pyval)) (identifier : string)
  (items1 items2 : list (string * pyval)) (key : string) (value : pyval) :
  key ∉ option_ids ->
  snd (from_json (doc1 ++ (identifier, PDict (items1 ++ (key, value) :: items2)) :: doc2))
  = snd (from_json (doc1 ++ (identifier, PDict (items1 ++ items2)) :: doc2)) /\
  (forall evs e,
     from_json (doc1 ++ (identifier, PDict (items1 ++ (key, value) :: items2)) :: doc2)
     = (evs, Ok e) ->
     recognized identifier = true ->
     Warning (SkippingUnrecognizedSetting key) ∈ evs).
Proof.
  intros Hkey.
  assert (Hsec : forall s,
    snd (from_json_section (identifier, PDict (items1 ++ (key, value) :: items2)) s)
    = snd (from_json_section (identifier, PDict (items1 ++ items2)) s) /\
    (is_ok (snd (from_json_section (identifier, PDict (items1 ++ (key, value) :: items2)) s))
     = true ->
     recognized identifier = true ->
     Warning (SkippingUnrecognizedSetting key)
       ∈ fst (from_json_section (identifier, PDict (items1 ++ (key, value) :: items2)) s))).
  { intros s. unfold from_json_section, recognized.
    assert (Hfill : forall k,
      let fill items :=
        (do items <- lift (py_items (PDict items));
         do new <- foldM from_json_option items (default ∅ (s !! k));
         ret (<[k := new]> s)) : M log settings_map in
      snd (fill (items1 ++ (key, value) :: items2)%list) = snd (fill (items1 ++ items2)%list) /\
      (is_ok (snd (fill (items1 ++ (key, value) :: items2)%list)) = true ->
       Warning (SkippingUnrecognizedSetting key)
         ∈ fst (fill (items1 ++ (key, value) :: items2)%list))).
    { intros k fill. unfold fill, lift, py_items. cbn [Eff.bind app].
      destruct (foldM_option_unrecognized items1 key value items2 (default ∅ (s !! k)) Hkey)
        as [Hsnd Hw].
      destruct (foldM from_json_option (items1 ++ (key, value) :: items2) _)
        as [la [a|ea]] eqn:Ha;
      destruct (foldM from_json_option (items1 ++ items2) _) as [lb [b|eb]] eqn:Hb;
        cbn [fst snd Eff.bind ret app] in *; try discriminate.
      - injection Hsnd as ->. split; [done|]. intros _. rewrite app_nil_r. apply Hw.
        rewrite foldM_app in Ha.
        destruct (foldM from_json_option items1 _) as [l1 [st1|e1]]; [done|discriminate].
      - injection Hsnd as ->. split; [done | intros [=]]. }
    destruct (str_in (lower identifier) [ID_VIDEO_STREAM; ID_AUDIO_STREAM]) eqn:Ht.
    { destruct (Hfill (KStr (lower identifier))) as [? ?]. split; [done|]. auto. }
    destruct (isnumeric (lower identifier)) eqn:Hn.
    { destruct (Hfill (KInt (int_of_digits (lower identifier)))) as [? ?]. split; [done|]. auto. }
    split; [done|]. intros _ [=]. }
  unfold from_json. rewrite !foldM_app.
  destruct (foldM from_json_section doc1 _) as [l1 [s1|e1]]; cbn [Eff.bind foldM]; [|by split].
  destruct (Hsec s1) as [Hsnd Hw].
  destruct (from_json_section (identifier, PDict (items1 ++ (key, value) :: items2)) s1)
    as [la [a|ea]];
  destruct (from_json_section (identifier, PDict (items1 ++ items2)) s1) as [lb [b|eb]];
    cbn [fst snd Eff.bind] in *; try discriminate.
  - injection Hsnd as ->.
    destruct (foldM from_json_section doc2 b) as [l2 [s2|e2]]; cbn [Eff.bind ret fst snd app].
    + split; [done|]. intros evs e [= <- _] Hrec. specialize (Hw eq_refl Hrec). rewrite !elem_of_app. auto.
    + split; [done|]. discriminate.
  - injection Hsnd as ->. split; [done|]. discriminate.
Qed.

Lemma from_json_skips_unrecognized_option_witness :
  ("Bitrate" ∉ option_ids) /\
  snd (@from_json Samples.sample_builtins
         ([] ++ ("video", PDict ([] ++ ("Bitrate", PInt (-5)) :: [(ID_MONO, PInt 1)])) :: []))
  = snd (@from_json Samples.sample_builtins
           ([] ++ ("video", PDict ([] ++ [(ID_MONO, PInt 1)])) :: [])).
Proof.
  assert (Hkey : "Bitrate" ∉ option_ids).
  { unfold option_ids. intros Hin. repeat (apply elem_of_cons in Hin as [Hin|Hin]; [discriminate|]).
    by apply elem_of_nil in Hin. }
  split; [exact Hkey|].
  apply (from_json_skips_unrecognized_option (H:=Samples.sample_builtins)
           [] [] "video" [] [(ID_MONO, PInt 1)] "Bitrate" (PInt (-5)) Hkey).
Defined.

(** *** Sections under the same identifier *)

Lemma from_json_section_merge `{Builtins} i1 i2 a b s :
  recognized i1 = true -> lower i1 = lower i2 ->
  Eff.bind (from_json_section (i1, PDict a) s) (from_json_section (i2, PDict b))
  = from_json_section (i1, PDict (a ++ b)) s.
Proof.
  unfold recognized, from_json_section. intros Hrec <-.
  assert (Hfill : forall k,
    Eff.bind
      (do items <- lift (py_items (PDict a));
       do new <- foldM from_json_option items (default ∅ (s !! k));
       ret (<[k := new]> s))
      (fun s1 =>
       do items <- lift (py_items (PDict b));
       do new <- foldM from_json_option items (default ∅ (s1 !! k));
       ret (<[k := new]> s1))
    = (do items <- lift (py_items (PDict (a ++ b)));
       do new <- foldM from_json_option items (default ∅ (s !! k));
       ret (<[k := new]> s))).
  { intros k. unfold lift, py_items. cbn [Eff.bind app]. rewrite foldM_app.
    destruct (foldM from_json_option a _) as [la [new1|e1]]; cbn [Eff.bind ret app]; [|done].
    rewrite lookup_insert_eq. change (default ∅ (Some new1)) with new1.
    destruct (foldM from_json_option b new1) as [lb [new2|e2]]; cbn [Eff.bind ret app].
    - by rewrite insert_insert_eq, !app_nil_r.
    - by rewrite !app_nil_r. }
  destruct (str_in (lower i1) [ID_VIDEO_STREAM; ID_AUDIO_STREAM]); [apply Hfill|].
  destruct (isnumeric (lower i1)); [apply Hfill|done].
Qed.

(** X4.  Sections of a document whose identifiers differ only in the case
    of their letters are sections of the same stream type or stream index:
    [from_json] reads the second on top of the first, as it reads one
    section that holds the options of the first followed by those of the
    second. *)
Theorem from_json_merges_sections `{Builtins}
  (doc1 doc2 : list (string * pyval)) (i1 i2 : string) (a b : list (string * pyval)) :
  recognized i1 = true -> lower i1 = lower i2 ->
  from_json (doc1 ++ (i1, PDict a) :: (i2, PDict b) :: doc2)
  = from_json (doc1 ++ (i1, PDict (a ++ b)) :: doc2).
Proof.
  intros Hrec Hlow. unfold from_json. rewrite !foldM_app.
  destruct (foldM from_json_section doc1 _) as [l1 [s1|e1]]; cbn [Eff.bind foldM]; [|done].
  rewrite <- (from_json_section_merge i1 i2 a b s1 Hrec Hlow).
  destruct (from_json_section (i1, PDict a) s1) as [la [sa|ea]]; cbn [Eff.bind]; [|done].
  destruct (from_json_section (i2, PDict b) sa) as [lb [sb|eb]]; cbn [Eff.bind].
  - destruct (foldM from_json_section doc2 sb) as [l2 [s2|e2]]; cbn [Eff.bind ret];
      by rewrite ?app_assoc.
  - by rewrite ?app_assoc.
Qed.

Lemma from_json_merges_sections_witness :
  @from_json Samples.sample_builtins
    ([] ++ ("video", PDict [(ID_BITRATE, PInt 500000)])
        :: ("Video", PDict [(ID_BITRATE, PInt 800000); (ID_MONO, PInt 0)]) :: [])
  = @from_json Samples.sample_builtins
      ([] ++ ("video", PDict ([(ID_BITRATE, PInt 500000)]
                              ++ [(ID_BITRATE, PInt 800000); (ID_MONO, PInt 0)])) :: []).
Proof.
  apply (from_json_merges_sections (H:=Samples.sample_builtins) [] [] "video" "Video");
    reflexivity.
Defined.

(** *** What the settings of a loaded editor hold *)

(** What [from_json] stores for an option. *)
Definition stored_option (key : string) (v : pyval) : Prop :=
  (key = ID_CODEC /\ exists s, v = PStr s) \/
  (key = ID_CODEC_OPTIONS /\
   exists items, v = PDict items /\ Forall (fun ov => exists s, snd ov = PStr s) items) \/
  ((key = ID_BITRATE \/ key = ID_SAMPLE_RATE) /\ exists z, v = PInt z /\ 0 < z) \/
  (key = ID_RESOLUTION /\
   exists dims w h, v = PList (map PInt dims) /\
     py_index dims 0 = Ok w /\ py_index dims 1 = Ok h /\ 0 < w * h) \/
  (key = ID_MAX_FPS /\ exists f, v = PFloat f /\ PrimFloat.leb f 0 = false) \/
  (key = ID_MONO /\ exists b, v = PBool b).

Definition stored_options (st : gmap string pyval) : Prop :=
  forall key v, st !! key = Some v -> stored_option key v.

Lemma stored_options_insert st key v :
  stored_options st -> stored_option key v -> stored_options (<[key := v]> st).
Proof.
  intros Hst Hv key' v'. rewrite lookup_insert. case_decide as Hk.
  - intros [= <-]. by subst.
  - apply Hst.
Qed.

Lemma from_json_option_stored `{Builtins} key value st evs st' :
  from_json_option (key, value) st = (evs, Ok st') ->
  stored_options st -> stored_options st'.
Proof.
  unfold from_json_option.
  destruct (String.eqb key ID_CODEC) eqn:E1.
  { apply String.eqb_eq in E1 as ->. intros [= _ <-] Hst.
    apply stored_options_insert; [done|]. left. eauto. }
  destruct (String.eqb key ID_CODEC_OPTIONS) eqn:E2.
  { apply String.eqb_eq in E2 as ->.
    intros (l1 & items & l2 & [Hit ->]%lift_Ok & [<- ->]%ret_Ok & ->)%bind_Ok Hst.
    apply stored_options_insert; [done|]. right; left. split; [done|].
    eexists. split; [done|]. apply Forall_forall. intros ov Hov.
    apply list_elem_of_In, in_map_iff in Hov as (ov0 & <- & _). simpl. eauto. }
  destruct (String.eqb key ID_BITRATE) eqn:E3.
  { apply String.eqb_eq in E3 as ->.
    intros (l1 & z & l2 & [Hz ->]%lift_Ok & Hrest & ->)%bind_Ok Hst.
    destruct (z <=? 0) eqn:Hle; [discriminate|]. apply ret_Ok in Hrest as [<- ->].
    apply Z.leb_gt in Hle.
    apply stored_options_insert; [done|]. do 2 right; left. eauto. }
  destruct (String.eqb key ID_RESOLUTION) eqn:E4.
  { apply String.eqb_eq in E4 as ->.
    intros (l1 & dims & l2 & [Hd ->]%lift_Ok & Hrest & ->)%bind_Ok Hst.
    apply bind_Ok in Hrest as (l3 & w & l4 & [Hw ->]%lift_Ok & Hrest & ->).
    apply bind_Ok in Hrest as (l5 & h & l6 & [Hh ->]%lift_Ok & Hrest & ->).
    destruct (w * h <=? 0) eqn:Hle; [discriminate|]. apply ret_Ok in Hrest as [<- ->].
    apply Z.leb_gt in Hle.
    apply stored_options_insert; [done|]. do 3 right; left. eauto 10. }
  destruct (String.eqb key ID_MAX_FPS) eqn:E5.
  { apply String.eqb_eq in E5 as ->.
    intros (l1 & f & l2 & [Hf ->]%lift_Ok & Hrest & ->)%bind_Ok Hst.
    destruct (PrimFloat.leb f 0) eqn:Hle; [discriminate|]. apply ret_Ok in Hrest as [<- ->].
    apply stored_options_insert; [done|]. do 4 right; left. eauto. }
  destruct (String.eqb key ID_SAMPLE_RATE) eqn:E6.
  { apply String.eqb_eq in E6 as ->.
    intros (l1 & z & l2 & [Hz ->]%lift_Ok & Hrest & ->)%bind_Ok Hst.
    destruct (z <=? 0) eqn:Hle; [discriminate|]. apply ret_Ok in Hrest as [<- ->].
    apply Z.leb_gt in Hle.
    apply stored_options_insert; [done|]. do 2 right; left. eauto. }
  destruct (String.eqb key ID_MONO) eqn:E7.
  { apply String.eqb_eq in E7 as ->. intros [= _ <-] Hst.
    apply stored_options_insert; [done|]. do 5 right. eauto. }
  intros [= _ <-]. done.
Qed.

Lemma foldM_from_json_option_stored `{Builtins} items st evs st' :
  foldM from_json_option items st = (evs, Ok st') ->
  stored_options st -> stored_options st'.
Proof.
  revert st evs. induction items as [|[key value] items IH]; intros st evs; simpl.
  - by intros [= _ <-].
  - intros (l1 & st1 & l2 & H1 & Hrest & ->)%bind_Ok Hst.
    eapply IH; [exact Hrest|]. eapply from_json_option_stored; [exact H1 | exact Hst].
Qed.

Lemma from_json_section_stored `{Builtins} identifier config (s : settings_map) evs s' :
  from_json_section (identifier, config) s = (evs, Ok s') ->
  (forall k st, s !! k = Some st -> stored_options st) ->
  forall k st, s' !! k = Some st -> stored_options st.
Proof.
  unfold from_json_section.
  assert (Hfill : forall k0 evs0,
    (do items <- lift (py_items config);
     do new <- foldM from_json_option items (default ∅ (s !! k0));
     ret (<[k0 := new]> s)) = (evs0, Ok s') ->
    (forall k st, s !! k = Some st -> stored_options st) ->
    forall k st, s' !! k = Some st -> stored_options st).
  { intros k0 evs0 (l1 & items & l2 & _ & Hrest & _)%bind_Ok Hs.
    apply bind_Ok in Hrest as (l3 & new & l4 & Hnew & [<- _]%ret_Ok & _).
    apply foldM_from_json_option_stored in Hnew.
    - intros k st. rewrite lookup_insert. case_decide as Hkk.
      + by intros [= <-].
      + apply Hs.
    - destruct (s !! k0) as [st|] eqn:Hst; simpl; [by apply (Hs k0 st)|].
      intros key v. by rewrite lookup_empty. }
  destruct (str_in (lower identifier) [ID_VIDEO_STREAM; ID_AUDIO_STREAM]); [apply Hfill|].
  destruct (isnumeric (lower identifier)); [apply Hfill|].
  destruct (negb (String.eqb (lower identifier) ID_TIMELINE_CHANGES));
    by intros [= _ <-].
Qed.

(** X5.  The settings of an editor that [from_json] returns always hold
    the two stream types, and besides them only stream indices that are
    not negative; every option stored is one of the seven the editor knows,
    in the form [prepare_destination] expects: the codec a string, the
    codec options a dict of strings, the bitrate and the sample rate
    integers greater than 0, the resolution a list of integers, the maximum
    frame rate a float that is not [<= 0], and mono a boolean. *)
Theorem from_json_settings_stored `{Builtins}
  (doc : list (string * pyval)) (evs : list log) (e : editor) :
  from_json doc = (evs, Ok e) ->
  is_Some (settings e !! KStr ID_VIDEO_STREAM) /\
  is_Some (settings e !! KStr ID_AUDIO_STREAM) /\
  forall k st, settings e !! k = Some st ->
    (k = KStr ID_VIDEO_STREAM \/ k = KStr ID_AUDIO_STREAM \/ exists n : N, k = KInt (Z.of_N n)) /\
    forall key v, st !! key = Some v -> stored_option key v.
Proof.
  intros Hrun. destruct (from_json_loadable _ _ _ Hrun) as (Hv & Ha & Hkeys).
  split; [done|]. split; [done|]. intros k st Hk. split; [by apply (Hkeys k st)|].
  revert k st Hk. unfold from_json in Hrun.
  apply bind_Ok in Hrun as (l1 & s & l2 & Hs & [<- _]%ret_Ok & _). cbn [settings].
  assert (Hgen : forall doc0 (s0 : settings_map) evs0 s1,
    foldM from_json_section doc0 s0 = (evs0, Ok s1) ->
    (forall k st, s0 !! k = Some st -> stored_options st) ->
    forall k st, s1 !! k = Some st -> stored_options st).
  { induction doc0 as [|[identifier config] doc0 IH]; intros s0 evs0 s1; simpl.
    - by intros [= _ <-].
    - intros (l3 & s2 & l4 & H1 & Hrest & ->)%bind_Ok Hs0.
      eapply IH; [exact Hrest|]. eapply from_json_section_stored; [exact H1 | exact Hs0]. }
  apply (Hgen _ _ _ _ Hs). intros k st. simpl. rewrite !lookup_insert.
  repeat case_decide; subst; try (by rewrite lookup_empty);
    intros [= <-] key v; by rewrite lookup_empty.
Qed.

Lemma from_json_settings_stored_witness :
  exists evs e,
    @from_json Samples.sample_builtins Samples.document = (evs, Ok e) /\
    is_Some (settings e !! KStr ID_VIDEO_STREAM) /\
    is_Some (settings e !! KStr ID_AUDIO_STREAM) /\
    forall k st, settings e !! k = Some st ->
      (k = KStr ID_VIDEO_STREAM \/ k = KStr ID_AUDIO_STREAM \/
       exists n : N, k = KInt (Z.of_N n)) /\
      forall key v, st !! key = Some v -> stored_option key v.
Proof.
  eexists _, _. split; [reflexivity|].
  eapply (from_json_settings_stored (H:=Samples.sample_builtins) Samples.document).
  reflexivity.
Defined.

(** ** The exported document (export_json) *)

Lemma json_object_snoc pairs k v :
  json_object (pairs ++ [(k, v)]) = dict_set k v (json_object pairs).
Proof. unfold json_object. by rewrite fold_left_app. Qed.

Lemma json_object_keys pairs k :
  k ∈ map fst (json_object pairs) -> k ∈ map fst pairs.
Proof.
  unfold json_object.
  assert (Hgen : forall acc : list (string * pyval),
    k ∈ map fst (fold_left (fun d kv => dict_set (fst kv) (snd kv) d) pairs acc) ->
    k ∈ map fst acc \/ k ∈ map fst pairs).
  { induction pairs as [|[k0 v0] l IH]; intros acc; simpl; [auto|].
    intros [Hin|Hin]%IH.
    - apply dict_get_is_Some, dict_get_set_is_Some in Hin as [->|Hin].
      + right. by left.
      + left. by apply dict_get_is_Some.
    - right. by right. }
  intros [?%elem_of_nil|?]%Hgen; done.
Qed.

Lemma str_of_Z_not_timeline_changes z : str_of_Z z <> ID_TIMELINE_CHANGES.
Proof.
  destruct z as [|p|p]; simpl.
  - by apply str_of_N_not_word.
  - by apply str_of_N_not_word.
  - discriminate.
Qed.

(** X6.  [export_json] fails its assertion exactly when the settings have
    the key [timeline-changes].  Otherwise it writes a document that holds
    under this key the rows [[beg, end, multi]] of the interval list, in
    their order, when a list is given, and that has no such key when none
    is given. *)
Theorem export_json_timeline_changes (e : editor) (changes : option (list TimelineChange)) :
  (is_Some (settings e !! KStr ID_TIMELINE_CHANGES) ->
   export_json e changes = Err (Raised KAssertionError)) /\
  (settings e !! KStr ID_TIMELINE_CHANGES = None ->
   exists doc,
     export_json e changes = Ok doc /\
     dict_get ID_TIMELINE_CHANGES doc
     = (fun cs => PList (map (fun r => PList [PFloat (beg r); PFloat (end_ r); PFloat (multi r)])
                             cs)) <$> changes).
Proof.
  unfold export_json. split.
  - intros Hin. by rewrite bool_decide_true.
  - intros Hnone. rewrite bool_decide_false by (rewrite Hnone; by intros [? ?]).
    eexists. split; [reflexivity|].
    set (config := map _ (map_to_list (settings e))).
    destruct changes as [cs|]; cbn [fmap option_fmap option_map].
    + rewrite json_object_snoc, dict_get_set. by destruct (decide _).
    + rewrite app_nil_r. destruct (dict_get _ _) as [v|] eqn:Hget; [exfalso|done].
      assert (Hin : ID_TIMELINE_CHANGES ∈ map fst (json_object config)).
      { apply dict_get_is_Some. eauto. }
      apply json_object_keys in Hin. unfold config in Hin. rewrite map_map in Hin.
      apply list_elem_of_fmap in Hin as ([k st] & Hk & Hin). cbn [fst] in Hk.
      apply elem_of_map_to_list in Hin. destruct k as [s|z]; simpl in Hk.
      * subst s. congruence.
      * symmetry in Hk. by apply str_of_Z_not_timeline_changes in Hk.
Qed.

(** ** The streams of the destination (prepare_destination) *)

Definition ctx_kind (a : EditCtx) : string :=
  match a with
  | VideoEditContext _ _ _ => ID_VIDEO_STREAM
  | AudioEditContext _ _ => ID_AUDIO_STREAM
  end.

(** An entry of the context map without the state of its context: the
    key, the source stream, the destination stream and the kind of the
    context. *)
Definition entry_summary `{EditContexts} (ic : nat * ctx) : nat * nat * nat * string :=
  (fst ic, ctx_src (attrs (snd ic)), ctx_dst (attrs (snd ic)), ctx_kind (attrs (snd ic))).

(** The entries for the streams [valid], in their order: the stream of
    index [index] that comes [k]-th is the source of a context of its type,
    under the key [index], with the [k]-th destination stream. *)
Definition entries_of (valid : list (nat * src_stream)) : list (nat * nat * nat * string) :=
  imap (fun k ist => (fst ist, fst ist, k, s_type (snd ist))) valid.

(** What the editor asks of the destination stream [d] of the source
    stream [src] besides what the settings resolve to: the thread type, and
    for a video stream the time bases and the pixel format. *)
Definition asked_of (ist : nat * src_stream) (d : dst_stream) : Prop :=
  d_thread_type d = Some "AUTO" /\
  if String.eqb (s_type (snd ist)) ID_VIDEO_STREAM then
    d_codec_time_base d = Some (1 # 60000)%Q /\ d_time_base d = Some (1 # 60000)%Q /\
    d_pix_fmt d = s_pix_fmt (snd ist) /\ d_rate d = PNone /\ d_channels d = PNone
  else
    d_codec_time_base d = None /\ d_time_base d = None /\ d_pix_fmt d = PNone /\
    d_width d = PNone /\ d_height d = PNone.

(** The state of the provisioning loop once the streams [done] were
    provisioned. *)
Definition provisioned_in_order `{EditContexts} (done : list (nat * src_stream))
  (p : provision) : Prop :=
  map entry_summary (p_ctx_map p) = entries_of done /\
  Forall2 asked_of done (p_dst p) /\
  p_src_auto p = map fst done /\
  p_dst_stream p = match done with [] => None | _ => Some (pred (length done)) end.

Lemma fst_enumerate {A} (l : list A) : map fst (enumerate l) = seq 0 (length l).
Proof.
  unfold enumerate. generalize 0%nat. induction l as [|a l IH]; intros n; [done|].
  simpl. by rewrite IH.
Qed.

Lemma NoDup_eligible (source : list src_stream) :
  NoDup (map fst (filter eligible (enumerate source))).
Proof.
  apply (sublist_NoDup _ (map fst (enumerate source))).
  - rewrite fst_enumerate. apply NoDup_seq.
  - apply fmap_sublist, sublist_filter.
Qed.

Lemma eligible_type (ist : nat * src_stream) :
  eligible ist ->
  (s_type (snd ist) = ID_VIDEO_STREAM \/ s_type (snd ist) = ID_AUDIO_STREAM) /\
  is_Some (s_codec_context (snd ist)).
Proof.
  unfold eligible. intros [Ht Hc]%andb_True. split.
  - unfold str_in, SUPPORTED_STREAM_TYPES in Ht. cbn [existsb] in Ht.
    destruct (String.eqb_spec (s_type (snd ist)) ID_VIDEO_STREAM); [auto|].
    destruct (String.eqb_spec (s_type (snd ist)) ID_AUDIO_STREAM); [auto|done].
  - by apply bool_decide_unpack in Hc.
Qed.

Lemma entries_of_snoc done (ist : nat * src_stream) :
  entries_of (done ++ [ist])
  = (entries_of done ++ [(fst ist, fst ist, length done, s_type (snd ist))])%list.
Proof. unfold entries_of. rewrite imap_app. cbn. by rewrite Nat.add_0_r. Qed.

Lemma fst_entries_of done : map (fun x => fst (fst (fst x))) (entries_of done) = map fst done.
Proof.
  unfold entries_of. change (map ?f ?l) with (f <$> l). rewrite fmap_imap.
  by rewrite <- (imap_const fst done).
Qed.

Section InOrder.
Context `{Builtins} `{EditContexts}.
Variable self : editor.

Lemma set_thread_type_last dst d :
  set_thread_type (length dst) (dst ++ [d])
  = (dst ++ [ {| d_codec_name := d_codec_name d; d_options := d_options d; d_rate := d_rate d;
                 d_codec_time_base := d_codec_time_base d; d_time_base := d_time_base d;
                 d_pix_fmt := d_pix_fmt d; d_bit_rate := d_bit_rate d; d_width := d_width d;
                 d_height := d_height d; d_channels := d_channels d;
                 d_thread_type := Some "AUTO" |} ])%list.
Proof.
  unfold set_thread_type. rewrite <- (Nat.add_0_r (length dst)) at 1.
  by rewrite alter_app_r.
Qed.

(** One pass of the provisioning loop, on a stream the first loop kept and
    that was not provisioned before. *)
Lemma provision_stream_in_order done index src p p' :
  eligible (index, src) -> index ∉ map fst done ->
  provisioned_in_order done p ->
  provision_stream self (index, src) p = Ok p' ->
  provisioned_in_order (done ++ [(index, src)]) p'.
Proof.
  intros [Hty [cc Hcc]]%eligible_type Hfresh (Hcm & Hdst & Hauto & Hvar). cbn [snd] in *.
  assert (Hkeys : index ∉ map fst (p_ctx_map p)).
  { replace (map fst (p_ctx_map p)) with (map fst done); [done|].
    rewrite <- fst_entries_of, <- Hcm, map_map. done. }
  assert (Hlen : length (p_dst p) = length done) by (symmetry; by eapply Forall2_length).
  assert (Hpred : match (done ++ [(index, src)])%list with
                  | [] => None
                  | _ => Some (pred (length (done ++ [(index, src)])))
                  end = Some (length (p_dst p))).
  { rewrite length_app, Hlen. cbn [length]. replace (length done + 1)%nat with (S (length done)) by lia.
    by destruct done. }
  unfold provision_stream, set_thread_types. rewrite Hcc.
  destruct (String.eqb (s_type src) ID_VIDEO_STREAM) eqn:Hv.
  - intros (max_fps & _ & ([w h] & _ & [= <-])%rbind_Ok)%rbind_Ok.
    unfold provisioned_in_order. cbn [p_dst_stream p_dst p_ctx_map p_src_auto].
    split; [|split; [|split]].
    + rewrite dict_set_fresh by done. rewrite map_app, Hcm, entries_of_snoc. cbn.
      apply String.eqb_eq in Hv. by rewrite Hlen, Hv.
    + rewrite set_thread_type_last. apply Forall2_app; [done|]. constructor; [|constructor].
      split; [done|]. cbn [snd]. rewrite Hv. done.
    + by rewrite Hauto, map_app.
    + by rewrite Hpred.
  - destruct Hty as [Hty|Hty]; [by rewrite Hty in Hv|].
    rewrite Hty. cbn [String.eqb Ascii.eqb Bool.eqb andb]. change (String.eqb ID_AUDIO_STREAM ID_AUDIO_STREAM) with true.
    cbv iota. intros [= <-].
    unfold provisioned_in_order. cbn [p_dst_stream p_dst p_ctx_map p_src_auto].
    split; [|split; [|split]].
    + rewrite dict_set_fresh by done. rewrite map_app, Hcm, entries_of_snoc. cbn.
      by rewrite Hlen, Hty.
    + rewrite set_thread_type_last. apply Forall2_app; [done|]. constructor; [|constructor].
      split; [done|]. cbn [snd]. rewrite Hv. done.
    + by rewrite Hauto, map_app.
    + by rewrite Hpred.
Qed.

Lemma rfold_provision_in_order done valid p p' :
  (forall x, x ∈ valid -> eligible x) -> NoDup (map fst (done ++ valid)) ->
  provisioned_in_order done p ->
  rfold (provision_stream self) valid p = Ok p' ->
  provisioned_in_order (done ++ valid) p'.
Proof.
  revert done p. induction valid as [|[index src] valid IH]; intros done p Hel Hnd Hp; simpl.
  - intros [= <-]. by rewrite app_nil_r.
  - intros (p1 & H1 & Hrest)%rbind_Ok.
    replace (done ++ (index, src) :: valid)%list with ((done ++ [(index, src)]) ++ valid)%list
      in * by (by rewrite <- app_assoc).
    eapply IH; [| |  |exact Hrest].
    + intros x Hx. apply Hel. by right.
    + done.
    + eapply provision_stream_in_order; [| |exact Hp|exact H1].
      * apply Hel. by left.
      * rewrite !map_app in Hnd. apply NoDup_app in Hnd as [Hnd _].
        apply NoDup_app in Hnd as (_ & Hnd & _). intros Hin. apply (Hnd _ Hin). by left.
Qed.

Lemma limit_rel_summary time_base evs (ctx_map ctx_map' : list (nat * ctx)) :
  Forall2 (limit_rel time_base evs) ctx_map ctx_map' ->
  map entry_summary ctx_map' = map entry_summary ctx_map.
Proof.
  induction 1 as [|[i c] [i' c'] l l' Hrel _ IH]; [done|].
  cbn [map]. rewrite IH. f_equal. destruct Hrel as (Hi & _ & Ha). cbn [fst snd] in *.
  unfold entry_summary. cbn [fst snd]. subst i'.
  destruct (attrs c) as [s d fps|s d].
  - destruct Ha as (-> & _). done.
  - by rewrite Ha.
Qed.

(** [prepare_destination], when it returns: the state of the provisioning
    loop and the context map. *)
Lemma prepare_destination_in_order source time_base evs p :
  prepare_destination self source time_base = (evs, Ok p) ->
  exists p0 evs',
    provisioned_in_order (filter eligible (enumerate source)) p0 /\
    mapM (limit_max_fps time_base (p_dst_stream p0)) (p_ctx_map p0) = (evs', Ok (p_ctx_map p)) /\
    evs = (omap skip_warning (enumerate source) ++ evs')%list /\
    map entry_summary (p_ctx_map p) = entries_of (filter eligible (enumerate source)) /\
    p_dst p = p_dst p0 /\ p_src_auto p = p_src_auto p0.
Proof.
  intros Hrun. pose proof Hrun as (p0 & evs' & Hp0 & Hcm & Hdst & ->)%prepare_destination_Ok.
  assert (Hinv : provisioned_in_order (filter eligible (enumerate source)) p0).
  { apply (rfold_provision_in_order [] _ empty_provision).
    - intros x Hx. by apply list_elem_of_filter in Hx as [? _].
    - apply NoDup_eligible.
    - by repeat split; constructor.
    - exact Hp0. }
  exists p0, evs'. split; [done|]. split; [done|]. split; [done|].
  pose proof (mapM_limit_max_fps _ _ _ _ _ Hcm) as Hrel.
  split; [|split; [done|]].
  - rewrite (limit_rel_summary _ _ _ _ Hrel). by destruct Hinv.
  - unfold prepare_destination in Hrun. rewrite select_streams in Hrun.
    apply bind_Ok in Hrun as (l1 & valid & l2 & [= <- <-] & Hrest & _).
    apply bind_Ok in Hrest as (l3 & p1 & l4 & [Hp1 ->]%lift_Ok & Hrest & _).
    apply bind_Ok in Hrest as (l5 & cm & l6 & _ & [<- ->]%ret_Ok & _).
    cbn [app] in Hp1. rewrite Hp0 in Hp1. by injection Hp1 as <-.
Qed.

End InOrder.

(** X7.  When [prepare_destination] returns, its context map has one entry
    for each stream of the source that was not skipped, in the order of the
    streams and under the index of the stream, and the destination has as
    many streams: the [k]-th entry is a video context for a video stream and
    an audio context for an audio stream, its source is this stream and its
    destination the [k]-th stream of the destination. *)
Theorem prepare_destination_entries `{Builtins} `{EditContexts}
  (self : editor) (source : list src_stream) (time_base : nat -> Q)
  (evs : list log) (p : provision) :
  prepare_destination self source time_base = (evs, Ok p) ->
  map entry_summary (p_ctx_map p) = entries_of (filter eligible (enumerate source)) /\
  length (p_dst p) = length (filter eligible (enumerate source)).
Proof.
  intros (p0 & evs' & (_ & Hdst & _) & _ & _ & Hcm & -> & _)%prepare_destination_in_order.
  split; [done|]. symmetry. by eapply Forall2_length.
Qed.

Lemma prepare_destination_entries_witness :
  exists evs p,
    @prepare_destination no_text Samples.all_active Samples.sample_editor
      Samples.recording Samples.coarse_time_base = (evs, Ok p) /\
    map (entry_summary (H:=Samples.all_active)) (p_ctx_map p)
    = [(0, 0, 0, "video"); (2, 2, 1, "audio")]%nat /\
    length (p_dst p) = 2%nat.
Proof.
  eexists _, _. split; [reflexivity|].
  eapply (prepare_destination_entries (H:=no_text) (H0:=Samples.all_active)
            Samples.sample_editor Samples.recording Samples.coarse_time_base).
  reflexivity.
Defined.

(** X8.  When [prepare_destination] returns, the thread type of every
    stream of the destination and of every source stream that was not
    skipped is set to ['AUTO']; the destination stream of a video stream has
    the time base 1/60000, for itself and for its codec, and the pixel
    format of the source stream, and the destination stream of an audio
    stream is given none of these. *)
Theorem prepare_destination_asks `{Builtins} `{EditContexts}
  (self : editor) (source : list src_stream) (time_base : nat -> Q)
  (evs : list log) (p : provision) :
  prepare_destination self source time_base = (evs, Ok p) ->
  Forall2 asked_of (filter eligible (enumerate source)) (p_dst p) /\
  p_src_auto p = map fst (filter eligible (enumerate source)).
Proof.
  intros (p0 & evs' & (_ & Hdst & Hauto & _) & _ & _ & _ & -> & ->)%prepare_destination_in_order.
  done.
Qed.

Lemma prepare_destination_asks_witness :
  exists evs p,
    @prepare_destination no_text Samples.all_active Samples.sample_editor
      Samples.recording Samples.coarse_time_base = (evs, Ok p) /\
    Forall2 asked_of [(0%nat, Samples.video_stream); (2%nat, Samples.audio_stream)] (p_dst p) /\
    p_src_auto p = [0; 2]%nat.
Proof.
  eexists _, _. split; [reflexivity|].
  eapply (prepare_destination_asks (H:=no_text) (H0:=Samples.all_active)
            Samples.sample_editor Samples.recording Samples.coarse_time_base).
  reflexivity.
Defined.

(** *** What makes the provisioning raise *)

(** Whether the provisioning loop returns for a stream that was kept: for
    a video stream the maximum frame rate must resolve to a fraction and
    the resolution to two values. *)
Definition provisionable `{Builtins} (self : editor) (ist : nat * src_stream) : bool :=
  let settings := merged_settings self (fst ist) (s_type (snd ist)) in
  if String.eqb (s_type (snd ist)) ID_VIDEO_STREAM then
    is_ok (resolve_max_fps settings (s_guessed_rate (snd ist)))
    && is_ok (unpack2 (get settings ID_RESOLUTION
                         (PList [s_width (snd ist); s_height (snd ist)])))
  else true.

(** Whether the loop over the video contexts returns for an entry. *)
Definition representable `{EditContexts} (time_base : nat -> Q) (ic : nat * ctx) : bool :=
  match attrs (snd ic) with
  | VideoEditContext _ d _ => negb (Qeq_bool (time_base d) 0)
  | AudioEditContext _ _ => true
  end.

Section Returns.
Context `{Builtins} `{EditContexts}.
Variable self : editor.

Lemma provision_stream_is_ok ist p :
  eligible ist -> is_ok (provision_stream self ist p) = provisionable self ist.
Proof.
  destruct ist as [index src].
  intros [Hty [cc Hcc]]%eligible_type. cbn [fst snd] in *.
  unfold provision_stream, provisionable, set_thread_types. cbn [fst snd]. rewrite Hcc.
  destruct (String.eqb (s_type src) ID_VIDEO_STREAM) eqn:Hv.
  - destruct (resolve_max_fps _ _) as [fps|e]; [|done].
    destruct (unpack2 _) as [[w h]|e]; done.
  - destruct Hty as [Hty|Hty]; [by rewrite Hty in Hv|].
    rewrite Hty. by change (String.eqb ID_AUDIO_STREAM ID_AUDIO_STREAM) with true.
Qed.

Lemma rfold_provision_is_ok valid p :
  (forall x, x ∈ valid -> eligible x) ->
  is_ok (rfold (provision_stream self) valid p) = forallb (provisionable self) valid.
Proof.
  revert p. induction valid as [|ist valid IH]; intros p Hel; [done|].
  cbn [rfold forallb]. rewrite <- (provision_stream_is_ok ist p) by (apply Hel; by left).
  destruct (provision_stream self ist p) as [p1|e]; [|done].
  cbn [rbind is_ok andb]. apply IH. intros x Hx. apply Hel. by right.
Qed.

Lemma mapM_limit_is_ok time_base dst_stream (ctx_map : list (nat * ctx)) :
  ctx_map = [] \/ is_Some dst_stream ->
  is_ok (snd (mapM (limit_max_fps time_base dst_stream) ctx_map))
  = forallb (representable time_base) ctx_map.
Proof.
  intros Hd. assert (Hd' : ctx_map <> [] -> is_Some dst_stream).
  { intros ?. by destruct Hd. }
  clear Hd. induction ctx_map as [|[idx c] l IH]; [done|].
  destruct Hd' as [j ->]; [done|]. cbn [mapM forallb].
  assert (Hone : is_ok (snd (limit_max_fps time_base (Some j) (idx, c)))
                 = representable time_base (idx, c)).
  { unfold limit_max_fps, representable. cbn [fst snd].
    destruct (attrs c) as [s d fps|s d]; [|done].
    destruct (Qeq_bool (time_base d) 0); [done|].
    by destruct (negb (Qle_bool fps (1 / time_base d))). }
  rewrite <- Hone.
  destruct (limit_max_fps time_base (Some j) (idx, c)) as [l1 [ic|e]]; [|done].
  cbn [Eff.bind fst snd is_ok andb].
  rewrite <- IH by (intros _; eauto).
  destruct (mapM _ l) as [l2 [l'|e]]; done.
Qed.

Lemma forallb_representable time_base (ctx_map : list (nat * ctx)) valid :
  map entry_summary ctx_map = entries_of valid ->
  forallb (representable time_base) ctx_map = true <->
  forall k index src, valid !! k = Some (index, src) -> s_type src = ID_VIDEO_STREAM ->
    ~ (time_base k == 0)%Q.
Proof.
  intros Hcm. rewrite forallb_forall. split.
  - intros Hall k index src Hk Hv Hz.
    assert (Hent : map entry_summary ctx_map !! k = Some (index, index, k, s_type src)).
    { rewrite Hcm. unfold entries_of. rewrite list_lookup_imap, Hk. done. }
    change (map entry_summary ctx_map) with (entry_summary <$> ctx_map) in Hent.
    rewrite list_lookup_fmap in Hent.
    destruct (ctx_map !! k) as [[i c]|] eqn:Hc; [|done].
    injection Hent as Hi Hs Hd Hkind.
    assert (Hin : In (i, c) ctx_map) by (apply list_elem_of_In, list_elem_of_lookup; eauto).
    apply Hall in Hin. unfold representable in Hin. cbn [fst snd] in *.
    destruct (attrs c) as [s d fps|s d]; cbn in *.
    + subst d. apply Qeq_bool_iff in Hz. by rewrite Hz in Hin.
    + rewrite Hv in Hkind. discriminate.
  - intros Hall [i c] Hin. apply list_elem_of_In, list_elem_of_lookup in Hin as [k Hk].
    assert (Hent : entries_of valid !! k = Some (entry_summary (i, c))).
    { rewrite <- Hcm. change (map entry_summary ctx_map) with (entry_summary <$> ctx_map).
      by rewrite list_lookup_fmap, Hk. }
    unfold entries_of in Hent. apply list_lookup_imap_Some in Hent as ([index src] & Hv & Heq).
    unfold entry_summary, representable in *. cbn [fst snd] in *.
    destruct (attrs c) as [s d fps|s d]; [|done]. cbn in Heq.
    injection Heq as -> -> -> Hkind. symmetry in Hkind.
    destruct (Qeq_bool (time_base k) 0) eqn:Hz; [|done].
    apply Qeq_bool_iff in Hz. by apply (Hall k index src) in Hz.
Qed.

End Returns.

(** What a run of [prepare_destination] that returns has found for every
    video stream it kept. *)
Lemma prepare_destination_Ok_video `{Builtins} `{EditContexts}
  (self : editor) (source : list src_stream) (time_base : nat -> Q) :
  is_ok (snd (prepare_destination self source time_base)) = true ->
  forall k index src,
    filter eligible (enumerate source) !! k = Some (index, src) ->
    s_type src = ID_VIDEO_STREAM ->
    is_ok (resolve_max_fps (merged_settings self index ID_VIDEO_STREAM) (s_guessed_rate src))
    = true /\
    is_ok (unpack2 (get (merged_settings self index ID_VIDEO_STREAM) ID_RESOLUTION
                      (PList [s_width src; s_height src]))) = true /\
    ~ (time_base k == 0)%Q.
Proof.
  remember (filter eligible (enumerate source)) as valid eqn:Hvalid.
  assert (Hel : forall x, x ∈ valid -> eligible x).
  { intros x Hx. rewrite Hvalid in Hx. by apply list_elem_of_filter in Hx as [? _]. }
  intros Hok.
  destruct (prepare_destination self source time_base) as [evs [p|e]] eqn:Hrun;
    [|discriminate].
  pose proof Hrun as (p0 & evs' & Hp0 & Hlim & _)%prepare_destination_Ok.
  apply prepare_destination_in_order in Hrun
    as (p0' & evs'' & (Hcm & _ & _ & Hvar) & Hlim' & _).
  rewrite <- Hvalid in Hp0, Hcm, Hvar.
  assert (Hp : forallb (provisionable self) valid = true).
  { rewrite <- (rfold_provision_is_ok self valid empty_provision Hel). by rewrite Hp0. }
  assert (Hrep : forallb (representable time_base) (p_ctx_map p0') = true).
  { rewrite <- (mapM_limit_is_ok time_base (p_dst_stream p0')).
    - by rewrite Hlim'.
    - rewrite Hvar. destruct valid as [|x l]; [|eauto]. left.
      by destruct (p_ctx_map p0'). }
  intros k index src Hk Hv.
  assert (Hin : In (index, src) valid) by (apply list_elem_of_In, list_elem_of_lookup; eauto).
  rewrite forallb_forall in Hp. apply Hp in Hin. unfold provisionable in Hin.
  cbn [fst snd] in Hin. rewrite Hv in Hin.
  change (String.eqb ID_VIDEO_STREAM ID_VIDEO_STREAM) with true in Hin.
  apply andb_prop in Hin as [H1 H2]. split; [done|]. split; [done|].
  by apply (proj1 (forallb_representable time_base _ valid Hcm) Hrep k index src).
Qed.

(** X9.  [prepare_destination] raises when, for some video stream that is
    not skipped, there is no frame rate to take (the stream has no guessed
    rate and neither its index nor its type has a [max-fps] setting), or
    the resolution holds other than two values, or the time base of its
    stream in the destination is zero. *)
Theorem prepare_destination_raises `{Builtins} `{EditContexts}
  (self : editor) (source : list src_stream) (time_base : nat -> Q)
  (k index : nat) (src : src_stream) :
  filter eligible (enumerate source) !! k = Some (index, src) ->
  s_type src = ID_VIDEO_STREAM ->
  (merged_settings self index ID_VIDEO_STREAM !! ID_MAX_FPS = None /\
   s_guessed_rate src = None) \/
  (exists l, get (merged_settings self index ID_VIDEO_STREAM) ID_RESOLUTION
               (PList [s_width src; s_height src]) = PList l /\ length l <> 2%nat) \/
  (time_base k == 0)%Q ->
  exists evs e, prepare_destination self source time_base = (evs, Err e).
Proof.
  intros Hk Hv Hbad.
  destruct (prepare_destination self source time_base) as [evs [p|e]] eqn:Hrun; [|eauto].
  exfalso.
  destruct (prepare_destination_Ok_video self source time_base) with (k := k) (index := index)
    (src := src) as (Hfps & Hres & Htb); [by rewrite Hrun|done|done|].
  destruct Hbad as [[Hnone Hrate]|[(l & Hl & Hlen)|Hz]].
  - unfold resolve_max_fps in Hfps. by rewrite Hnone, Hrate in Hfps.
  - rewrite Hl in Hres. unfold unpack2 in Hres. cbn [py_iter rbind] in Hres.
    by destruct l as [|a [|b [|c l]]].
  - done.
Qed.

Lemma prepare_destination_raises_witness :
  let camera :=
    {| s_type := "video";
       s_codec_context := Some {| cc_name := "h264"; cc_options := PDict [] |};
       s_bit_rate := PInt 1000000; s_width := PInt 640; s_height := PInt 480;
       s_guessed_rate := None; s_pix_fmt := PStr "yuv420p";
       s_sample_rate := PNone; s_channels := PNone |} in
  exists evs e,
    @prepare_destination Samples.sample_builtins Samples.all_active (init None None)
      [Samples.audio_stream; camera] Samples.coarse_time_base = (evs, Err e).
Proof.
  intros camera.
  apply (prepare_destination_raises (H:=Samples.sample_builtins) (H0:=Samples.all_active)
           (init None None) [Samples.audio_stream; camera] Samples.coarse_time_base
           1%nat 1%nat camera).
  - reflexivity.
  - reflexivity.
  - left. split; reflexivity.
Defined.

(** *** The stream named by the warning on the time base *)

Lemma mapM_limit_events `{EditContexts} time_base dst_stream (ctx_map : list (nat * ctx))
  evs r ev :
  mapM (limit_max_fps time_base dst_stream) ctx_map = (evs, r) -> ev ∈ evs ->
  exists j max_fps possible_fps,
    dst_stream = Some j /\ ev = Warning (LowTimeBaseResolution j max_fps possible_fps).
Proof.
  revert evs r. induction ctx_map as [|[idx c] l IH]; intros evs r; cbn [mapM].
  - intros [= <- _] Hin. by apply elem_of_nil in Hin.
  - assert (Hone : forall l1 r1, limit_max_fps time_base dst_stream (idx, c) = (l1, r1) ->
              ev ∈ l1 ->
              exists j max_fps possible_fps,
                dst_stream = Some j /\ ev = Warning (LowTimeBaseResolution j max_fps possible_fps)).
    { intros l1 r1. unfold limit_max_fps. cbn [fst snd].
      destruct (attrs c) as [s d fps|s d]; [|by intros [= <- _] ?%elem_of_nil].
      destruct (Qeq_bool (time_base d) 0); [by intros [= <- _] ?%elem_of_nil|].
      destruct (negb (Qle_bool fps (1 / time_base d))); [|by intros [= <- _] ?%elem_of_nil].
      destruct dst_stream as [j|]; [|by intros [= <- _] ?%elem_of_nil].
      intros [= <- _] ->%list_elem_of_singleton. eauto. }
    destruct (limit_max_fps time_base dst_stream (idx, c)) as [l1 [ic|e]] eqn:H1;
      cbn [Eff.bind].
    + destruct (mapM _ l) as [l2 [l'|e]] eqn:H2; cbn [Eff.bind ret].
      * intros [= <- _] [Hin|[Hin|Hin%elem_of_nil]%elem_of_app]%elem_of_app; [|by eapply IH|done].
        by eapply Hone.
      * intros [= <- _] [Hin|Hin]%elem_of_app; [by eapply Hone|by eapply IH].
    + intros [= <- _] Hin. by eapply Hone.
Qed.

(** X10.  The warning that a time base is too coarse for a maximum frame
    rate names a stream by the variable [dst_stream], which the provisioning
    loop left bound to the stream it added last: whichever video stream is
    concerned, the index in the warning is that of the last stream of the
    destination. *)
Theorem prepare_destination_warning_index `{Builtins} `{EditContexts}
  (self : editor) (source : list src_stream) (time_base : nat -> Q)
  (evs : list log) (p : provision) (j : nat) (max_fps possible_fps : Q) :
  prepare_destination self source time_base = (evs, Ok p) ->
  Warning (LowTimeBaseResolution j max_fps possible_fps) ∈ evs ->
  S j = length (p_dst p).
Proof.
  intros (p0 & evs' & (_ & Hdst & _ & Hvar) & Hlim & -> & _ & -> & _)%prepare_destination_in_order.
  intros [Hin|Hin]%elem_of_app.
  - apply list_elem_of_omap in Hin as (ist & _ & Hskip). unfold skip_warning in Hskip.
    destruct (str_in _ _); [|discriminate]. destruct (s_codec_context _); discriminate.
  - destruct (mapM_limit_events _ _ _ _ _ _ Hlim Hin) as (j' & ? & ? & Hj & [= <- _ _]).
    apply Forall2_length in Hdst. rewrite <- Hdst. rewrite Hvar in Hj.
    destruct (filter eligible (enumerate source)); [discriminate|].
    injection Hj as <-. done.
Qed.

Lemma prepare_destination_warning_index_witness :
  exists evs p max_fps,
    @prepare_destination no_text Samples.all_active Samples.sample_editor
      Samples.recording Samples.coarse_time_base = (evs, Ok p) /\
    Warning (LowTimeBaseResolution 1 max_fps 100) ∈ evs /\
    map entry_summary (p_ctx_map p) = [(0, 0, 0, "video"); (2, 2, 1, "audio")]%nat /\
    2%nat = length (p_dst p).
Proof.
  eexists _, _, _. split; [reflexivity|].
  assert (Hin : Warning (LowTimeBaseResolution 1 (8444249301319680 # 70368744177664) 100)
                ∈ [Warning (SkippingNotSupported 1 "subtitle");
                   Warning (LowTimeBaseResolution 1 (8444249301319680 # 70368744177664) 100)]).
  { right. left. }
  split; [exact Hin|]. split; [reflexivity|].
  eapply (prepare_destination_warning_index (H:=no_text) (H0:=Samples.all_active)
            Samples.sample_editor Samples.recording Samples.coarse_time_base).
  - reflexivity.
  - exact Hin.
Defined.

(** ** The containers and the phases of an edit (edit) *)

Definition is_close (ev : event) : bool :=
  match ev with CloseDest | CloseSource => true | _ => false end.

Lemma Forall_not_elem_of {A} (g : A -> bool) (l : list A) x :
  Forall (fun y => g y = false) l -> g x = true -> x ∉ l.
Proof.
  intros Hl Hx Hin. rewrite List.Forall_forall in Hl. apply list_elem_of_In, Hl in Hin.
  congruence.
Qed.

Lemma Forall_kind_other {A} (f g : A -> bool) (l : list A) :
  Forall (fun x => f x = true) l -> (forall x, f x = true -> g x = false) ->
  Forall (fun x => g x = false) l.
Proof. intros Hl Hfg. eapply Forall_impl; [exact Hl|]. auto. Qed.

Section Closing.
Context `{Builtins} `{EditContexts}.
Variable self : editor.

Lemma edit_valid_streams_no_close source dest ctx_map streams_ordered valid_streams src_path :
  Forall (fun ev => is_close ev = false)
    (fst (edit_valid_streams source dest ctx_map streams_ordered valid_streams src_path)).
Proof.
  unfold edit_valid_streams. destruct (0 <? length valid_streams)%nat; [|by repeat constructor].
  destruct (py_index _ 0) as [first_ctx|e]; cbn [lift Eff.bind fst]; [|constructor].
  destruct (dict_get first_ctx ctx_map) as [c|]; [|constructor].
  set (loop := edit_loop _ _). pose proof (edit_loop_events _ _ : Forall _ (fst loop)) as Hl.
  apply (Forall_kind_other _ is_close) in Hl; [|by intros []].
  destruct loop as [evs [cm|e]]; cbn [emit Eff.bind app fst] in *.
  - rewrite foldM_flush. cbn [fst app]. constructor; [done|].
    apply Forall_app. split; [done|]. clear. induction (seq _ _); by constructor.
  - by constructor.
Qed.

(** The events of [edit] before the closing: none closes a container. *)
Lemma edit_phases_no_close source time_base resolve src_path changes dst_path :
  exists evs0,
    Forall (fun ev => is_close ev = false) evs0 /\
    edit self source time_base resolve src_path changes dst_path
    = match snd (edit self source time_base resolve src_path changes dst_path) with
      | Ok _ =>
          ((evs0 ++ [Log (Info (FinishedEditing (resolve src_path) (resolve dst_path)));
                     CloseDest; CloseSource])%list, Ok tt)
      | Err e => (evs0, Err e)
      end /\
    exists evs1,
      evs0 = ([Log (Info (StartedEditing src_path)); OpenSource (resolve src_path);
               OpenDest (resolve dst_path)] ++ evs1)%list.
Proof.
  rewrite edit_run. cbv zeta.
  set (setup := [_; _; _]).
  assert (Hsetup : Forall (fun ev => is_close ev = false) setup) by (by repeat constructor).
  destruct (prepare_destination self (streams source) time_base) as [lp [p|e]]; cbn [fst snd].
  2:{ eexists. split; [|split; [reflexivity|by eexists]].
      apply Forall_app. split; [done|]. clear. induction lp; by constructor. }
  assert (Hlogs : Forall (fun ev => is_close ev = false) (map Log lp)).
  { clear. induction lp; by constructor. }
  destruct (foldM (probe source) _ _) as [le rp] eqn:Hprobe. cbn [fst snd].
  pose proof (probe_events _ _ _ _ _ Hprobe) as Hle.
  apply (Forall_kind_other _ is_close) in Hle; [|by intros []].
  destruct rp as [[cm1 first_pkts]|e].
  2:{ eexists. split; [|split; [reflexivity|by eexists]]. by rewrite !Forall_app. }
  destruct (prime_result changes cm1 cm1 []) as (lm & cm2 & valid & -> & Hlm & _).
  apply (Forall_kind_other _ is_close) in Hlm; [|by intros []].
  cbn [fst snd].
  pose proof (edit_valid_streams_no_close source (p_dst p) cm2
                (map fst (sorted_by_snd first_pkts)) valid (resolve src_path)) as Hev.
  destruct (edit_valid_streams _ _ _ _ _ _) as [lv [[]|e]]; cbn [fst snd] in *.
  - exists (setup ++ map Log lp ++ le ++ lm ++ lv)%list. split; [by rewrite !Forall_app|].
    split; [by rewrite <- !app_assoc|]. by eexists.
  - eexists. split; [|split; [reflexivity|by eexists]]. by rewrite !Forall_app.
Qed.

Lemma probe_fails source (l : list (nat * ctx)) acc idx c :
  (idx, c) ∈ l -> first_timestamp source (ctx_src (attrs c)) = None ->
  snd (foldM (probe source) l acc) = Err (Raised KStopIteration) \/
  snd (foldM (probe source) l acc) = Err (Raised KTypeError).
Proof.
  revert acc. induction l as [|[idx0 c0] l IH]; intros [cm fp] Hin Hnone.
  - by apply elem_of_nil in Hin.
  - simpl.
    destruct (first_packet source (ctx_src (attrs c0))) as [first_pkt|] eqn:Hfp;
      simpl; [|by left].
    destruct (pk_dts first_pkt) as [dts|] eqn:Hdts; simpl; [|by right].
    apply elem_of_cons in Hin as [[= <- <-]|Hin].
    { unfold first_timestamp in Hnone. by rewrite Hfp, Hdts in Hnone. }
    specialize (IH (dict_set idx0
      {| attrs := attrs c0; priv := seek_beginning (attrs c0) (priv c0) |} cm,
      dict_set idx0 (inject_Z dts * pk_time_base first_pkt)%Q fp) Hin Hnone).
    destruct (foldM (probe source) l _) as [evs' r']. exact IH.
Qed.

End Closing.

(** X11.  [edit] opens the source and the destination first, whatever
    follows, and closes them only when it returns: when it returns, the
    closing message and the closing of the destination and of the source
    are its last events and nothing was closed before; when it raises,
    neither container was closed. *)
Theorem edit_closes_iff_returns `{Builtins} `{EditContexts}
  (self : editor) (source : source_container) (time_base : nat -> Q)
  (resolve : string -> string) (src_path : string) (changes : list TimelineChange)
  (dst_path : string) (evs : list event) (r : result unit) :
  edit self source time_base resolve src_path changes dst_path = (evs, r) ->
  (exists evs1,
     evs = ([Log (Info (StartedEditing src_path)); OpenSource (resolve src_path);
             OpenDest (resolve dst_path)] ++ evs1)%list) /\
  (r = Ok tt ->
   exists evs0,
     evs = (evs0 ++ [Log (Info (FinishedEditing (resolve src_path) (resolve dst_path)));
                     CloseDest; CloseSource])%list /\
     (CloseDest ∉ evs0) /\ (CloseSource ∉ evs0)) /\
  (forall e, r = Err e -> (CloseDest ∉ evs) /\ (CloseSource ∉ evs)).
Proof.
  intros Hrun.
  destruct (edit_phases_no_close self source time_base resolve src_path changes dst_path)
    as (evs0 & Hno & Heq & evs1 & Hstart).
  rewrite Hrun in Heq. cbn [snd] in Heq. split; [|split].
  - destruct r as [[]|e]; injection Heq as ->.
    + rewrite Hstart. eexists. by rewrite <- app_assoc.
    + by eexists.
  - intros ->. injection Heq as ->. exists evs0. split; [done|].
    split; by apply (Forall_not_elem_of is_close).
  - intros e ->. injection Heq as ->. split; by apply (Forall_not_elem_of is_close).
Qed.

Lemma edit_closes_iff_returns_witness :
  let run := @edit Samples.sample_builtins Samples.two_packets_each Samples.sample_editor
               Samples.container Samples.coarse_time_base (fun path => path)
               "in.mp4" Samples.changes "out.mp4" in
  snd run = Ok tt /\
  exists evs0,
    fst run = (evs0 ++ [Log (Info (FinishedEditing "in.mp4" "out.mp4"));
                        CloseDest; CloseSource])%list /\
    (CloseDest ∉ evs0) /\ (CloseSource ∉ evs0).
Proof.
  intros run. split; [reflexivity|].
  apply (proj1 (proj2 (edit_closes_iff_returns (H:=Samples.sample_builtins)
                         (H0:=Samples.two_packets_each) Samples.sample_editor
                         Samples.container Samples.coarse_time_base (fun path => path)
                         "in.mp4" Samples.changes "out.mp4" (fst run) (snd run)
                         (surjective_pairing run)))).
  reflexivity.
Defined.

(** A stream without a first packet, or whose first packet has no
    [dts], makes [edit] raise before any context is prepared. *)
Lemma edit_probe_fails `{Builtins} `{EditContexts}
  (self : editor) (source : source_container) (time_base : nat -> Q)
  (resolve : string -> string) (src_path : string) (changes : list TimelineChange)
  (dst_path : string) (lp : list log) (p : provision) (index : nat) (c : ctx) :
  prepare_destination self (streams source) time_base = (lp, Ok p) ->
  (index, c) ∈ p_ctx_map p ->
  first_timestamp source index = None ->
  let run := edit self source time_base resolve src_path changes dst_path in
  (snd run = Err (Raised KStopIteration) \/ snd run = Err (Raised KTypeError)) /\
  (forall j valid, PrepareForEditing j valid ∉ fst run) /\
  (CloseDest ∉ fst run) /\ (CloseSource ∉ fst run).
Proof.
  intros Hpd Hin Hnone run.
  assert (Hsrc : ctx_src (attrs c) = index)
    by (by eapply (prepare_destination_ctx_src self)).
  rewrite <- Hsrc in Hnone.
  pose proof (probe_fails source (p_ctx_map p) (p_ctx_map p, []) index c Hin Hnone) as Hfail.
  assert (Hrun : exists e, run = (([Log (Info (StartedEditing src_path));
                                    OpenSource (resolve src_path); OpenDest (resolve dst_path)]
                                   ++ map Log lp
                                   ++ fst (foldM (probe source) (p_ctx_map p) (p_ctx_map p, [])))%list,
                                  Err e)
                           /\ (e = Raised KStopIteration \/ e = Raised KTypeError)).
  { unfold run. rewrite edit_run. cbv zeta. rewrite Hpd. cbn [fst snd].
    destruct (snd (foldM (probe source) _ _)) as [?|e]; [by destruct Hfail|].
    exists e. split; [done|]. destruct Hfail as [[= ->]|[= ->]]; auto. }
  destruct Hrun as (e & -> & He). cbn [fst snd].
  destruct (foldM (probe source) _ _) as [le rp] eqn:Hprobe. cbn [fst].
  pose proof (probe_events _ _ _ _ _ Hprobe) as Hle.
  assert (Hkinds : Forall (fun ev => is_setup ev || is_probe ev = true)
            ([Log (Info (StartedEditing src_path)); OpenSource (resolve src_path);
              OpenDest (resolve dst_path)] ++ map Log lp ++ le)%list).
  { rewrite !Forall_app. split; [by repeat constructor|]. split.
    - clear. induction lp; by constructor.
    - eapply Forall_impl; [exact Hle|]. intros ev ->. apply orb_true_r. }
  split; [destruct He as [-> | ->]; auto|]. split; [|split].
  - intros j valid. apply (Forall_not_elem_of is_prepare); [|done].
    eapply Forall_impl; [exact Hkinds|]. by intros [].
  - apply (Forall_not_elem_of is_close); [|done].
    rewrite !Forall_app. split; [by repeat constructor|]. split.
    + clear. induction lp; by constructor.
    + apply (Forall_kind_other is_probe); [done|by intros []].
  - apply (Forall_not_elem_of is_close); [|done].
    rewrite !Forall_app. split; [by repeat constructor|]. split.
    + clear. induction lp; by constructor.
    + apply (Forall_kind_other is_probe); [done|by intros []].
Qed.


(** X12.  [edit] reads the first packet of every provisioned stream before
    it prepares any context: when a provisioned stream has no packet
    ([next] raises [StopIteration]) or its first packet has no [dts] (the
    product with the time base raises [TypeError]), [edit] raises, no
    context is prepared for editing, and the containers are left open. *)
Theorem edit_needs_first_packets `{Builtins} `{EditContexts}
  (self : editor) (source : source_container) (time_base : nat -> Q)
  (resolve : string -> string) (src_path : string) (changes : list TimelineChange)
  (dst_path : string) (lp : list log) (p : provision) (index : nat) (c : ctx) :
  prepare_destination self (streams source) time_base = (lp, Ok p) ->
  (index, c) ∈ p_ctx_map p ->
  first_timestamp source index = None ->
  let run := edit self source time_base resolve src_path changes dst_path in
  (snd run = Err (Raised KStopIteration) \/ snd run = Err (Raised KTypeError)) /\
  (forall j valid, PrepareForEditing j valid ∉ fst run) /\
  (CloseDest ∉ fst run) /\ (CloseSource ∉ fst run).
Proof. apply edit_probe_fails. Qed.

Lemma edit_needs_first_packets_witness :
  let silent := {| streams := Samples.recording; first_packet := fun _ => None;
                   demux := fun _ _ => [] |} in
  let run := @edit Samples.sample_builtins Samples.all_active Samples.sample_editor
               silent Samples.coarse_time_base (fun path => path)
               "in.mp4" Samples.changes "out.mp4" in
  (snd run = Err (Raised KStopIteration) \/ snd run = Err (Raised KTypeError)) /\
  (forall j valid, PrepareForEditing j valid ∉ fst run) /\
  (CloseDest ∉ fst run) /\ (CloseSource ∉ fst run).
Proof.
  intros silent run.
  eapply (edit_needs_first_packets (H:=Samples.sample_builtins) (H0:=Samples.all_active)
            Samples.sample_editor silent Samples.coarse_time_base (fun path => path)
            "in.mp4" Samples.changes "out.mp4" _ _ 0%nat).
  - reflexivity.
  - apply list_elem_of_lookup. exists 0%nat. reflexivity.
  - reflexivity.
Defined.

(** *** Each stream once, in the order of the context map *)

(** The streams whose first packet was read, the contexts prepared and the
    destination streams flushed, in the order of the events. *)
Definition probed (evs : list event) : list nat :=
  omap (fun ev => match ev with DemuxFirst i _ => Some i | _ => None end) evs.

Definition prepared (evs : list event) : list nat :=
  omap (fun ev => match ev with PrepareForEditing i _ => Some i | _ => None end) evs.

Definition flushed (evs : list event) : list nat :=
  omap (fun ev => match ev with Flush j => Some j | _ => None end) evs.

Lemma omap_none {A B} (f : A -> option B) (g : A -> bool) (l : list A) :
  Forall (fun x => g x = true) l -> (forall x, g x = true -> f x = None) -> omap f l = [].
Proof.
  intros Hl Hf. induction Hl as [|x l Hx _ IH]; [done|].
  cbn [omap list_omap]. by rewrite (Hf x Hx).
Qed.

Lemma dict_set_keys {K V} `{EqDecision K} (k : K) (v : V) d :
  k ∈ map fst d -> map fst (dict_set k v d) = map fst d.
Proof.
  induction d as [|[k0 v0] d IH]; simpl; [by intros ?%elem_of_nil|].
  destruct (decide (k = k0)) as [->|Hne]; [done|].
  intros [?|Hin]%elem_of_cons; [done|]. simpl. by rewrite IH.
Qed.

Section Visits.
Context `{Builtins} `{EditContexts}.
Variable self : editor.

Lemma probe_visits source (l : list (nat * ctx)) cm0 fp0 :
  (forall idx c, (idx, c) ∈ l -> is_Some (first_timestamp source (ctx_src (attrs c)))) ->
  (forall idx, idx ∈ map fst l -> idx ∈ map fst cm0) ->
  exists le cm1 fp1,
    foldM (probe source) l (cm0, fp0) = (le, Ok (cm1, fp1)) /\
    probed le = map (fun ic => ctx_src (attrs (snd ic))) l /\
    prepared le = [] /\ flushed le = [] /\
    map fst cm1 = map fst cm0.
Proof.
  revert cm0 fp0. induction l as [|[idx c] l IH]; intros cm0 fp0 Hts Hkeys.
  - by eexists [], cm0, fp0.
  - destruct (Hts idx c) as [t Ht]; [by left|]. unfold first_timestamp in Ht. simpl.
    destruct (first_packet source (ctx_src (attrs c))) as [first_pkt|]; [|done].
    destruct (pk_dts first_pkt) as [dts|]; [|done]. simpl.
    edestruct (IH (dict_set idx {| attrs := attrs c;
                                   priv := seek_beginning (attrs c) (priv c) |} cm0)
                  (dict_set idx (inject_Z dts * pk_time_base first_pkt)%Q fp0))
      as (le & cm1 & fp1 & -> & Hp & Hq & Hf & Hk).
    + intros idx' c' Hin. apply (Hts idx' c'). by right.
    + intros idx' Hin. rewrite dict_set_keys; [|apply Hkeys; by left].
      apply Hkeys. by right.
    + eexists _, cm1, fp1. split; [reflexivity|].
      unfold probed, prepared, flushed in *. cbn [app omap list_omap map fst snd].
      rewrite Hp, Hq, Hf, Hk. rewrite dict_set_keys; [done|]. apply Hkeys. by left.
Qed.

Lemma prime_visits changes (l : list (nat * ctx)) cm0 (v0 : list (nat * nat)) :
  exists lm cm2 valid,
    foldM (prime changes) l (cm0, v0) = (lm, Ok (cm2, valid)) /\
    prepared lm = map fst l /\ probed lm = [] /\ flushed lm = [] /\
    (valid = [] <-> v0 = [] /\ existsb is_valid_prepare lm = false).
Proof.
  revert cm0 v0. induction l as [|[idx c] l IH]; intros cm0 v0.
  - eexists [], cm0, v0. repeat split; try done. by intros [? _].
  - simpl. destruct (prepare_for_editing (attrs c) (priv c) changes) as [st valid0] eqn:Hp.
    simpl.
    destruct (IH (dict_set idx {| attrs := attrs c; priv := st |} cm0)
                 (if valid0 then dict_set idx (ctx_src (attrs c)) v0 else v0))
      as (lm & cm2 & valid & -> & Hq & Hpr & Hf & Hv).
    eexists _, cm2, valid. split; [reflexivity|].
    unfold probed, prepared, flushed in *. cbn [app omap list_omap map fst snd existsb].
    rewrite Hq, Hpr, Hf.
    split; [done|]. split; [done|]. split; [done|].
    rewrite Hv. cbn [is_valid_prepare]. destruct valid0; cbn [orb]; [|done].
    split; [|by intros [_ [=]]]. intros [Hset _]. exfalso.
    destruct v0 as [|[k v] v0]; simpl in Hset; [done|]. by destruct (decide (idx = k)).
Qed.

Lemma edit_loop_visits packets ctx_map :
  probed (fst (edit_loop packets ctx_map)) = [] /\
  prepared (fst (edit_loop packets ctx_map)) = [] /\
  flushed (fst (edit_loop packets ctx_map)) = [] /\
  existsb is_valid_prepare (fst (edit_loop packets ctx_map)) = false.
Proof.
  pose proof (edit_loop_events packets ctx_map) as Hl.
  repeat split.
  - apply (omap_none _ _ _ Hl). by intros [].
  - apply (omap_none _ _ _ Hl). by intros [].
  - apply (omap_none _ _ _ Hl). by intros [].
  - apply (existsb_Forall_false _ _ _ Hl). by intros [].
Qed.

Lemma flushed_map_Flush l : flushed (map Flush l) = l.
Proof.
  induction l as [|j l IH]; [done|].
  unfold flushed in *. cbn [map omap list_omap]. by rewrite IH.
Qed.

(** The branch of [edit] for the valid streams: what it visits. *)
Lemma edit_valid_streams_visits source dest ctx_map streams_ordered valid_streams src_path :
  let ev := edit_valid_streams source dest ctx_map streams_ordered valid_streams src_path in
  probed (fst ev) = [] /\ prepared (fst ev) = [] /\
  existsb is_valid_prepare (fst ev) = false /\
  (is_ok (snd ev) = true ->
   flushed (fst ev) = match valid_streams with [] => [] | _ => seq 0 (length dest) end).
Proof.
  unfold edit_valid_streams. destruct valid_streams as [|v valid_streams]; [done|].
  cbn [length Nat.ltb Nat.leb].
  destruct (py_index _ 0) as [first_ctx|e]; cbn [lift Eff.bind fst snd app]; [|done].
  destruct (dict_get first_ctx ctx_map) as [c|]; [|done].
  set (loop := edit_loop _ _).
  destruct (edit_loop_visits (demux source first_ctx (map snd (v :: valid_streams)))
              (dict_set first_ctx
                 {| attrs := attrs c; priv := seek_beginning (attrs c) (priv c) |} ctx_map))
    as (Hp & Hq & Hf & Hv).
  fold loop in Hp, Hq, Hf, Hv.
  destruct loop as [evs [cm|e]]; cbn [emit Eff.bind app fst snd] in *.
  - rewrite foldM_flush. cbn [fst snd app].
    pose proof (flushed_map_Flush (seq 0 (length dest))) as Hfl.
    unfold probed, prepared, flushed in *.
    cbn [omap list_omap existsb is_valid_prepare orb].
    rewrite !omap_app, existsb_app, Hp, Hq, Hf, Hv, Hfl. cbn [app orb].
    split; [|split; [|split; [|done]]].
    + apply (omap_none _ is_flush); [clear; induction (seq _ _); by constructor|by intros []].
    + apply (omap_none _ is_flush); [clear; induction (seq _ _); by constructor|by intros []].
    + apply (existsb_Forall_false _ is_flush);
        [clear; induction (seq _ _); by constructor|by intros []].
  - unfold probed, prepared in *. cbn [omap list_omap existsb orb]. by rewrite Hp, Hq, Hv.
Qed.

(** [edit], when the streams were provisioned and the first packets read:
    the events of its phases. *)
Lemma edit_visits source time_base resolve src_path changes dst_path lp p :
  prepare_destination self (streams source) time_base = (lp, Ok p) ->
  (forall index c, (index, c) ∈ p_ctx_map p -> is_Some (first_timestamp source index)) ->
  let run := edit self source time_base resolve src_path changes dst_path in
  probed (fst run) = map fst (p_ctx_map p) /\
  prepared (fst run) = map fst (p_ctx_map p) /\
  (snd run = Ok tt ->
   flushed (fst run)
   = if existsb is_valid_prepare (fst run) then seq 0 (length (p_dst p)) else []).
Proof.
  intros Hpd Hts run. unfold run. rewrite edit_run. cbv zeta. rewrite Hpd. cbn [fst snd].
  assert (Hsrc : forall index c, (index, c) ∈ p_ctx_map p -> ctx_src (attrs c) = index).
  { intros index c Hin. by eapply (prepare_destination_ctx_src self). }
  destruct (probe_visits source (p_ctx_map p) (p_ctx_map p) [])
    as (le & cm1 & fp1 & Hfold & Hpe & Hqe & Hfe & Hk1); [|done|].
  { intros idx c Hin. rewrite (Hsrc idx c Hin). by eapply Hts. }
  rewrite Hfold.
  assert (Hpe' : probed le = map fst (p_ctx_map p)).
  { rewrite Hpe. apply map_ext_in. intros [idx c] Hin%list_elem_of_In. by apply Hsrc. }
  assert (Hve : existsb is_valid_prepare le = false).
  { pose proof (probe_events source (p_ctx_map p) (p_ctx_map p, []) le _ Hfold) as Hle.
    apply (existsb_Forall_false _ _ _ Hle). by intros []. }
  cbn [fst snd].
  destruct (prime_visits changes cm1 cm1 []) as (lm & cm2 & valid & -> & Hqm & Hpm & Hfm & Hvm).
  cbn [fst snd].
  destruct (edit_valid_streams_visits source (p_dst p) cm2
              (map fst (sorted_by_snd fp1)) valid (resolve src_path))
    as (Hpv & Hqv & Hvv & Hfv).
  assert (Hlogs : probed (map Log lp) = [] /\ prepared (map Log lp) = [] /\
                  flushed (map Log lp) = [] /\ existsb is_valid_prepare (map Log lp) = false).
  { clear. induction lp as [|m lp IH]; [done|]. cbn. exact IH. }
  destruct Hlogs as (Hpl & Hql & Hfl & Hvl).
  destruct (edit_valid_streams _ _ _ _ _ _) as [lv [[]|e]]; cbn [fst snd] in *;
    unfold probed, prepared, flushed in *;
    cbn [app omap list_omap existsb is_valid_prepare orb];
    rewrite !omap_app, ?existsb_app, ?Hpl, ?Hql, ?Hfl, ?Hvl, ?Hpe', ?Hqe, ?Hfe, ?Hve,
      ?Hqm, ?Hpm, ?Hfm, ?Hpv, ?Hqv, ?Hvv, ?Hk1;
    cbn [app omap list_omap existsb is_valid_prepare orb];
    rewrite ?app_nil_r, ?orb_false_r.
  - split; [done|]. split; [done|]. intros _. rewrite (Hfv eq_refl).
    destruct valid as [|v valid].
    + destruct (proj1 Hvm eq_refl) as [_ ->]. done.
    + destruct (existsb is_valid_prepare lm) eqn:Hex; [done|].
      by pose proof (proj2 Hvm (conj eq_refl eq_refl)).
  - split; [done|]. split; [done|]. discriminate.
Qed.

End Visits.

(** X13.  When [edit] returns, every stream of the destination was flushed
    exactly once, in the order of the streams, if some context had
    something to edit, and no stream was flushed otherwise. *)
Theorem edit_flushes_each_stream_once `{Builtins} `{EditContexts}
  (self : editor) (source : source_container) (time_base : nat -> Q)
  (resolve : string -> string) (src_path : string) (changes : list TimelineChange)
  (dst_path : string) (evs : list event) :
  edit self source time_base resolve src_path changes dst_path = (evs, Ok tt) ->
  flushed evs
  = if existsb is_valid_prepare evs
    then seq 0 (length (filter eligible (enumerate (streams source))))
    else [].
Proof.
  intros Hrun.
  destruct (prepare_destination self (streams source) time_base) as [lp [p|e]] eqn:Hpd.
  2:{ rewrite edit_run in Hrun. cbv zeta in Hrun. rewrite Hpd in Hrun. discriminate. }
  assert (Hts : forall index c, (index, c) ∈ p_ctx_map p ->
                  is_Some (first_timestamp source index)).
  { intros index c Hin. destruct (first_timestamp source index) as [t|] eqn:Ht; [eauto|].
    destruct (edit_probe_fails self source time_base resolve src_path changes
                dst_path lp p index c Hpd Hin Ht) as [[Hr|Hr] _];
      rewrite Hrun in Hr; discriminate. }
  destruct (edit_visits self source time_base resolve src_path changes dst_path lp p Hpd Hts)
    as (_ & _ & Hf).
  rewrite Hrun in Hf. cbn [fst snd] in Hf. rewrite (Hf eq_refl).
  apply prepare_destination_in_order in Hpd as (p0 & _ & (_ & Hdst & _) & _ & _ & _ & -> & _).
  apply Forall2_length in Hdst. by rewrite Hdst.
Qed.

Lemma edit_flushes_each_stream_once_witness :
  let run := @edit Samples.sample_builtins Samples.two_packets_each Samples.sample_editor
               Samples.container Samples.coarse_time_base (fun path => path)
               "in.mp4" Samples.changes "out.mp4" in
  snd run = Ok tt /\ existsb is_valid_prepare (fst run) = true /\
  flushed (fst run) = [0; 1]%nat.
Proof.
  intros run. split; [reflexivity|]. split; [reflexivity|].
  apply (edit_flushes_each_stream_once (H:=Samples.sample_builtins)
           (H0:=Samples.two_packets_each) Samples.sample_editor
           Samples.container Samples.coarse_time_base (fun path => path)
           "in.mp4" Samples.changes "out.mp4" (fst run)).
  reflexivity.
Defined.

(** The reading of the first packets ([inl]) and the preparation of the
    contexts ([inr]) together, in the order of the events. *)
Definition visits (evs : list event) : list (nat + nat) :=
  omap (fun ev => match ev with
                  | DemuxFirst i _ => Some (inl i)
                  | PrepareForEditing i _ => Some (inr i)
                  | _ => None
                  end) evs.

Lemma visits_app evs1 evs2 : visits (evs1 ++ evs2) = (visits evs1 ++ visits evs2)%list.
Proof. apply omap_app. Qed.

Lemma visits_probed evs : prepared evs = [] -> visits evs = inl <$> probed evs.
Proof.
  induction evs as [|ev evs IH]; [done|].
  unfold visits, prepared, probed in *.
  destruct ev; cbn [omap list_omap fmap list_fmap]; try done.
  intros Hp. f_equal. by apply IH.
Qed.

Lemma visits_prepared evs : probed evs = [] -> visits evs = inr <$> prepared evs.
Proof.
  induction evs as [|ev evs IH]; [done|].
  unfold visits, prepared, probed in *.
  destruct ev; cbn [omap list_omap fmap list_fmap]; try done.
  intros Hp. f_equal. by apply IH.
Qed.

Lemma visits_none evs : probed evs = [] -> prepared evs = [] -> visits evs = [].
Proof. intros Hp Hq. by rewrite (visits_probed evs Hq), Hp. Qed.

(** [edit], when the streams were provisioned and the first packets read:
    the first packets are all read before the first context is prepared. *)
Lemma edit_visits_in_order `{Builtins} `{EditContexts} (self : editor) source time_base
  resolve src_path changes dst_path lp p :
  prepare_destination self (streams source) time_base = (lp, Ok p) ->
  (forall index c, (index, c) ∈ p_ctx_map p -> is_Some (first_timestamp source index)) ->
  visits (fst (edit self source time_base resolve src_path changes dst_path))
  = ((inl <$> map fst (p_ctx_map p)) ++ (inr <$> map fst (p_ctx_map p)))%list.
Proof.
  intros Hpd Hts. rewrite edit_run. cbv zeta. rewrite Hpd. cbn [fst snd].
  assert (Hsrc : forall index c, (index, c) ∈ p_ctx_map p -> ctx_src (attrs c) = index).
  { intros index c Hin. by eapply (prepare_destination_ctx_src self). }
  destruct (probe_visits source (p_ctx_map p) (p_ctx_map p) [])
    as (le & cm1 & fp1 & Hfold & Hpe & Hqe & _ & Hk1); [|done|].
  { intros idx c Hin. rewrite (Hsrc idx c Hin). by eapply Hts. }
  rewrite Hfold.
  assert (Hpe' : probed le = map fst (p_ctx_map p)).
  { rewrite Hpe. apply map_ext_in. intros [idx c] Hin%list_elem_of_In. by apply Hsrc. }
  cbn [fst snd].
  destruct (prime_visits changes cm1 cm1 []) as (lm & cm2 & valid & -> & Hqm & Hpm & _ & _).
  cbn [fst snd].
  destruct (edit_valid_streams_visits source (p_dst p) cm2
              (map fst (sorted_by_snd fp1)) valid (resolve src_path))
    as (Hpv & Hqv & _ & _).
  assert (Hlogs : visits (map Log lp) = []).
  { clear. induction lp as [|m lp IH]; [done|]. exact IH. }
  pose proof (visits_probed le Hqe) as Hle. rewrite Hpe' in Hle.
  pose proof (visits_prepared lm Hpm) as Hlm. rewrite Hqm, Hk1 in Hlm.
  pose proof (visits_none _ Hpv Hqv) as Hlv.
  destruct (edit_valid_streams _ _ _ _ _ _) as [lv [[]|e]]; cbn [fst snd] in *.
  - change (?a :: ?b :: ?c :: ?l)%list with ([a; b; c] ++ l)%list.
    rewrite !visits_app, Hlogs, Hle, Hlm, Hlv. cbn. by rewrite app_nil_r.
  - rewrite !visits_app, Hlogs, Hle, Hlm, Hlv. cbn. by rewrite app_nil_r.
Qed.

(** X14.  When the streams were provisioned and each has a first packet
    with a [dts], [edit] reads the first packet of every stream of the
    context map exactly once and then prepares every context exactly once,
    both in the order of the streams of the source that were not skipped:
    the last first packet is read before the first context is prepared. *)
Theorem edit_visits_each_stream_once `{Builtins} `{EditContexts}
  (self : editor) (source : source_container) (time_base : nat -> Q)
  (resolve : string -> string) (src_path : string) (changes : list TimelineChange)
  (dst_path : string) (lp : list log) (p : provision) :
  prepare_destination self (streams source) time_base = (lp, Ok p) ->
  (forall index c, (index, c) ∈ p_ctx_map p -> is_Some (first_timestamp source index)) ->
  let evs := fst (edit self source time_base resolve src_path changes dst_path) in
  let kept := map fst (filter eligible (enumerate (streams source))) in
  probed evs = kept /\ prepared evs = kept /\
  visits evs = ((inl <$> kept) ++ (inr <$> kept))%list.
Proof.
  intros Hpd Hts evs kept.
  destruct (edit_visits self source time_base resolve src_path changes dst_path lp p Hpd Hts)
    as (Hp & Hq & _).
  pose proof (edit_visits_in_order self source time_base resolve src_path changes dst_path
                lp p Hpd Hts) as Hv.
  fold evs in Hp, Hq, Hv. rewrite Hp, Hq, Hv.
  apply prepare_destination_in_order in Hpd as (_ & _ & _ & _ & _ & Hcm & _).
  assert (Hkept : map fst (p_ctx_map p) = kept).
  { unfold kept. rewrite <- fst_entries_of, <- Hcm, map_map. done. }
  by rewrite Hkept.
Qed.

Lemma edit_visits_each_stream_once_witness :
  let evs := fst (@edit Samples.sample_builtins Samples.two_packets_each Samples.sample_editor
                    Samples.container Samples.coarse_time_base (fun path => path)
                    "in.mp4" Samples.changes "out.mp4") in
  probed evs = [0; 2]%nat /\ prepared evs = [0; 2]%nat /\
  visits evs = [inl 0; inl 2; inr 0; inr 2]%nat.
Proof.
  intros evs.
  eapply (edit_visits_each_stream_once (H:=Samples.sample_builtins)
            (H0:=Samples.two_packets_each) Samples.sample_editor
            Samples.container Samples.coarse_time_base (fun path => path)
            "in.mp4" Samples.changes "out.mp4").
  - reflexivity.
  - intros index c Hin.
    repeat (apply elem_of_cons in Hin as [[= -> _]|Hin]; [by eexists|]).
    by apply elem_of_nil in Hin.
Defined.

(** ** The sentences of a transcript (sentence_segmentation) *)

(** The tokens of a transcript are values here: a transcript is taken to
    hold each [EditToken] object once, as one token is built per word
    recognized. *)

(** What the segmentation leaves of a token as it was given: its times and
    its label. *)
Definition times (token : EditToken) : float * float * option string :=
  (start_time token, end_time token, label token).

(** *** The steps keep the tokens *)

Lemma add_token_separators_proj {B} (p : EditToken -> B) token rest l :
  (forall s t, p (set_text s t) = p t) -> (forall z t, p (set_start_pos z t) = p t) ->
  add_token_separators token rest = Ok l -> p <$> l = p <$> (token :: rest).
Proof.
  intros Htext Hpos. revert token l.
  induction rest as [|next_token rest IH]; intros token l.
  - by intros [= <-].
  - cbn [add_token_separators]. cbn [set_text start_pos].
    destruct (start_pos token) as [pos|]; [|discriminate].
    intros (l' & Hrest & [= <-])%rbind_Ok. apply IH in Hrest.
    cbn [fmap list_fmap] in *. by rewrite Hrest, Htext, Hpos.
Qed.

Lemma add_token_separators_returns token rest :
  is_Some (start_pos token) -> exists l, add_token_separators token rest = Ok l.
Proof.
  revert token. induction rest as [|next_token rest IH]; intros token [pos Hpos].
  - by eexists.
  - cbn [add_token_separators]. cbn [set_text start_pos]. rewrite Hpos.
    match goal with
    | |- context [add_token_separators ?t rest] => destruct (IH t) as [l ->]; [by eexists|]
    end.
    by eexists.
Qed.

Lemma rmapM_shift_start_pos_proj {B} (p : EditToken -> B) pos_diff sent shifted :
  (forall z t, p (set_start_pos z t) = p t) ->
  rmapM (shift_start_pos pos_diff) sent = Ok shifted -> p <$> shifted = p <$> sent.
Proof.
  intros Hpos. revert shifted. induction sent as [|token sent IH]; intros shifted.
  - by intros [= <-].
  - cbn [rmapM]. intros (token' & Htoken & (shifted' & Hrest & [= <-])%rbind_Ok)%rbind_Ok.
    unfold shift_start_pos in Htoken. destruct (start_pos token); [|discriminate].
    injection Htoken as <-. cbn [fmap list_fmap]. rewrite Hpos. f_equal. by apply IH.
Qed.

Lemma separate_sentences_proj {B} (p : EditToken -> B)
  pos_diff sent next_sent sent' next_sent' pos_diff' :
  (forall s t, p (set_text s t) = p t) -> (forall z t, p (set_start_pos z t) = p t) ->
  separate_sentences pos_diff sent next_sent = Ok (sent', next_sent', pos_diff') ->
  p <$> sent' = p <$> sent /\ p <$> next_sent' = p <$> next_sent.
Proof.
  intros Htext Hpos.
  unfold separate_sentences. destruct (last sent) as [token|] eqn:Hlast; [|discriminate].
  destruct (negb _); [|by intros [= <- <- <-]].
  destruct (replace_alternative _ _ _) as [txt pd].
  intros ([txt' pd'] & _ & (shifted & Hshift & [= <- <- <-])%rbind_Ok)%rbind_Ok.
  split; [|by eapply rmapM_shift_start_pos_proj].
  apply last_Some in Hlast as [sent0 ->]. rewrite removelast_last.
  rewrite !fmap_app. cbn [fmap list_fmap]. by rewrite Htext.
Qed.

(** The sentences after the separators were added, one by one. *)
Lemma add_sentence_separators_proj {B} (p : EditToken -> B) pos_diff sent rest sentences :
  (forall s t, p (set_text s t) = p t) -> (forall z t, p (set_start_pos z t) = p t) ->
  add_sentence_separators pos_diff sent rest = Ok sentences ->
  Forall2 (fun s s' => p <$> s' = p <$> s) (sent :: rest) sentences.
Proof.
  intros Htext Hpos. revert pos_diff sent sentences.
  induction rest as [|next_sent rest IH]; intros pos_diff sent sentences.
  - intros [= <-]. by repeat constructor.
  - cbn [add_sentence_separators].
    intros ([[sent' next_sent'] pos_diff'] & Hsep & (l & Hrest & [= <-])%rbind_Ok)%rbind_Ok.
    apply (separate_sentences_proj p) in Hsep as [Hsent Hnext]; [|done|done].
    apply IH in Hrest. inversion Hrest as [|? s' ? l' Hn Hl]; subst.
    constructor; [done|]. constructor; [by rewrite Hn|done].
Qed.

Lemma Forall2_proj_concat {B} (p : EditToken -> B) (l l' : list (list EditToken)) :
  Forall2 (fun s s' => p <$> s' = p <$> s) l l' -> p <$> concat l' = p <$> concat l.
Proof.
  induction 1 as [|s s' l l' Hs _ IH]; [done|]. cbn [concat]. by rewrite !fmap_app, Hs, IH.
Qed.

Lemma Forall2_proj_nonempty {B} (p : EditToken -> B) (l l' : list (list EditToken)) :
  Forall2 (fun s s' => p <$> s' = p <$> s) l l' ->
  Forall (fun s => s <> []) l -> Forall (fun s => s <> []) l'.
Proof.
  induction 1 as [|s s' l l' Hs _ IH]; [done|]. intros [Hne Hl]%Forall_cons.
  constructor; [|by apply IH]. intros ->. by destruct s.
Qed.

(** *** The sentences of spaCy and the pauses *)

Lemma assign_tokens_nonempty nlp_sents tokens sentences assigned :
  assign_tokens nlp_sents tokens sentences = Ok assigned ->
  Forall (fun s => s <> []) sentences -> Forall (fun s => s <> []) assigned.
Proof.
  revert tokens sentences. induction nlp_sents as [|sent nlp_sents IH]; intros tokens sentences.
  - by intros [= <-].
  - cbn [assign_tokens]. intros ([taken others] & _ & Hrest)%rbind_Ok Hne. cbn [fst snd] in Hrest.
    apply IH in Hrest; [done|]. destruct taken as [|t taken]; [done|].
    apply Forall_app. split; [done|]. by repeat constructor.
Qed.

Lemma segment_by_time_nonempty sentences :
  Forall (fun s => s <> []) sentences -> Forall (fun s => s <> []) (segment_by_time sentences).
Proof.
  funelim (segment_by_time sentences); [done| |].
  - intros [Hne Hrest]%Forall_cons. pose proof (first_pause_lt _ _ Hk) as Hlt.
    constructor.
    + intros Htake. apply (f_equal length) in Htake. rewrite length_take in Htake.
      cbn [length] in Htake. lia.
    + apply H. constructor; [|done]. intros Hdrop. apply (f_equal length) in Hdrop.
      rewrite length_drop in Hdrop. cbn [length] in Hdrop. lia.
  - intros [Hne Hrest]%Forall_cons. constructor; [done|]. by apply H.
Qed.

Lemma first_pause_take sent k :
  first_pause sent = Some k -> first_pause (take (S k) sent) = None.
Proof.
  revert k. induction sent as [|a [|b s] IH]; intros k Hk; try discriminate.
  change (first_pause (a :: b :: s)) with
    (if long_pause a b then Some 0%nat else S <$> first_pause (b :: s)) in Hk.
  destruct (long_pause a b) eqn:Hab; [by injection Hk as <-|].
  apply fmap_Some in Hk as (k' & Hk' & ->). specialize (IH k' Hk').
  change (first_pause (b :: take k' s) = None) in IH.
  change (first_pause (a :: b :: take k' s) = None).
  change (first_pause (a :: b :: take k' s)) with
    (if long_pause a b then Some 0%nat else S <$> first_pause (b :: take k' s)).
  by rewrite Hab, IH.
Qed.

Lemma segment_by_time_no_pause sentences :
  Forall (fun s => first_pause s = None) (segment_by_time sentences).
Proof.
  funelim (segment_by_time sentences); [done| |].
  - constructor; [|done]. by apply first_pause_take.
  - by constructor.
Qed.

(** No pause between two tokens of a sentence that follow each other. *)
Lemma first_pause_None sent i prev_token token :
  first_pause sent = None ->
  sent !! i = Some prev_token -> sent !! S i = Some token ->
  long_pause prev_token token = false.
Proof.
  revert i. induction sent as [|a [|b s] IH]; intros i Hnone; try done.
  change (first_pause (a :: b :: s)) with
    (if long_pause a b then Some 0%nat else S <$> first_pause (b :: s)) in Hnone.
  destruct (long_pause a b) eqn:Hab; [discriminate|].
  apply fmap_None in Hnone. destruct i as [|i].
  - by intros [= <-] [= <-].
  - intros Hp Ht. by apply (IH i).
Qed.

Lemma first_pause_times sent sent' :
  times <$> sent' = times <$> sent -> first_pause sent' = first_pause sent.
Proof.
  revert sent'. induction sent as [|a [|b s] IH]; intros [|a' [|b' s']] Heq; try done.
  injection Heq as Hsa Hea Hla Hsb Heb Hlb Hs.
  change (first_pause (a :: b :: s)) with
    (if long_pause a b then Some 0%nat else S <$> first_pause (b :: s)).
  change (first_pause (a' :: b' :: s')) with
    (if long_pause a' b' then Some 0%nat else S <$> first_pause (b' :: s')).
  assert (long_pause a' b' = long_pause a b) as ->.
  { unfold long_pause. by rewrite Hea, Hsb. }
  rewrite (IH (b' :: s')); [done|]. cbn [fmap list_fmap]. unfold times at 1 3.
  rewrite Hsb, Heb, Hlb. f_equal. exact Hs.
Qed.

(** *** The segmentation, step by step *)

(** [sentence_segmentation], when it returns: the transcript the sentences
    of spaCy are made of, the sentences of the first and of the second
    step. *)
Lemma sentence_segmentation_Ok spacy_sents transcript sentences :
  sentence_segmentation spacy_sents transcript = Ok sentences ->
  exists token rest separated first assigned,
    transcript = token :: rest /\
    add_token_separators (set_start_pos 0 token) rest = Ok separated /\
    py_index (spacy_sents (raw_transcript separated)) 0 = Ok first /\
    start_char first = 0 /\
    assign_tokens (spacy_sents (raw_transcript separated)) (assign_indices separated) []
    = Ok assigned /\
    match segment_by_time assigned with
    | [] => sentences = []
    | sent :: sents => add_sentence_separators 0 sent sents = Ok sentences
    end.
Proof.
  unfold sentence_segmentation. intros (tr1 & H1 & H)%rbind_Ok.
  destruct transcript as [|token rest]; [discriminate|]. injection H1 as <-.
  apply rbind_Ok in H as (separated & Hsep & H). cbv zeta in H.
  rewrite raw_transcript_assign_indices in H.
  apply rbind_Ok in H as (first & Hfirst & H).
  destruct (start_char first =? 0) eqn:Hz; [|discriminate]. cbn [negb] in H.
  apply rbind_Ok in H as (assigned & Hassigned & H).
  exists token, rest, separated, first, assigned. repeat split; try done; [lia|].
  destruct (segment_by_time assigned); [by injection H as <-|done].
Qed.

(** The sentences returned, against those of the second step. *)
Lemma final_sentences_proj {B} (p : EditToken -> B) assigned sentences :
  (forall s t, p (set_text s t) = p t) -> (forall z t, p (set_start_pos z t) = p t) ->
  match segment_by_time assigned with
  | [] => sentences = []
  | sent :: sents => add_sentence_separators 0 sent sents = Ok sentences
  end ->
  Forall2 (fun s s' => p <$> s' = p <$> s) (segment_by_time assigned) sentences.
Proof.
  intros Htext Hpos. destruct (segment_by_time assigned) as [|sent sents].
  - intros ->. constructor.
  - by apply add_sentence_separators_proj.
Qed.

(** The tokens returned are those that the sentences of spaCy took, and
    these are the first tokens of the transcript. *)
Lemma sentence_segmentation_taken spacy_sents transcript sentences :
  sentence_segmentation spacy_sents transcript = Ok sentences ->
  exists separated taken others assigned,
    assign_indices separated = (taken ++ others)%list /\
    length separated = length transcript /\
    times <$> separated = times <$> transcript /\
    concat assigned = taken /\
    Forall (fun s => s <> []) assigned /\
    match segment_by_time assigned with
    | [] => sentences = []
    | sent :: sents => add_sentence_separators 0 sent sents = Ok sentences
    end.
Proof.
  intros (token & rest & separated & first & assigned & -> & Hsep & _ & _ & Hassigned & Hfinal)
    %sentence_segmentation_Ok.
  pose proof (assign_tokens_nonempty _ _ _ _ Hassigned (Forall_nil_2 _)) as Hne.
  apply assign_tokens_Ok in Hassigned as (taken & others & Hcat & Htokens & _).
  exists separated, taken, others, assigned. split; [done|].
  pose proof (add_token_separators_proj times _ _ _ (fun _ _ => eq_refl) (fun _ _ => eq_refl) Hsep)
    as Hp.
  split; [|done]. apply (f_equal length) in Hp. by rewrite !length_fmap in Hp.
Qed.

(** X15.  No sentence that [sentence_segmentation] returns is empty. *)
Theorem sentence_segmentation_nonempty
  (spacy_sents : string -> list Span) (transcript : list EditToken)
  (sentences : list (list EditToken)) :
  sentence_segmentation spacy_sents transcript = Ok sentences ->
  Forall (fun sent => sent <> []) sentences.
Proof.
  intros (separated & taken & others & assigned & _ & _ & _ & _ & Hne & Hfinal)
    %sentence_segmentation_taken.
  apply (final_sentences_proj index) in Hfinal; [|done|done].
  eapply Forall2_proj_nonempty; [exact Hfinal|]. by apply segment_by_time_nonempty.
Qed.

Lemma sentence_segmentation_nonempty_witness :
  Forall (fun sent => sent <> [])
    [[ {| text := "hello "; start_time := 0; end_time := 1;
          start_pos := Some 0; index := Some 0%nat; label := None |} ]].
Proof.
  apply (sentence_segmentation_nonempty Transcripts.whole_document
           [Transcripts.hello; Transcripts.noise]).
  vm_compute. reflexivity.
Defined.

(** X16.  The tokens that [sentence_segmentation] returns are, sentence
    after sentence, the first tokens of the transcript in their order, each
    once: the [i]-th token returned has the index [i] and the times and the
    label of the [i]-th token of the transcript. *)
Theorem sentence_segmentation_prefix
  (spacy_sents : string -> list Span) (transcript : list EditToken)
  (sentences : list (list EditToken)) :
  sentence_segmentation spacy_sents transcript = Ok sentences ->
  exists n, (n <= length transcript)%nat /\
    index <$> concat sentences = Some <$> seq 0 n /\
    times <$> concat sentences = take n (times <$> transcript).
Proof.
  intros (separated & taken & others & assigned & Htokens & Hlen & Htimes & Hcat & _ & Hfinal)
    %sentence_segmentation_taken.
  pose proof (final_sentences_proj index _ _ (fun _ _ => eq_refl) (fun _ _ => eq_refl) Hfinal)
    as Hidx.
  pose proof (final_sentences_proj times _ _ (fun _ _ => eq_refl) (fun _ _ => eq_refl) Hfinal)
    as Htm.
  apply Forall2_proj_concat in Hidx, Htm. rewrite segment_by_time_concat, Hcat in Hidx, Htm.
  exists (length taken).
  assert (Hl : (length taken + length others = length transcript)%nat).
  { rewrite <- Hlen, <- length_app, <- Htokens. unfold assign_indices. by rewrite length_imap. }
  split; [lia|]. split.
  - rewrite Hidx. eapply prefix_of_indices. rewrite <- Htokens. apply index_assign_indices.
  - rewrite Htm, <- Htimes.
    replace (times <$> separated) with (times <$> assign_indices separated)
      by (by apply (imap_proj times)).
    rewrite Htokens, fmap_app. rewrite <- (length_fmap times taken). by rewrite take_app_length.
Qed.

Lemma sentence_segmentation_prefix_witness :
  exists n, (n <= 2)%nat /\
    index <$> concat [[ {| text := "hello "; start_time := 0; end_time := 1;
                           start_pos := Some 0; index := Some 0%nat; label := None |} ]]
    = Some <$> seq 0 n /\
    times <$> concat [[ {| text := "hello "; start_time := 0; end_time := 1;
                           start_pos := Some 0; index := Some 0%nat; label := None |} ]]
    = take n (times <$> [Transcripts.hello; Transcripts.noise]).
Proof.
  apply (sentence_segmentation_prefix Transcripts.whole_document
           [Transcripts.hello; Transcripts.noise]).
  vm_compute. reflexivity.
Defined.

(** X17.  In a sentence that [sentence_segmentation] returns, no token
    starts more than 3 seconds after the end of the token before it: the
    sentences of spaCy are cut at every such pause. *)
Theorem sentence_segmentation_no_pause
  (spacy_sents : string -> list Span) (transcript : list EditToken)
  (sentences : list (list EditToken)) (sent : list EditToken)
  (i : nat) (prev_token token : EditToken) :
  sentence_segmentation spacy_sents transcript = Ok sentences ->
  sent ∈ sentences ->
  sent !! i = Some prev_token -> sent !! S i = Some token ->
  PrimFloat.ltb 3 (PrimFloat.sub (start_time token) (end_time prev_token)) = false.
Proof.
  intros (separated & taken & others & assigned & _ & _ & _ & _ & _ & Hfinal)
    %sentence_segmentation_taken Hin.
  apply (final_sentences_proj times) in Hfinal; [|done|done].
  apply list_elem_of_lookup in Hin as [k Hk].
  destruct (Forall2_lookup_r _ _ _ _ _ Hfinal Hk) as (sent0 & Hk0 & Heq).
  pose proof (segment_by_time_no_pause assigned) as Hno.
  rewrite Forall_lookup in Hno. specialize (Hno k sent0 Hk0).
  rewrite <- (first_pause_times _ _ Heq) in Hno.
  apply (first_pause_None sent i prev_token token Hno).
Qed.

Lemma sentence_segmentation_no_pause_witness :
  let you := {| text := "you"; start_time := 1; end_time := 2;
                start_pos := None; index := None; label := None |} in
  let there := {| text := "there"; start_time := 6; end_time := 7;
                  start_pos := None; index := None; label := None |} in
  let hello1 := {| text := "hello "; start_time := 0; end_time := 1;
                   start_pos := Some 0; index := Some 0%nat; label := None |} in
  let you1 := {| text := "you."; start_time := 1; end_time := 2;
                 start_pos := Some 6; index := Some 1%nat; label := None |} in
  let there1 := {| text := "there"; start_time := 6; end_time := 7;
                   start_pos := Some 10; index := Some 2%nat; label := None |} in
  sentence_segmentation Transcripts.whole_document [Transcripts.hello; you; there]
  = Ok [[hello1; you1]; [there1]] /\
  PrimFloat.ltb 3 (PrimFloat.sub (start_time you1) (end_time hello1)) = false.
Proof.
  intros you there hello1 you1 there1. split; [vm_compute; reflexivity|].
  apply (sentence_segmentation_no_pause Transcripts.whole_document
           [Transcripts.hello; you; there] [[hello1; you1]; [there1]] [hello1; you1]
           0%nat hello1 you1).
  - vm_compute. reflexivity.
  - by left.
  - reflexivity.
  - reflexivity.
Defined.

(** *** The positions of the tokens and the last sentence of spaCy *)

(** Tokens that start where the texts of the tokens before them end, the
    first of them at [pos]. *)
Fixpoint positioned (pos : Z) (tokens : list EditToken) : Prop :=
  match tokens with
  | [] => True
  | token :: tokens' =>
      start_pos token = Some pos /\ positioned (pos + len (text token)) tokens'
  end.

Lemma add_token_separators_positioned token rest pos l :
  start_pos token = Some pos ->
  add_token_separators token rest = Ok l -> positioned pos l.
Proof.
  revert token pos l. induction rest as [|next_token rest IH]; intros token pos l Hpos.
  - by intros [= <-].
  - cbn [add_token_separators]. cbn [set_text start_pos]. rewrite Hpos.
    intros (l' & Hrest & [= <-])%rbind_Ok. split; [done|].
    eapply IH; [|exact Hrest]. done.
Qed.

Lemma positioned_imap (f : nat -> EditToken -> EditToken) pos l :
  (forall i t, text (f i t) = text t) -> (forall i t, start_pos (f i t) = start_pos t) ->
  positioned pos l -> positioned pos (imap f l).
Proof.
  intros Htext Hpos. revert f pos Htext Hpos.
  induction l as [|t l IH]; intros f pos Htext Hpos; [done|].
  intros [Hp Hl]. cbn [imap positioned]. rewrite Htext, Hpos. split; [done|].
  apply IH; [| |done]; intros i x; [apply Htext | apply Hpos].
Qed.

Lemma len_nonneg s : 0 <= len s.
Proof. unfold len. lia. Qed.

Lemma positioned_app pos l1 l2 :
  positioned pos (l1 ++ l2) -> positioned (pos + len (raw_transcript l1)) l2.
Proof.
  revert pos. induction l1 as [|t l1 IH]; intros pos.
  - cbn. by rewrite Z.add_0_r.
  - intros [_ Hl]. apply IH in Hl. unfold raw_transcript in *. cbn [map].
    rewrite concat_empty_cons, len_append. by rewrite Z.add_assoc.
Qed.

Lemma positioned_ge pos l t :
  positioned pos l -> t ∈ l -> exists p, start_pos t = Some p /\ pos <= p.
Proof.
  revert pos. induction l as [|t0 l IH]; intros pos Hl Hin; [by apply elem_of_nil in Hin|].
  destruct Hl as [Hp Hl]. apply elem_of_cons in Hin as [->|Hin].
  - exists pos. split; [done|lia].
  - destruct (IH _ Hl Hin) as (p & Hp' & Hle). exists p. split; [done|].
    pose proof (len_nonneg (text t0)). lia.
Qed.

(** The text that spaCy is given: the texts of the tokens joined by the
    token separator. *)
Lemma add_token_separators_raw token rest l :
  add_token_separators token rest = Ok l ->
  raw_transcript l = String.concat TOKEN_SEPARATOR (map text (token :: rest)).
Proof.
  revert token l. induction rest as [|next_token rest IH]; intros token l.
  - intros [= <-]. unfold raw_transcript. cbn [map String.concat]. done.
  - cbn [add_token_separators]. cbn [set_text start_pos].
    destruct (start_pos token) as [pos|]; [|discriminate].
    intros (l' & Hrest & [= <-])%rbind_Ok. apply IH in Hrest.
    unfold raw_transcript in *. cbn [map text] in *.
    rewrite concat_empty_cons, Hrest. cbn [text set_text set_start_pos].
    change (String.concat TOKEN_SEPARATOR (text token :: text next_token :: map text rest))
      with (text token ++ TOKEN_SEPARATOR
            ++ String.concat TOKEN_SEPARATOR (text next_token :: map text rest))%string.
    by rewrite append_assoc.
Qed.

(** The tokens that no sentence took start at or after the end of the last
    sentence. *)
Lemma take_tokens_others sent tokens taken others :
  take_tokens sent tokens = Ok (taken, others) ->
  match others with
  | [] => True
  | token :: _ => exists p, start_pos token = Some p /\ end_char sent <= p
  end.
Proof.
  revert taken others. induction tokens as [|token rest IH]; intros taken others.
  - by intros [= <- <-].
  - cbn [take_tokens]. intros (b & Hb & H)%rbind_Ok.
    unfold starts_before in Hb. destruct (start_pos token) as [p|] eqn:Hp; [|discriminate].
    injection Hb as <-. destruct (p <? end_char sent) eqn:Hlt.
    + apply rbind_Ok in H as ([taken' others'] & Htake & [= <- <-]). by eapply IH.
    + injection H as <- <-. exists p. split; [done|]. lia.
Qed.

Lemma assign_tokens_others nlp_sents tokens sentences assigned last_sent :
  assign_tokens nlp_sents tokens sentences = Ok assigned ->
  last nlp_sents = Some last_sent ->
  exists taken others,
    concat assigned = (concat sentences ++ taken)%list /\
    tokens = (taken ++ others)%list /\
    match others with
    | [] => True
    | token :: _ => exists p, start_pos token = Some p /\ end_char last_sent <= p
    end.
Proof.
  revert tokens sentences. induction nlp_sents as [|sent nlp_sents IH]; intros tokens sentences;
    [done|].
  cbn [assign_tokens]. intros ([taken others] & Htake & H)%rbind_Ok Hlast.
  pose proof (take_tokens_others _ _ _ _ Htake) as Hothers.
  apply take_tokens_Ok in Htake as [-> _]. cbn [fst snd] in H.
  assert (Hcat : concat (match taken with [] => sentences | _ => sentences ++ [taken] end)%list
                 = (concat sentences ++ taken)%list).
  { destruct taken; [by rewrite app_nil_r|]. rewrite concat_app. cbn. by rewrite app_nil_r. }
  destruct nlp_sents as [|sent' nlp_sents].
  - injection Hlast as <-. injection H as <-. exists taken, others. by rewrite Hcat.
  - rewrite last_cons_cons in Hlast.
    destruct (IH _ _ H Hlast) as (taken' & others' & Hres & -> & Ho).
    exists (taken ++ taken')%list, others'. rewrite Hres, Hcat. by rewrite !app_assoc.
Qed.

(** X18.  When the last token of the transcript starts, in the text given to
    spaCy, before the end of the last sentence that spaCy makes of it,
    [sentence_segmentation] returns a partition of the transcript: all its
    tokens, each once and in their order, with their times and labels. *)
Theorem sentence_segmentation_partition
  (spacy_sents : string -> list Span) (front : list EditToken) (last0 : EditToken)
  (sentences : list (list EditToken)) (last_sent : Span) :
  let transcript := (front ++ [last0])%list in
  let raw := String.concat TOKEN_SEPARATOR (map text transcript) in
  sentence_segmentation spacy_sents transcript = Ok sentences ->
  last (spacy_sents raw) = Some last_sent ->
  len raw - len (text last0) < end_char last_sent ->
  index <$> concat sentences = Some <$> seq 0 (length transcript) /\
  times <$> concat sentences = times <$> transcript.
Proof.
  intros transcript raw Hrun Hlast Hlt.
  pose proof Hrun
    as (token & rest & separated & first & assigned & Htr & Hsep & _ & _ & Hassigned & Hfinal)
      %sentence_segmentation_Ok.
  pose proof (add_token_separators_raw _ _ _ Hsep) as Hraw.
  cbn [map] in Hraw. change (text (set_start_pos 0 token)) with (text token) in Hraw.
  change (text token :: map text rest) with (map text (token :: rest)) in Hraw.
  rewrite <- Htr in Hraw. fold raw in Hraw. rewrite Hraw in Hassigned.
  pose proof (add_token_separators_positioned (set_start_pos 0 token) rest 0 separated eq_refl Hsep)
    as Hpos.
  apply (positioned_imap set_index) in Hpos; [|done|done]. fold (assign_indices separated) in Hpos.
  destruct (set_first_start_pos_last front last0 (set_start_pos 0 token :: rest))
    as (token0 & rest0 & [= <- <-] & Hp0 & Hlast0 & Hlen0).
  { fold transcript. by rewrite Htr. }
  destruct (add_token_separators_last _ _ _ _ Hp0 Hlast0)
    as (front1 & last1 & Hsep' & Hlen1 & Htext1 & Hpos1).
  rewrite Hsep in Hsep'. injection Hsep' as ->.
  assert (Hplast : start_pos last1 = Some (len raw - len (text last0))).
  { rewrite Hpos1. f_equal. rewrite <- Hraw. unfold raw_transcript.
    rewrite map_app, concat_empty_app, len_append. cbn [map String.concat].
    rewrite Htext1. lia. }
  destruct (assign_tokens_others _ _ _ _ _ Hassigned Hlast) as (taken & others & Hcat & Htokens & Ho).
  cbn [concat app] in Hcat.
  assert (others = []) as ->.
  { destruct others as [|t others]; [done|]. exfalso.
    destruct Ho as (p & Hp & Hle). rewrite Htokens in Hpos.
    apply positioned_app in Hpos.
    assert (Hin : set_index (length front1) last1 ∈ (t :: others)).
    { assert (Hl : last (taken ++ t :: others) = Some (set_index (length front1) last1)).
      { rewrite <- Htokens. unfold assign_indices. rewrite imap_app. cbn [imap].
        rewrite last_snoc. by rewrite Nat.add_0_r. }
      rewrite last_app in Hl.
      destruct (last (t :: others)) as [x|] eqn:Hx; [|by apply last_None in Hx].
      injection Hl as <-. apply last_Some in Hx as [l' Hx]. rewrite Hx.
      apply elem_of_app. right. left. }
    destruct (positioned_ge _ _ _ Hpos Hin) as (pl & Hpl & Hge).
    cbn [positioned] in Hpos. destruct Hpos as [Hpt _]. rewrite Hp in Hpt.
    injection Hpt as ->. cbn [set_index start_pos] in Hpl. rewrite Hplast in Hpl.
    injection Hpl as <-. lia. }
  rewrite app_nil_r in Htokens.
  pose proof (final_sentences_proj index _ _ (fun _ _ => eq_refl) (fun _ _ => eq_refl) Hfinal)
    as Hidx.
  pose proof (final_sentences_proj times _ _ (fun _ _ => eq_refl) (fun _ _ => eq_refl) Hfinal)
    as Htm.
  apply Forall2_proj_concat in Hidx, Htm. rewrite segment_by_time_concat, Hcat in Hidx, Htm.
  rewrite Hidx, Htm, <- Htokens.
  pose proof (add_token_separators_proj times _ _ _ (fun _ _ => eq_refl) (fun _ _ => eq_refl) Hsep)
    as Htimes.
  split.
  - rewrite index_assign_indices. do 2 f_equal.
    apply (f_equal length) in Htimes. rewrite !length_fmap in Htimes.
    rewrite Htimes. fold transcript. by rewrite Htr.
  - unfold assign_indices. rewrite (imap_proj times) by done. rewrite Htimes. fold transcript. by rewrite Htr.
Qed.

Lemma sentence_segmentation_partition_witness :
  let you := {| text := "you"; start_time := 1; end_time := 2;
                start_pos := None; index := None; label := None |} in
  exists sentences,
    sentence_segmentation Transcripts.whole_document [Transcripts.hello; you] = Ok sentences /\
    index <$> concat sentences = [Some 0; Some 1]%nat /\
    times <$> concat sentences = times <$> [Transcripts.hello; you].
Proof.
  intros you. eexists. split; [vm_compute; reflexivity|].
  apply (sentence_segmentation_partition Transcripts.whole_document [Transcripts.hello] you
           _ {| start_char := 0; end_char := 9 |}).
  - vm_compute. reflexivity.
  - reflexivity.
  - vm_compute. reflexivity.
Defined.

(** *** When the segmentation returns *)

Lemma substring_whole (s : string) : substring 0 (String.length s) s = s.
Proof.
  induction s as [|c s IH]; [done|].
  change (String c (substring 0 (String.length s) s) = String c s). by rewrite IH.
Qed.

Lemma substring_append (s suffix : string) :
  substring (String.length s) (String.length suffix) (s ++ suffix) = suffix.
Proof.
  induction s as [|c s IH]; [apply substring_whole|].
  change (substring (String.length s) (String.length suffix) (s ++ suffix) = suffix).
  apply IH.
Qed.

Lemma endswith_append (s suffix : string) : endswith (s ++ suffix) suffix = true.
Proof.
  unfold endswith. rewrite length_append.
  replace (String.length s + String.length suffix - String.length suffix)%nat
    with (String.length s) by lia.
  rewrite substring_append, String.eqb_refl, andb_true_r. apply Nat.leb_le. lia.
Qed.

Definition has_pos (token : EditToken) : Prop := is_Some (start_pos token).

Definition ends_with_separator (txt : string) : Prop := endswith txt TOKEN_SEPARATOR = true.

Lemma Forall_removelast {A} (P : A -> Prop) (l : list A) :
  Forall P l -> Forall P (removelast l).
Proof.
  induction 1 as [|a l Ha Hl IH]; [done|]. destruct l as [|b l]; [done|].
  change (Forall P (a :: removelast (b :: l))). by constructor.
Qed.

Lemma Forall_removelast_prefix {A} (P : A -> Prop) (l1 l2 front : list A) (x : A) :
  (l1 ++ l2 = front ++ [x])%list -> Forall P front -> Forall P (removelast l1).
Proof.
  intros Heq Hfront. destruct (decide (l2 = [])) as [->|Hne].
  - rewrite app_nil_r in Heq. subst l1. by rewrite removelast_last.
  - apply (f_equal (@removelast A)) in Heq. rewrite removelast_last in Heq.
    rewrite removelast_app in Heq by done. subst front.
    apply Forall_app in Hfront as [H1 _]. by apply Forall_removelast.
Qed.

(** After the first step every token has a position, and every token but
    the last ends with the token separator. *)
Lemma add_token_separators_separated token rest l :
  has_pos token -> add_token_separators token rest = Ok l ->
  Forall has_pos l /\
  exists front last1, l = (front ++ [last1])%list /\
                      Forall ends_with_separator (text <$> front).
Proof.
  revert token l. induction rest as [|next_token rest IH]; intros token l Hpos.
  - intros [= <-]. split; [by repeat constructor|]. by exists [], token.
  - cbn [add_token_separators]. cbn [set_text start_pos].
    destruct Hpos as [pos Hpos]. rewrite Hpos.
    intros (l' & Hrest & [= <-])%rbind_Ok.
    apply IH in Hrest as (Hl' & front & last1 & -> & Hfront); [|by eexists].
    split; [constructor; [by exists pos|done]|].
    exists (set_text (text token ++ TOKEN_SEPARATOR) token :: front), last1.
    split; [done|]. cbn [fmap list_fmap]. constructor; [|done]. apply endswith_append.
Qed.

Lemma take_tokens_returns sent tokens :
  Forall has_pos tokens -> exists r, take_tokens sent tokens = Ok r.
Proof.
  induction 1 as [|token rest [p Hp] _ [r IH]]; [by eexists|].
  cbn [take_tokens]. unfold starts_before. rewrite Hp. cbn [rbind].
  destruct (p <? end_char sent); [|by eexists]. rewrite IH. by eexists.
Qed.

Lemma assign_tokens_returns nlp_sents tokens sentences :
  Forall has_pos tokens -> exists assigned, assign_tokens nlp_sents tokens sentences = Ok assigned.
Proof.
  revert tokens sentences. induction nlp_sents as [|sent nlp_sents IH]; intros tokens sentences Hpos;
    [by eexists|].
  cbn [assign_tokens]. destruct (take_tokens_returns sent tokens Hpos) as [[taken others] Htake].
  rewrite Htake. cbn [rbind fst snd]. apply IH.
  apply take_tokens_Ok in Htake as [-> _]. by apply Forall_app in Hpos as [_ ?].
Qed.

Lemma rmapM_shift_start_pos_returns pos_diff sent :
  Forall has_pos sent ->
  exists shifted, rmapM (shift_start_pos pos_diff) sent = Ok shifted /\ Forall has_pos shifted.
Proof.
  induction 1 as [|token rest [p Hp] _ (shifted & IH & Hshifted)]; [by eexists|].
  cbn [rmapM]. unfold shift_start_pos at 1. rewrite Hp, IH. cbn [rbind].
  eexists. split; [done|]. constructor; [by eexists|done].
Qed.

(** The last token of a sentence that another one follows ends with the
    token separator, so that none of the three tests on its text is left
    to the assertion. *)
Lemma separate_sentences_returns pos_diff sent next_sent token :
  last sent = Some token -> ends_with_separator (text token) -> Forall has_pos next_sent ->
  exists sent' next_sent' pos_diff',
    separate_sentences pos_diff sent next_sent = Ok (sent', next_sent', pos_diff') /\
    Forall has_pos next_sent' /\ text <$> next_sent' = text <$> next_sent.
Proof.
  intros Hlast Hsep Hpos. unfold separate_sentences. rewrite Hlast.
  destruct (negb _); [|by eexists _, _, _].
  cbn [replace_alternative SENTENCE_SEPARATOR_ALTERNATIVES].
  assert (Hshift : forall txt pd,
    endswith txt TOKEN_SEPARATOR = true \/ endswith txt SENTENCE_SEPARATOR = true ->
    exists sent' next_sent' pos_diff',
      rbind
        (if endswith txt (SENTENCE_SEPARATOR ++ TOKEN_SEPARATOR) then
           Ok (drop_last (String.length TOKEN_SEPARATOR) txt, pd - len TOKEN_SEPARATOR)
         else if endswith txt TOKEN_SEPARATOR then
           Ok (drop_last (String.length TOKEN_SEPARATOR) txt ++ SENTENCE_SEPARATOR,
               pd + (len SENTENCE_SEPARATOR - len TOKEN_SEPARATOR))
         else if endswith txt SENTENCE_SEPARATOR then Ok (txt, pd)
         else Err (Raised KAssertionError))
        (fun tp =>
           rbind (rmapM (shift_start_pos (snd tp)) next_sent) (fun next_sent =>
             Ok (removelast sent ++ [set_text (fst tp) token], next_sent, snd tp)%list))
      = Ok (sent', next_sent', pos_diff') /\
      Forall has_pos next_sent' /\ text <$> next_sent' = text <$> next_sent).
  { intros txt pd Hends.
    assert (Hrun : forall tp : string * Z,
      exists sent' next_sent' pos_diff',
        rbind (rmapM (shift_start_pos (snd tp)) next_sent) (fun next_sent =>
          Ok (removelast sent ++ [set_text (fst tp) token], next_sent, snd tp)%list)
        = Ok (sent', next_sent', pos_diff') /\
        Forall has_pos next_sent' /\ text <$> next_sent' = text <$> next_sent).
    { intros tp. destruct (rmapM_shift_start_pos_returns (snd tp) next_sent Hpos)
        as (shifted & Hshifted & Hall).
      rewrite Hshifted. cbn [rbind]. eexists _, _, _. split; [done|]. split; [done|].
      by eapply rmapM_shift_start_pos_proj. }
    destruct (endswith txt (SENTENCE_SEPARATOR ++ TOKEN_SEPARATOR)); [apply Hrun|].
    destruct (endswith txt TOKEN_SEPARATOR); [apply Hrun|].
    destruct (endswith txt SENTENCE_SEPARATOR); [apply Hrun|].
    by destruct Hends. }
  destruct (endswith (text token) ("," ++ TOKEN_SEPARATOR)).
  - apply Hshift. right. apply endswith_append.
  - apply Hshift. by left.
Qed.

Lemma add_sentence_separators_returns pos_diff sent rest :
  Forall (fun s => s <> []) (sent :: rest) ->
  Forall has_pos (concat (sent :: rest)) ->
  Forall ends_with_separator (removelast (text <$> concat (sent :: rest))) ->
  exists sentences, add_sentence_separators pos_diff sent rest = Ok sentences.
Proof.
  revert pos_diff sent. induction rest as [|next_sent rest IH]; intros pos_diff sent;
    [by eexists|].
  intros [Hsent Hrest]%Forall_cons_1 Hpos Hsep.
  pose proof Hrest as [Hnext' Hrest']%Forall_cons_1. cbn [concat] in Hpos, Hsep.
  apply Forall_app in Hpos as [_ Hpos]. pose proof Hpos as [Hpos_next Hpos_rest]%Forall_app.
  rewrite fmap_app in Hsep.
  rewrite removelast_app in Hsep by (rewrite fmap_app; by destruct next_sent).
  apply Forall_app in Hsep as [Hsep_sent Hsep].
  destruct (last sent) as [token|] eqn:Hlast; [|by apply last_None in Hlast].
  assert (Htoken : ends_with_separator (text token)).
  { apply last_Some in Hlast as [sent0 ->]. rewrite fmap_app in Hsep_sent.
    apply Forall_app in Hsep_sent as [_ Hs]. by inversion Hs. }
  destruct (separate_sentences_returns pos_diff sent next_sent token Hlast Htoken Hpos_next)
    as (sent' & next_sent' & pos_diff' & Hrun & Hpos' & Htext).
  cbn [add_sentence_separators]. rewrite Hrun. cbn [rbind].
  destruct (IH pos_diff' next_sent') as [l Hl].
  - constructor; [|done]. intros ->. by destruct next_sent.
  - cbn [concat]. apply Forall_app. by split.
  - cbn [concat]. rewrite fmap_app, Htext. by rewrite <- fmap_app.
  - rewrite Hl. by eexists.
Qed.

(** The three ways of [sentence_segmentation]: an [IndexError] on an empty
    transcript or when spaCy makes no sentence, an [AssertionError] when
    the first sentence of spaCy does not start the text, and sentences
    otherwise. *)
Lemma sentence_segmentation_cases spacy_sents transcript :
  match transcript, spacy_sents (String.concat TOKEN_SEPARATOR (map text transcript)) with
  | [], _ | _ :: _, [] =>
      sentence_segmentation spacy_sents transcript = Err (Raised KIndexError)
  | _ :: _, first :: _ =>
      if start_char first =? 0
      then exists sentences, sentence_segmentation spacy_sents transcript = Ok sentences
      else sentence_segmentation spacy_sents transcript = Err (Raised KAssertionError)
  end.
Proof.
  destruct transcript as [|token rest]; [done|].
  unfold sentence_segmentation. cbn [set_first_start_pos rbind].
  destruct (add_token_separators_returns (set_start_pos 0 token) rest) as [separated Hsep];
    [by eexists|].
  rewrite Hsep. cbn [rbind]. cbv zeta. rewrite raw_transcript_assign_indices.
  rewrite (add_token_separators_raw _ _ _ Hsep).
  change (map text (set_start_pos 0 token :: rest)) with (map text (token :: rest)).
  destruct (spacy_sents _) as [|first nlp_sents] eqn:Hdoc; [done|].
  cbn [py_index nth_error rbind].
  destruct (start_char first =? 0); [|done]. cbn [negb].
  assert (Hfirst : has_pos (set_start_pos 0 token)) by (by eexists).
  destruct (add_token_separators_separated _ _ _ Hfirst Hsep)
    as (Hpos & front & last1 & Hseparated & Hfront).
  assert (Hpos' : Forall has_pos (assign_indices separated)).
  { assert (Hsome : Forall is_Some (start_pos <$> assign_indices separated)).
    { unfold assign_indices. rewrite (imap_proj start_pos) by done.
      exact (proj2 (Forall_fmap start_pos is_Some _) Hpos). }
    exact (proj1 (Forall_fmap start_pos is_Some _) Hsome). }
  destruct (assign_tokens_returns (first :: nlp_sents) _ [] Hpos') as [assigned Hassigned].
  rewrite Hassigned. cbn [rbind].
  pose proof (assign_tokens_nonempty _ _ _ _ Hassigned (Forall_nil_2 _)) as Hne.
  apply assign_tokens_Ok in Hassigned as (taken & others & Hcat & Htokens & _).
  cbn [concat app] in Hcat.
  apply segment_by_time_nonempty in Hne. pose proof (segment_by_time_concat assigned) as Hcat'.
  destruct (segment_by_time assigned) as [|sent sents]; [by eexists|].
  apply add_sentence_separators_returns; [done| |].
  - rewrite Hcat', Hcat. rewrite Htokens in Hpos'. by apply Forall_app in Hpos' as [? _].
  - rewrite Hcat', Hcat. apply (Forall_removelast_prefix _ _ (text <$> others) (text <$> front) (text last1)); [|done].
    rewrite <- fmap_app, <- Htokens. unfold assign_indices. rewrite (imap_proj text) by done.
    rewrite Hseparated. by rewrite fmap_app.
Qed.

(** X19.  [sentence_segmentation] returns sentences exactly when the
    transcript is not empty and spaCy makes at least one sentence of its
    text, the first of them starting at character 0: neither a token
    without a position nor the last assertion on the end of a sentence can
    stop it. *)
Theorem sentence_segmentation_returns_iff
  (spacy_sents : string -> list Span) (transcript : list EditToken) :
  (exists sentences, sentence_segmentation spacy_sents transcript = Ok sentences) <->
  transcript <> [] /\
  exists first nlp_sents,
    spacy_sents (String.concat TOKEN_SEPARATOR (map text transcript)) = first :: nlp_sents /\
    start_char first = 0.
Proof.
  pose proof (sentence_segmentation_cases spacy_sents transcript) as Hcases.
  destruct transcript as [|token rest].
  - rewrite Hcases. split; [by intros [? ?]|by intros [? _]].
  - destruct (spacy_sents _) as [|first nlp_sents].
    + rewrite Hcases. split; [by intros [? ?]|by intros [_ (? & ? & ? & _)]].
    + destruct (start_char first =? 0) eqn:Hz.
      * split; [|done]. intros _. split; [done|]. exists first, nlp_sents. split; [done|lia].
      * rewrite Hcases. split; [by intros [? ?]|]. intros [_ (? & ? & [= <- _] & ?)]. lia.
Qed.

(** X20.  The only exceptions of [sentence_segmentation] are the
    [IndexError] of an empty transcript or of a text in which spaCy finds no
    sentence, and the [AssertionError] of a first sentence that does not
    start at character 0. *)
Theorem sentence_segmentation_raises
  (spacy_sents : string -> list Span) (transcript : list EditToken) (e : exn) :
  sentence_segmentation spacy_sents transcript = Err e ->
  (e = Raised KIndexError /\
   (transcript = [] \/
    spacy_sents (String.concat TOKEN_SEPARATOR (map text transcript)) = [])) \/
  (e = Raised KAssertionError /\
   exists first nlp_sents,
     spacy_sents (String.concat TOKEN_SEPARATOR (map text transcript)) = first :: nlp_sents /\
     start_char first <> 0).
Proof.
  pose proof (sentence_segmentation_cases spacy_sents transcript) as Hcases.
  destruct transcript as [|token rest].
  - rewrite Hcases. intros [= <-]. left. auto.
  - destruct (spacy_sents _) as [|first nlp_sents].
    + rewrite Hcases. intros [= <-]. left. auto.
    + destruct (start_char first =? 0) eqn:Hz.
      * destruct Hcases as [sentences ->]. discriminate.
      * rewrite Hcases. intros [= <-]. right. split; [done|].
        exists first, nlp_sents. split; [done|lia].
Qed.

Lemma sentence_segmentation_raises_witness :
  let late (raw : string) := [ {| start_char := 1; end_char := len raw |} ] in
  sentence_segmentation late [Transcripts.hello] = Err (Raised KAssertionError) /\
  ((Raised KAssertionError = Raised KIndexError /\
    ([Transcripts.hello] = [] \/ late "hello" = [])) \/
   (Raised KAssertionError = Raised KAssertionError /\
    exists first nlp_sents, late "hello" = first :: nlp_sents /\ start_char first <> 0)).
Proof.
  intros late. split; [vm_compute; reflexivity|].
  apply (sentence_segmentation_raises late [Transcripts.hello] (Raised KAssertionError)).
  vm_compute. reflexivity.
Defined.

(** *** The separators between the sentences *)

Lemma substring_split (s : string) (k : nat) :
  (k <= String.length s)%nat ->
  s = (substring 0 k s ++ substring k (String.length s - k) s)%string.
Proof.
  revert k. induction s as [|c s IH]; intros k Hk.
  - cbn [String.length] in Hk. by replace k with 0%nat by lia.
  - destruct k as [|k].
    + cbn [substring]. rewrite Nat.sub_0_r. symmetry. apply (substring_whole (String c s)).
    + cbn [String.length] in Hk.
      change (String c s = String c (substring 0 k s ++ substring k (String.length s - k) s)).
      f_equal. apply IH. lia.
Qed.

Lemma endswith_inv (s suffix : string) :
  endswith s suffix = true -> exists p, s = (p ++ suffix)%string.
Proof.
  unfold endswith. intros [Hle Heq]%andb_true_iff.
  apply Nat.leb_le in Hle. apply String.eqb_eq in Heq.
  exists (substring 0 (String.length s - String.length suffix) s).
  pose proof (substring_split s (String.length s - String.length suffix)) as Hsplit.
  replace (String.length s - (String.length s - String.length suffix))%nat
    with (String.length suffix) in Hsplit by lia.
  rewrite Heq in Hsplit. apply Hsplit. lia.
Qed.

Lemma substring_prefix (p suffix : string) :
  substring 0 (String.length p) (p ++ suffix) = p.
Proof.
  induction p as [|c p IH]; [by destruct suffix|].
  change (String c (substring 0 (String.length p) (p ++ suffix)) = String c p). by rewrite IH.
Qed.

Lemma drop_last_append (p suffix : string) :
  drop_last (String.length suffix) (p ++ suffix) = p.
Proof.
  unfold drop_last. rewrite length_append.
  replace (String.length p + String.length suffix - String.length suffix)%nat
    with (String.length p) by lia.
  apply substring_prefix.
Qed.

Lemma last_chars_append (p suffix : string) :
  last_chars (String.length suffix) (p ++ suffix) = suffix.
Proof.
  unfold last_chars. rewrite length_append.
  replace (String.length p + String.length suffix - String.length suffix)%nat
    with (String.length p) by lia.
  apply substring_append.
Qed.

Lemma last_chars_endswith (s : string) :
  String.eqb (last_chars (String.length SENTENCE_SEPARATOR) s) SENTENCE_SEPARATOR = true ->
  endswith s SENTENCE_SEPARATOR = true.
Proof.
  unfold endswith, last_chars. destruct s as [|c s]; [done|]. intros ->.
  by rewrite andb_true_r.
Qed.

(** The text of the last token of a sentence that another one follows,
    and [pos_diff], after the separator of tokens was replaced. *)
Definition closing (txt : string) (pos_diff : Z) : result (string * Z) :=
  let '(txt, pos_diff) :=
    replace_alternative SENTENCE_SEPARATOR_ALTERNATIVES txt pos_diff in
  if endswith txt (SENTENCE_SEPARATOR ++ TOKEN_SEPARATOR) then
    Ok (drop_last (String.length TOKEN_SEPARATOR) txt, pos_diff - len TOKEN_SEPARATOR)
  else if endswith txt TOKEN_SEPARATOR then
    Ok (drop_last (String.length TOKEN_SEPARATOR) txt ++ SENTENCE_SEPARATOR,
        pos_diff + (len SENTENCE_SEPARATOR - len TOKEN_SEPARATOR))
  else if endswith txt SENTENCE_SEPARATOR then Ok (txt, pos_diff)
  else Err (Raised KAssertionError).

Lemma separate_sentences_closing pos_diff sent next_sent :
  separate_sentences pos_diff sent next_sent =
  match last sent with
  | None => Err (Raised KIndexError)
  | Some token =>
      if negb (String.eqb (last_chars (String.length SENTENCE_SEPARATOR) (text token))
                          SENTENCE_SEPARATOR) then
        rbind (closing (text token) pos_diff) (fun tp =>
          rbind (rmapM (shift_start_pos (snd tp)) next_sent) (fun next_sent =>
            Ok (removelast sent ++ [set_text (fst tp) token], next_sent, snd tp)%list))
      else Ok (sent, next_sent, pos_diff)
  end.
Proof.
  unfold separate_sentences, closing. destruct (last sent) as [token|]; [|done].
  destruct (negb _); [|done]. by destruct (replace_alternative _ _ _).
Qed.

(** The text ends with the separator of sentences, and [pos_diff] has grown
    by what the text has. *)
Lemma closing_Ok txt pos_diff txt' pos_diff' :
  closing txt pos_diff = Ok (txt', pos_diff') ->
  endswith txt' SENTENCE_SEPARATOR = true /\ len txt' - pos_diff' = len txt - pos_diff.
Proof.
  assert (Htests : forall txt1 pd1,
    (if endswith txt1 (SENTENCE_SEPARATOR ++ TOKEN_SEPARATOR) then
       Ok (drop_last (String.length TOKEN_SEPARATOR) txt1, pd1 - len TOKEN_SEPARATOR)
     else if endswith txt1 TOKEN_SEPARATOR then
       Ok (drop_last (String.length TOKEN_SEPARATOR) txt1 ++ SENTENCE_SEPARATOR,
           pd1 + (len SENTENCE_SEPARATOR - len TOKEN_SEPARATOR))
     else if endswith txt1 SENTENCE_SEPARATOR then Ok (txt1, pd1)
     else Err (Raised KAssertionError)) = Ok (txt', pos_diff') ->
    endswith txt' SENTENCE_SEPARATOR = true /\ len txt' - pos_diff' = len txt1 - pd1).
  { intros txt1 pd1.
    destruct (endswith txt1 (SENTENCE_SEPARATOR ++ TOKEN_SEPARATOR)) eqn:H1.
    { apply endswith_inv in H1 as [p ->]. intros [= <- <-].
      change (p ++ SENTENCE_SEPARATOR ++ TOKEN_SEPARATOR)%string
        with (p ++ (SENTENCE_SEPARATOR ++ TOKEN_SEPARATOR))%string.
      rewrite <- append_assoc. change 1%nat with (String.length TOKEN_SEPARATOR).
      rewrite drop_last_append. split; [apply endswith_append|].
      rewrite !len_append. change (len TOKEN_SEPARATOR) with 1. lia. }
    destruct (endswith txt1 TOKEN_SEPARATOR) eqn:H2.
    { apply endswith_inv in H2 as [p ->]. intros [= <- <-].
      change 1%nat with (String.length TOKEN_SEPARATOR).
      rewrite drop_last_append. split; [apply endswith_append|].
      rewrite !len_append. change (len TOKEN_SEPARATOR) with 1.
      change (len SENTENCE_SEPARATOR) with 1. lia. }
    destruct (endswith txt1 SENTENCE_SEPARATOR) eqn:H3; [|discriminate].
    by intros [= <- <-]. }
  unfold closing. cbn [replace_alternative SENTENCE_SEPARATOR_ALTERNATIVES].
  destruct (endswith txt ("," ++ TOKEN_SEPARATOR)) eqn:Halt; [|apply Htests].
  apply endswith_inv in Halt as [p ->]. rewrite drop_last_append.
  intros [Hends Hlen]%Htests. split; [done|]. rewrite Hlen, !len_append.
  change (len SENTENCE_SEPARATOR) with 1. change (len ("," ++ TOKEN_SEPARATOR)) with 2. lia.
Qed.

(** A sentence that ends a pair: either its last token ended with the
    separator of sentences and nothing changed, or the text of its last
    token was closed and the next sentence moved. *)
Lemma separate_sentences_Ok pos_diff sent next_sent sent' next_sent' pos_diff' :
  separate_sentences pos_diff sent next_sent = Ok (sent', next_sent', pos_diff') ->
  exists front token txt,
    sent = (front ++ [token])%list /\ sent' = (front ++ [set_text txt token])%list /\
    endswith txt SENTENCE_SEPARATOR = true /\
    ((endswith (text token) SENTENCE_SEPARATOR = true /\
      txt = text token /\ next_sent' = next_sent /\ pos_diff' = pos_diff) \/
     (len txt - pos_diff' = len (text token) - pos_diff /\
      rmapM (shift_start_pos pos_diff') next_sent = Ok next_sent')).
Proof.
  rewrite separate_sentences_closing.
  destruct (last sent) as [token|] eqn:Hlast; [|discriminate].
  apply last_Some in Hlast as [front ->]. rewrite removelast_last.
  destruct (String.eqb _ _) eqn:Hdot; cbn [negb].
  - intros [= <- <- <-]. apply last_chars_endswith in Hdot.
    exists front, token, (text token). split; [done|]. split; [by destruct token|].
    split; [done|]. left. done.
  - intros ([txt pd] & Hclose & (shifted & Hshift & [= <- <- <-])%rbind_Ok)%rbind_Ok.
    cbn [fst snd] in *. apply closing_Ok in Hclose as [Hends Hlen].
    exists front, token, txt. split; [done|]. split; [done|]. split; [done|]. by right.
Qed.

Lemma add_sentence_separators_closed pos_diff sent rest sentences :
  add_sentence_separators pos_diff sent rest = Ok sentences ->
  Forall (fun s => exists token,
            last s = Some token /\ endswith (text token) SENTENCE_SEPARATOR = true)
         (removelast sentences).
Proof.
  revert pos_diff sent sentences. induction rest as [|next_sent rest IH];
    intros pos_diff sent sentences.
  - by intros [= <-].
  - cbn [add_sentence_separators].
    intros ([[sent' next_sent'] pos_diff'] & Hsep & (l & Hrest & [= <-])%rbind_Ok)%rbind_Ok.
    pose proof (add_sentence_separators_proj times _ _ _ _
                  (fun _ _ => eq_refl) (fun _ _ => eq_refl) Hrest) as Hl.
    apply IH in Hrest. destruct l as [|s l]; [by inversion Hl|].
    change (removelast (sent' :: s :: l)) with (sent' :: removelast (s :: l)).
    constructor; [|done].
    apply separate_sentences_Ok in Hsep as (front & token & txt & _ & -> & Hends & _).
    exists (set_text txt token). by rewrite last_snoc.
Qed.

(** X21.  Every sentence that [sentence_segmentation] returns before
    another one ends with the separator of sentences: the text of its last
    token ends with a full stop. *)
Theorem sentence_segmentation_separated
  (spacy_sents : string -> list Span) (transcript : list EditToken)
  (front : list (list EditToken)) (final sent : list EditToken) :
  sentence_segmentation spacy_sents transcript = Ok (front ++ [final])%list ->
  sent ∈ front ->
  exists token, last sent = Some token /\ endswith (text token) SENTENCE_SEPARATOR = true.
Proof.
  intros (_ & _ & _ & _ & assigned & _ & _ & _ & _ & _ & Hfinal)%sentence_segmentation_Ok Hin.
  destruct (segment_by_time assigned) as [|s ss]; [by destruct front|].
  apply add_sentence_separators_closed in Hfinal. rewrite removelast_last in Hfinal.
  rewrite Forall_forall in Hfinal. by apply Hfinal.
Qed.

Lemma sentence_segmentation_separated_witness :
  let you := {| text := "you"; start_time := 1; end_time := 2;
                start_pos := None; index := None; label := None |} in
  let there := {| text := "there"; start_time := 6; end_time := 7;
                  start_pos := None; index := None; label := None |} in
  let first := [ {| text := "hello "; start_time := 0; end_time := 1;
                    start_pos := Some 0; index := Some 0%nat; label := None |};
                 {| text := "you."; start_time := 1; end_time := 2;
                    start_pos := Some 6; index := Some 1%nat; label := None |} ] in
  let second := [ {| text := "there"; start_time := 6; end_time := 7;
                     start_pos := Some 10; index := Some 2%nat; label := None |} ] in
  sentence_segmentation Transcripts.whole_document [Transcripts.hello; you; there]
  = Ok [first; second] /\
  exists token, last first = Some token /\ endswith (text token) SENTENCE_SEPARATOR = true.
Proof.
  intros you there first second. split; [vm_compute; reflexivity|].
  apply (sentence_segmentation_separated Transcripts.whole_document
           [Transcripts.hello; you; there] [first] second first).
  - vm_compute. reflexivity.
  - left.
Defined.

(** *** The positions of the tokens returned *)

Lemma raw_transcript_snoc l token :
  len (raw_transcript (l ++ [token])) = len (raw_transcript l) + len (text token).
Proof.
  unfold raw_transcript. rewrite map_app, concat_empty_app, len_append. done.
Qed.

Lemma raw_transcript_text l l' :
  text <$> l = text <$> l' -> raw_transcript l = raw_transcript l'.
Proof. intros Heq. unfold raw_transcript. f_equal. exact Heq. Qed.

Lemma positioned_app_iff pos l1 l2 :
  positioned pos (l1 ++ l2) <->
  positioned pos l1 /\ positioned (pos + len (raw_transcript l1)) l2.
Proof.
  revert pos. induction l1 as [|t l1 IH]; intros pos.
  - cbn. rewrite Z.add_0_r. tauto.
  - cbn [app positioned]. rewrite IH. unfold raw_transcript. cbn [map].
    rewrite concat_empty_cons, len_append, Z.add_assoc. tauto.
Qed.

Lemma rmapM_shift_start_pos_positioned pos_diff sent shifted pos :
  rmapM (shift_start_pos pos_diff) sent = Ok shifted ->
  positioned pos sent -> positioned (pos + pos_diff) shifted.
Proof.
  revert shifted pos. induction sent as [|token sent IH]; intros shifted pos.
  - by intros [= <-].
  - cbn [rmapM]. intros (token' & Htoken & (shifted' & Hrest & [= <-])%rbind_Ok)%rbind_Ok.
    intros [Hpos Hsent]. unfold shift_start_pos in Htoken. rewrite Hpos in Htoken.
    injection Htoken as <-. split; [done|]. cbn [text set_start_pos].
    replace (pos + pos_diff + len (text token)) with (pos + len (text token) + pos_diff) by lia.
    by apply IH.
Qed.

Lemma ends_with_separator_open txt :
  ends_with_separator txt -> endswith txt SENTENCE_SEPARATOR = false.
Proof.
  intros [p ->]%endswith_inv. unfold endswith.
  change (String.length SENTENCE_SEPARATOR) with (String.length TOKEN_SEPARATOR).
  fold (last_chars (String.length TOKEN_SEPARATOR) (p ++ TOKEN_SEPARATOR)).
  rewrite last_chars_append. apply andb_false_r.
Qed.

(** With [pos_diff] the growth of the text before [sent], the sentences
    before the third step positioned in the text as it was and those after
    it in the text as it is. *)
Lemma add_sentence_separators_positioned pos_diff sent rest sentences pos :
  add_sentence_separators pos_diff sent rest = Ok sentences ->
  Forall (fun s => s <> []) (sent :: rest) ->
  Forall ends_with_separator (removelast (text <$> concat (sent :: rest))) ->
  positioned pos sent ->
  positioned (pos - pos_diff + len (raw_transcript sent)) (concat rest) ->
  positioned pos (concat sentences).
Proof.
  revert pos_diff sent sentences pos. induction rest as [|next_sent rest IH];
    intros pos_diff sent sentences pos.
  - intros [= <-] _ _ Hsent _. cbn [concat]. by rewrite app_nil_r.
  - cbn [add_sentence_separators].
    intros ([[sent' next_sent'] pos_diff'] & Hsep & (l & Hrest & [= <-])%rbind_Ok)%rbind_Ok.
    intros [Hsent Hne]%Forall_cons_1 Hends Hpos Hposrest.
    pose proof Hne as [Hnext _]%Forall_cons_1.
    cbn [concat] in Hends, Hposrest. rewrite fmap_app in Hends.
    rewrite removelast_app in Hends by (rewrite fmap_app; by destruct next_sent).
    apply Forall_app in Hends as [Hends_sent Hends].
    apply positioned_app_iff in Hposrest as [Hposnext Hposrest].
    apply separate_sentences_Ok in Hsep
      as (front & token & txt & -> & -> & Hdot & [(Hclosed & _)|(Hlen & Hshift)]).
    { exfalso. rewrite fmap_app in Hends_sent. apply Forall_app in Hends_sent as [_ Hs].
      inversion Hs as [|? ? Htoken _]; subst.
      apply ends_with_separator_open in Htoken. cbn [text] in Htoken. congruence. }
    rewrite raw_transcript_snoc in Hposnext, Hposrest.
    pose proof (rmapM_shift_start_pos_proj text _ _ _ (fun _ _ => eq_refl) Hshift) as Htext.
    apply (rmapM_shift_start_pos_positioned _ _ _ _ Hshift) in Hposnext.
    rewrite (raw_transcript_text _ _ (eq_sym Htext)) in Hposrest.
    cbn [concat]. apply positioned_app_iff.
    apply positioned_app_iff in Hpos as [Hfront Htoken].
    assert (Hsent' : positioned pos (front ++ [set_text txt token])).
    { apply positioned_app_iff. split; [done|]. split; [|done]. apply Htoken. }
    split; [done|].
    apply (IH pos_diff' next_sent').
    + done.
    + constructor; [|by apply Forall_cons_1 in Hne as [_ ?]]. intros ->. by destruct next_sent.
    + cbn [concat]. rewrite fmap_app, Htext. by rewrite <- fmap_app.
    + rewrite raw_transcript_snoc. cbn [text set_text].
      replace (pos + (len (raw_transcript front) + len txt))
        with (pos - pos_diff + (len (raw_transcript front) + len (text token)) + pos_diff')
        by lia.
      done.
    + rewrite raw_transcript_snoc. cbn [text set_text].
      replace (pos + (len (raw_transcript front) + len txt) - pos_diff'
               + len (raw_transcript next_sent'))
        with (pos - pos_diff + (len (raw_transcript front) + len (text token))
              + len (raw_transcript next_sent'))
        by lia.
      done.
Qed.

(** X22.  In the sentences that [sentence_segmentation] returns every token
    starts where the texts of the tokens before it end, the first at 0:
    [start_pos] is the position of the token in the text of the sentences
    returned, with the separators of sentences in it. *)
Theorem sentence_segmentation_positioned
  (spacy_sents : string -> list Span) (transcript : list EditToken)
  (sentences : list (list EditToken)) :
  sentence_segmentation spacy_sents transcript = Ok sentences ->
  positioned 0 (concat sentences).
Proof.
  intros (token & rest & separated & first & assigned & -> & Hsep & _ & _ & Hassigned & Hfinal)
    %sentence_segmentation_Ok.
  pose proof (add_token_separators_positioned (set_start_pos 0 token) rest 0 separated
                eq_refl Hsep) as Hpos.
  apply (positioned_imap set_index) in Hpos; [|done|done].
  fold (assign_indices separated) in Hpos.
  assert (Hfirst : has_pos (set_start_pos 0 token)) by (by eexists).
  destruct (add_token_separators_separated _ _ _ Hfirst Hsep)
    as (_ & front & last1 & Hseparated & Hfront).
  pose proof (assign_tokens_nonempty _ _ _ _ Hassigned (Forall_nil_2 _)) as Hne.
  apply assign_tokens_Ok in Hassigned as (taken & others & Hcat & Htokens & _).
  cbn [concat app] in Hcat.
  apply segment_by_time_nonempty in Hne. pose proof (segment_by_time_concat assigned) as Hcat'.
  destruct (segment_by_time assigned) as [|sent sents]; [by subst sentences|].
  rewrite Htokens in Hpos. apply positioned_app_iff in Hpos as [Hpos _].
  rewrite <- Hcat, <- Hcat' in Hpos. cbn [concat] in Hpos.
  apply positioned_app_iff in Hpos as [Hsent Hsents].
  apply (add_sentence_separators_positioned 0 sent sents); [done|done| |done|].
  - rewrite Hcat', Hcat.
    apply (Forall_removelast_prefix _ _ (text <$> others) (text <$> front) (text last1)); [|done].
    rewrite <- fmap_app, <- Htokens. unfold assign_indices. rewrite (imap_proj text) by done.
    rewrite Hseparated. by rewrite fmap_app.
  - by rewrite Z.sub_0_r.
Qed.

Lemma sentence_segmentation_positioned_witness :
  let you := {| text := "you"; start_time := 1; end_time := 2;
                start_pos := None; index := None; label := None |} in
  let there := {| text := "there"; start_time := 6; end_time := 7;
                  start_pos := None; index := None; label := None |} in
  let first := [ {| text := "hello "; start_time := 0; end_time := 1;
                    start_pos := Some 0; index := Some 0%nat; label := None |};
                 {| text := "you."; start_time := 1; end_time := 2;
                    start_pos := Some 6; index := Some 1%nat; label := None |} ] in
  let second := [ {| text := "there"; start_time := 6; end_time := 7;
                     start_pos := Some 10; index := Some 2%nat; label := None |} ] in
  sentence_segmentation Transcripts.whole_document [Transcripts.hello; you; there]
  = Ok [first; second] /\
  positioned 0 (concat [first; second]).
Proof.
  intros you there first second. split; [vm_compute; reflexivity|].
  apply (sentence_segmentation_positioned Transcripts.whole_document
           [Transcripts.hello; you; there] [first; second]).
  vm_compute. reflexivity.
Defined.
